(** * TWCManager: RS-485 framing and receive loop, slave registry,
    allocator, status reports, web IPC and background tasks

    A shallow embedding of the parts of [TWCManager.py] that the
    specification talks about, followed by the theorems that relate the
    specification to the code.

    Conventions of the embedding.
    - A Python [bytes]/[bytearray] is a [list Z]; every element of a real
      bytearray lies in [0, 256).
    - A Python [str] limited to ASCII is a [list ascii].
    - Python floats (amperes, watts, clock readings) are exact rationals
      [Q]; rounding is not modelled.
    - Code that can raise returns a [result]; loops written with [while]
      are given fuel, and the theorems show that the fuel handed out by
      the callers is always enough. *)

From Stdlib Require Import ZArith QArith Qminmax Lia List Ascii String Bool.
From stdpp Require Import gmap list strings.

(** ** Python-level helpers *)

Module Py.

Inductive exn : Type :=
| IndexError
| ValueError
| TypeError
| NameError
| UnicodeEncodeError
| InvalidReference.
(* [InvalidReference] is not a Python exception: it marks the use of an
   object address that holds no object, which no run of the program
   produces (see [registry_inv] below). *)

Inductive result (A : Type) : Type :=
| Ok (a : A)
| Raise (e : exn)
| OutOfFuel.

Arguments Ok {A} a.
Arguments Raise {A} e.
Arguments OutOfFuel {A}.

Definition bind {A B} (r : result A) (k : A -> result B) : result B :=
  match r with
  | Ok a => k a
  | Raise e => Raise e
  | OutOfFuel => OutOfFuel
  end.

(** [l[i:i+n] = r] for [i <= len(l)]. *)
Definition splice {A} (l : list A) (i n : nat) (r : list A) : list A :=
  take i l ++ r ++ drop (i + n) l.

(** [l[a:b]] for non-negative [a] and [b]. *)
Definition slice {A} (l : list A) (a b : nat) : list A :=
  take (b - a) (drop a l).

(** Float comparisons as the source writes them. *)
Definition Qgeb (x y : Q) : bool := Qle_bool y x.
Definition Qgtb (x y : Q) : bool := negb (Qle_bool x y).
Definition Qltb (x y : Q) : bool := negb (Qle_bool y x).

End Py.

Import Py.

(** ** Frame codec: [send_msg], [unescape_msg] and the RX checksum test *)

Module Codec.

Local Open Scope Z_scope.

(** [for i in range(1, len(msg)): checksum += msg[i]] *)
Definition tx_checksum (msg : list Z) : Z :=
  fold_left (fun checksum i => checksum + nth i msg 0)
            (seq 1 (length msg - 1)) 0.

(** The [while(i < len(msg))] escaping loop of [send_msg]. *)
Fixpoint escape_loop (fuel i : nat) (msg : list Z) : result (list Z) :=
  match fuel with
  | O => OutOfFuel
  | S fuel' =>
      if decide (i < length msg)%nat then
        match msg !! i with
        | None => Raise IndexError
        | Some b =>
            if decide (b = 0xc0) then
              escape_loop fuel' (i + 1 + 1) (splice msg i 1 [0xdb; 0xdc])
            else if decide (b = 0xdb) then
              escape_loop fuel' (i + 1 + 1) (splice msg i 1 [0xdb; 0xdd])
            else
              escape_loop fuel' (i + 1) msg
        end
      else Ok msg
  end.

(** [send_msg] up to the bytes handed to [ser.write]; the write itself
    and the update of [timeLastTx] live in the bus state below. *)
Definition send_msg (msg : list Z) : result (list Z) :=
  let checksum := tx_checksum msg in
  let msg := msg ++ [Z.land checksum 0xFF] in
  bind (escape_loop (S (length msg)) 0 msg) (fun msg =>
  Ok ([0xc0] ++ msg ++ [0xc0])).

(** The [while i < len(msg)] loop of [unescape_msg].  [msg[i+1]] raises
    [IndexError] when [i] is the last index. *)
Fixpoint unescape_loop (fuel i : nat) (msg : list Z) : result (list Z) :=
  match fuel with
  | O => OutOfFuel
  | S fuel' =>
      if decide (i < length msg)%nat then
        match msg !! i with
        | None => Raise IndexError
        | Some b =>
            if decide (b = 0xdb) then
              match msg !! (i + 1)%nat with
              | None => Raise IndexError
              | Some n =>
                  if decide (n = 0xdc) then
                    unescape_loop fuel' (i + 1) (splice msg i 2 [0xc0])
                  else if decide (n = 0xdd) then
                    unescape_loop fuel' (i + 1) (splice msg i 2 [0xdb])
                  else
                    (* prints "ERROR: Special character 0xDB in message
                       is followed by invalid character" *)
                    unescape_loop fuel' (i + 1) (splice msg i 2 [0xdb])
              end
            else unescape_loop fuel' (i + 1) msg
        end
      else Ok msg
  end.

Definition unescape_msg (msg : list Z) (msgLen : nat) : result (list Z) :=
  let msg := take msgLen msg in
  bind (unescape_loop (S (length msg)) 0 msg) (fun msg =>
  Ok (slice msg 1 (length msg - 1))).

(** The checksum test of the receive path:
    [checksumExpected = msg[len(msg) - 1]], the sum over
    [range(1, len(msg) - 1)], and the comparison of its low byte.  The
    main loop only gets here with 14 or 16 bytes, so there is a last
    byte to read. *)
Definition rx_checksum (msg : list Z) : Z :=
  fold_left (fun checksum i => checksum + nth i msg 0)
            (seq 1 (length msg - 1 - 1)) 0.

Definition rx_checksum_ok (msg : list Z) : bool :=
  match msg !! (length msg - 1)%nat with
  | None => false
  | Some checksumExpected =>
      bool_decide (Z.land (rx_checksum msg) 0xFF = checksumExpected)
  end.

(** The length gate that precedes the checksum test in the main loop. *)
Inductive rx_verdict : Type :=
| RxAccepted
| RxUnexpectedLength
| RxChecksumMismatch.

Definition rx_verify (msg : list Z) : rx_verdict :=
  if bool_decide (length msg ≠ 14%nat) && bool_decide (length msg ≠ 16%nat)
  then RxUnexpectedLength
  else if rx_checksum_ok msg then RxAccepted else RxChecksumMismatch.

(** The wire format in the words of the protocol description: every
    [0xC0] becomes [0xDB 0xDC] and every [0xDB] becomes [0xDB 0xDD]. *)
Fixpoint slip_escape (l : list Z) : list Z :=
  match l with
  | [] => []
  | b :: l' =>
      if decide (b = 0xc0) then 0xdb :: 0xdc :: slip_escape l'
      else if decide (b = 0xdb) then 0xdb :: 0xdd :: slip_escape l'
      else b :: slip_escape l'
  end.

(** 8-bit sum of all bytes but the first. *)
Definition sum8_tail (l : list Z) : Z :=
  Z.land (foldr Z.add 0 (tail l)) 0xFF.

(** Left-to-right decoding of escape pairs; a trailing lone [0xDB] has
    no successor to look at. *)
Fixpoint slip_unescape (l : list Z) : result (list Z) :=
  match l with
  | [] => Ok []
  | b :: l' =>
      if decide (b = 0xdb) then
        match l' with
        | [] => Raise IndexError
        | n :: l'' =>
            bind (slip_unescape l'') (fun r =>
            Ok ((if decide (n = 0xdc) then 0xc0 else 0xdb) :: r))
        end
      else bind (slip_unescape l') (fun r => Ok (b :: r))
  end.

End Codec.

(** ** Slave sessions, the registry and the bus loop *)

Module TWC.

(** The fields of a [TWCSlave] object that the main program reads or
    writes. *)
Record TWCSlave : Type := mkTWCSlave {
  TWCID : list Z;
  maxAmps : Q;
  protocolVersion : Z;
  minAmpsTWCSupports : Z;
  wiringMaxAmps : Q;
  timeLastRx : Q;
  reportedAmpsActual : Q;
  lastAmpsOffered : Q;
  reportedState : Z;
  lastHeartbeatDebugOutput : list ascii
}.

(** Modelled from the spec: the constructor [TWCSlave(TWCID, maxAmps,
    carapi)]; the class lives in [lib/TWCManager/TWCSlave.py], which is
    not among the sources.  The session records the id and the
    advertised [maxAmps], starts with the operator-configured
    [wiringMaxAmpsPerTWC] and with nothing offered or reported.  The
    protocol version starts at 1 with [minAmpsTWCSupports = 6], the
    combination the link-ready handler tests for before it infers the
    version from the frame length. *)
Definition TWCSlave_init (wiringMaxAmpsPerTWC now : Q)
    (newSlaveID : list Z) (advertised : Q) : TWCSlave :=
  {| TWCID := newSlaveID;
     maxAmps := advertised;
     protocolVersion := 1;
     minAmpsTWCSupports := 6;
     wiringMaxAmps := wiringMaxAmpsPerTWC;
     timeLastRx := now;
     reportedAmpsActual := 0;
     lastAmpsOffered := 0;
     reportedState := 0;
     lastHeartbeatDebugOutput := [] |}.

Definition set_protocol (pv minAmps : Z) (s : TWCSlave) : TWCSlave :=
  mkTWCSlave (TWCID s) (maxAmps s) pv minAmps (wiringMaxAmps s)
             (timeLastRx s) (reportedAmpsActual s) (lastAmpsOffered s)
             (reportedState s) (lastHeartbeatDebugOutput s).

Definition set_wiringMaxAmps (w : Q) (s : TWCSlave) : TWCSlave :=
  mkTWCSlave (TWCID s) (maxAmps s) (protocolVersion s)
             (minAmpsTWCSupports s) w
             (timeLastRx s) (reportedAmpsActual s) (lastAmpsOffered s)
             (reportedState s) (lastHeartbeatDebugOutput s).

Definition set_timeLastRx (t : Q) (s : TWCSlave) : TWCSlave :=
  mkTWCSlave (TWCID s) (maxAmps s) (protocolVersion s)
             (minAmpsTWCSupports s) (wiringMaxAmps s)
             t (reportedAmpsActual s) (lastAmpsOffered s)
             (reportedState s) (lastHeartbeatDebugOutput s).

Definition set_lastHeartbeatDebugOutput (o : list ascii) (s : TWCSlave)
    : TWCSlave :=
  mkTWCSlave (TWCID s) (maxAmps s) (protocolVersion s)
             (minAmpsTWCSupports s) (wiringMaxAmps s)
             (timeLastRx s) (reportedAmpsActual s) (lastAmpsOffered s)
             (reportedState s) o.

(** What the program does to the outside world, in order.  Prints that
    depend on [debugLevel] and the [time.sleep] calls are left out. *)
Inductive event : Type :=
| SerWrite (wire : list Z)
| SendMasterHeartbeat (slaveTWC : nat) (receiver : list Z)
| WarnDroppingOldest (oldest : list Z)
| WarnSilentSlave (silent : list Z)
| WarnDanger (advertised : Q)
| ErrorCouldDisable (twcMsg : list Z)
| ErrorCouldCrash (twcMsg : list Z).

Definition is_tx (e : event) : bool :=
  match e with
  | SerWrite _ | SendMasterHeartbeat _ _ => true
  | _ => false
  end.

Record config : Type := {
  fakeMaster : Z;
  wiringMaxAmpsPerTWC : Q
}.

(** The module-level variables.  [TWCSlave] objects live in [heap];
    the dictionary [slaveTWCs] and the list [slaveTWCRoundRobin] hold
    their addresses, so that both see every update of a session. *)
Record globals : Type := mkGlobals {
  heap : gmap nat TWCSlave;
  slaveTWCs : gmap (list Z) nat;
  slaveTWCRoundRobin : list nat;
  idxSlaveToSendNextHeartbeat : nat;
  numInitMsgsToSend : Z;
  spikeAmpsToCancel6ALimit : Z;
  timeLastTx : Q;
  fakeTWCID : list Z;
  masterSign : list Z;
  slaveSign : list Z;
  lastTWCResponseMsg : option (list Z);
  trace : list event
}.

Definition set_heap (f : gmap nat TWCSlave -> gmap nat TWCSlave)
    (g : globals) : globals :=
  mkGlobals (f (heap g)) (slaveTWCs g) (slaveTWCRoundRobin g)
    (idxSlaveToSendNextHeartbeat g) (numInitMsgsToSend g)
    (spikeAmpsToCancel6ALimit g) (timeLastTx g) (fakeTWCID g)
    (masterSign g) (slaveSign g) (lastTWCResponseMsg g) (trace g).

Definition set_slaveTWCs (f : gmap (list Z) nat -> gmap (list Z) nat)
    (g : globals) : globals :=
  mkGlobals (heap g) (f (slaveTWCs g)) (slaveTWCRoundRobin g)
    (idxSlaveToSendNextHeartbeat g) (numInitMsgsToSend g)
    (spikeAmpsToCancel6ALimit g) (timeLastTx g) (fakeTWCID g)
    (masterSign g) (slaveSign g) (lastTWCResponseMsg g) (trace g).

Definition set_slaveTWCRoundRobin (f : list nat -> list nat)
    (g : globals) : globals :=
  mkGlobals (heap g) (slaveTWCs g) (f (slaveTWCRoundRobin g))
    (idxSlaveToSendNextHeartbeat g) (numInitMsgsToSend g)
    (spikeAmpsToCancel6ALimit g) (timeLastTx g) (fakeTWCID g)
    (masterSign g) (slaveSign g) (lastTWCResponseMsg g) (trace g).

Definition set_idx (i : nat) (g : globals) : globals :=
  mkGlobals (heap g) (slaveTWCs g) (slaveTWCRoundRobin g)
    i (numInitMsgsToSend g)
    (spikeAmpsToCancel6ALimit g) (timeLastTx g) (fakeTWCID g)
    (masterSign g) (slaveSign g) (lastTWCResponseMsg g) (trace g).

Definition set_numInitMsgsToSend (n : Z) (g : globals) : globals :=
  mkGlobals (heap g) (slaveTWCs g) (slaveTWCRoundRobin g)
    (idxSlaveToSendNextHeartbeat g) n
    (spikeAmpsToCancel6ALimit g) (timeLastTx g) (fakeTWCID g)
    (masterSign g) (slaveSign g) (lastTWCResponseMsg g) (trace g).

Definition set_spike (a : Z) (g : globals) : globals :=
  mkGlobals (heap g) (slaveTWCs g) (slaveTWCRoundRobin g)
    (idxSlaveToSendNextHeartbeat g) (numInitMsgsToSend g)
    a (timeLastTx g) (fakeTWCID g)
    (masterSign g) (slaveSign g) (lastTWCResponseMsg g) (trace g).

Definition set_timeLastTx (t : Q) (g : globals) : globals :=
  mkGlobals (heap g) (slaveTWCs g) (slaveTWCRoundRobin g)
    (idxSlaveToSendNextHeartbeat g) (numInitMsgsToSend g)
    (spikeAmpsToCancel6ALimit g) t (fakeTWCID g)
    (masterSign g) (slaveSign g) (lastTWCResponseMsg g) (trace g).

Definition set_lastTWCResponseMsg (m : option (list Z)) (g : globals)
    : globals :=
  mkGlobals (heap g) (slaveTWCs g) (slaveTWCRoundRobin g)
    (idxSlaveToSendNextHeartbeat g) (numInitMsgsToSend g)
    (spikeAmpsToCancel6ALimit g) (timeLastTx g) (fakeTWCID g)
    (masterSign g) (slaveSign g) m (trace g).

Definition set_trace (f : list event -> list event) (g : globals)
    : globals :=
  mkGlobals (heap g) (slaveTWCs g) (slaveTWCRoundRobin g)
    (idxSlaveToSendNextHeartbeat g) (numInitMsgsToSend g)
    (spikeAmpsToCancel6ALimit g) (timeLastTx g) (fakeTWCID g)
    (masterSign g) (slaveSign g) (lastTWCResponseMsg g) (f (trace g)).

(** The values the global variables are initialised with. *)
Definition initial : globals :=
  {| heap := ∅;
     slaveTWCs := ∅;
     slaveTWCRoundRobin := [];
     idxSlaveToSendNextHeartbeat := 0;
     numInitMsgsToSend := 10;
     spikeAmpsToCancel6ALimit := 16;
     timeLastTx := 0;
     fakeTWCID := [0x77; 0x77]%Z;
     masterSign := [0x77]%Z;
     slaveSign := [0x77]%Z;
     lastTWCResponseMsg := None;
     trace := [] |}.

(** *** State and exceptions *)

Definition M (A : Type) : Type := globals -> result A * globals.

Definition ret {A} (a : A) : M A := fun g => (Ok a, g).

Definition mbind {A B} (m : M A) (k : A -> M B) : M B :=
  fun g =>
    match m g with
    | (Ok a, g') => k a g'
    | (Raise e, g') => (Raise e, g')
    | (OutOfFuel, g') => (OutOfFuel, g')
    end.

Definition raise {A} (e : exn) : M A := fun g => (Raise e, g).
Definition gets {A} (f : globals -> A) : M A := fun g => (Ok (f g), g).
Definition modify (f : globals -> globals) : M unit :=
  fun g => (Ok tt, f g).
Definition emit (e : event) : M unit := modify (set_trace (fun t => t ++ [e])).
Definition lift {A} (r : result A) : M A := fun g => (r, g).

Declare Scope twc_scope.
Delimit Scope twc_scope with twc.
Notation "x <- m ;; k" := (mbind m (fun x => k))
  (at level 100, m at next level, right associativity) : twc_scope.
Notation "m ;;; k" := (mbind m (fun _ => k))
  (at level 100, right associativity) : twc_scope.
Local Open Scope twc_scope.

(** Reading and updating the object behind a reference. *)
Definition deref (a : nat) : M TWCSlave :=
  fun g =>
    match heap g !! a with
    | Some s => (Ok s, g)
    | None => (Raise InvalidReference, g)
    end.

Definition update (a : nat) (f : TWCSlave -> TWCSlave) : M unit :=
  s <- deref a ;; modify (set_heap (insert a (f s))).

(** *** [delete_slave] and [new_slave] *)

(** [for i in range(0, len(slaveTWCRoundRobin))]: delete the first entry
    whose [TWCID] is [deleteSlaveID], then [break]. *)
Fixpoint del_first (h : gmap nat TWCSlave) (deleteSlaveID : list Z)
    (l : list nat) : list nat :=
  match l with
  | [] => []
  | a :: l' =>
      match h !! a with
      | Some s =>
          if decide (TWCID s = deleteSlaveID) then l'
          else a :: del_first h deleteSlaveID l'
      | None => a :: del_first h deleteSlaveID l'
      end
  end.

Definition delete_slave (deleteSlaveID : list Z) : M unit :=
  h <- gets heap ;;
  modify (set_slaveTWCRoundRobin (del_first h deleteSlaveID)) ;;;
  (* try: del slaveTWCs[deleteSlaveID]  except KeyError: pass *)
  modify (set_slaveTWCs (delete deleteSlaveID)).

Definition new_slave (cfg : config) (now : Q)
    (newSlaveID : list Z) (advertised : Q) : M nat :=
  known <- gets (fun g => slaveTWCs g !! newSlaveID) ;;
  match known with
  | Some slaveTWC => ret slaveTWC
  | None =>
      slaveTWC <- gets (fun g => fresh (dom (heap g) : gset nat)) ;;
      modify (set_heap (insert slaveTWC
                (TWCSlave_init (wiringMaxAmpsPerTWC cfg) now
                               newSlaveID advertised))) ;;;
      modify (set_slaveTWCs (insert newSlaveID slaveTWC)) ;;;
      modify (set_slaveTWCRoundRobin (fun l => l ++ [slaveTWC])) ;;;
      rr <- gets slaveTWCRoundRobin ;;
      (if decide (3 < length rr) then
         match rr !! 0%nat with
         | None => raise IndexError
         | Some oldest =>
             o <- deref oldest ;;
             emit (WarnDroppingOldest (TWCID o)) ;;;
             delete_slave (TWCID o)
         end
       else ret tt) ;;;
      ret slaveTWC
  end.

(** *** Transmissions *)

(** [send_msg]: the framed bytes go to the serial port and
    [timeLastTx] takes the clock reading [tSent]. *)
Definition send_msg (tSent : Q) (msg : list Z) : M unit :=
  wire <- lift (Codec.send_msg msg) ;;
  emit (SerWrite wire) ;;;
  modify (set_timeLastTx tSent).

Definition zeros8 : list Z := [0; 0; 0; 0; 0; 0; 0; 0]%Z.

Definition send_master_linkready1 (tSent : Q) : M unit :=
  g <- gets id ;;
  send_msg tSent ([0xFC; 0xE1]%Z ++ fakeTWCID g ++ masterSign g ++ zeros8).

Definition send_master_linkready2 (tSent : Q) : M unit :=
  g <- gets id ;;
  send_msg tSent ([0xFB; 0xE2]%Z ++ fakeTWCID g ++ masterSign g ++ zeros8).

(** [send_slave_linkready] is a module-level function that reads
    [self.protocolVersion]; no [self] is in scope there. *)
Definition send_slave_linkready (tSent : Q) : M unit :=
  raise NameError.

(** Modelled from the spec: the method [TWCSlave.send_master_heartbeat]
    (same missing file as the constructor).  It builds the heartbeat
    frame for this session and transmits it; after any transmission
    [timeLastTx] is recorded.  The frame contents are not needed here,
    so the transmission is recorded by its receiver only. *)
Definition send_master_heartbeat (tSent : Q) (slaveTWC : nat) : M unit :=
  s <- deref slaveTWC ;;
  emit (SendMasterHeartbeat slaveTWC (TWCID s)) ;;;
  modify (set_timeLastTx tSent).

(** *** The periodic part of one pass of the main loop *)

(** The clock readings of one pass: [tTxCheck] is compared with
    [timeLastTx], [tRxCheck] with the session's [timeLastRx], and
    [tSent] is what [send_msg] stores in [timeLastTx]. *)
Record clock : Type := {
  tTxCheck : Q;
  tRxCheck : Q;
  tSent : Q
}.

Definition heartbeat_or_evict (clk : clock) : M unit :=
  rr <- gets slaveTWCRoundRobin ;;
  if decide (0 < length rr) then
    idx <- gets idxSlaveToSendNextHeartbeat ;;
    match rr !! idx with
    | None => raise IndexError
    | Some slaveTWC =>
        s <- deref slaveTWC ;;
        (if Qgtb (tRxCheck clk - timeLastRx s) 26 then
           emit (WarnSilentSlave (TWCID s)) ;;;
           delete_slave (TWCID s)
         else
           send_master_heartbeat (tSent clk) slaveTWC) ;;;
        modify (fun g => set_idx (idxSlaveToSendNextHeartbeat g + 1) g) ;;;
        g <- gets id ;;
        if decide (length (slaveTWCRoundRobin g)
                   <= idxSlaveToSendNextHeartbeat g)
        then modify (set_idx 0)
        else ret tt
    end
  else ret tt.

Definition tick (cfg : config) (clk : clock) : M unit :=
  if decide (fakeMaster cfg = 1%Z) then
    n <- gets numInitMsgsToSend ;;
    if decide (5 < n)%Z then
      send_master_linkready1 (tSent clk) ;;;
      modify (set_numInitMsgsToSend (n - 1))
    else if decide (0 < n)%Z then
      send_master_linkready2 (tSent clk) ;;;
      modify (set_numInitMsgsToSend (n - 1))
    else
      last <- gets timeLastTx ;;
      if Qgeb (tTxCheck clk - last) 1
      then heartbeat_or_evict clk
      else ret tt
  else
    last <- gets timeLastTx ;;
    if bool_decide (fakeMaster cfg <> 2%Z) && Qgeb (tTxCheck clk - last) 10
    then send_slave_linkready (tSent clk)
    else ret tt.

(** *** The slave link-ready handler *)

(** [re.search(b'^\xfd\xe2(..)(.)(..)\x00\x00\x00\x00\x00\x00.+\Z', msg,
    re.DOTALL)]: the groups are the sender id, its sign and the two
    bytes of [maxAmps]. *)
Definition match_slave_linkready (msg : list Z)
    : option (list Z * list Z * list Z) :=
  match msg with
  | 0xfd :: 0xe2 :: i0 :: i1 :: s :: m0 :: m1
      :: 0 :: 0 :: 0 :: 0 :: 0 :: 0 :: _ :: _ =>
      Some ([i0; i1], [s], [m0; m1])
  | _ => None
  end%Z.

(** [((group(3)[0] << 8) + group(3)[1]) / 100] *)
Definition advertised_maxAmps (grp : list Z) : Q :=
  (inject_Z (Z.shiftl (nth 0 grp 0%Z) 8 + nth 1 grp 0%Z) / 100)%Q.

(** The part of the handler that works on the session returned by
    [new_slave]. *)
Definition link_session (now : Q) (clk : clock) (msg : list Z)
    (maxAmps : Q) (slaveTWC : nat) : M unit :=
  s <- deref slaveTWC ;;
  (if decide (protocolVersion s = 1%Z /\ minAmpsTWCSupports s = 6%Z) then
     if decide (length msg = 14%nat) then
       update slaveTWC (set_protocol 1 5)
     else if decide (length msg = 16%nat) then
       update slaveTWC (set_protocol 2 6)
     else ret tt
   else ret tt) ;;;
  s <- deref slaveTWC ;;
  (if Qgtb (wiringMaxAmps s) maxAmps then
     emit (WarnDanger maxAmps) ;;;
     update slaveTWC (set_wiringMaxAmps (maxAmps / 4))
   else ret tt) ;;;
  update slaveTWC (set_lastHeartbeatDebugOutput []) ;;;
  update slaveTWC (set_timeLastRx now) ;;;
  send_master_heartbeat (tSent clk) slaveTWC.

Definition slave_linkready (cfg : config) (now : Q) (clk : clock)
    (msg : list Z) (senderID sign grp3 : list Z) : M unit :=
  let maxAmps := advertised_maxAmps grp3 in
  modify (set_spike (if Qgeb maxAmps 80 then 21 else 16)%Z) ;;;
  own <- gets fakeTWCID ;;
  if decide (senderID = own) then
    (* print(time_now + ": Slave TWC ..."): a function plus a string *)
    raise TypeError
  else
    slaveTWC <- new_slave cfg now senderID maxAmps ;;
    link_session now clk msg maxAmps slaveTWC.

(** The [wiringMaxAmps] of the session a link-ready from [senderID]
    will work on: the stored one for a registered id, the configured
    [wiringMaxAmpsPerTWC] for a new one. *)
Definition session_wiringMaxAmps (cfg : config) (g : globals)
    (senderID : list Z) : Q :=
  match slaveTWCs g !! senderID with
  | Some a =>
      match heap g !! a with
      | Some s => wiringMaxAmps s
      | None => wiringMaxAmpsPerTWC cfg
      end
  | None => wiringMaxAmpsPerTWC cfg
  end.

(** The first pattern of the dispatch for [fakeMaster == 1]; [None]
    when the frame is not a slave link-ready. *)
Definition on_frame_as_master (cfg : config) (now : Q) (clk : clock)
    (msg : list Z) : option (M unit) :=
  match match_slave_linkready msg with
  | Some (senderID, sign, grp3) =>
      Some (slave_linkready cfg now clk msg senderID sign grp3)
  | None => None
  end.

(** *** Registry invariant *)

(** The dictionary and the round-robin list name the same sessions:
    an id is a key of [slaveTWCs] exactly when the object it maps to is
    in [slaveTWCRoundRobin] and carries that id; every listed address
    holds an object. *)
Record registry_wf (g : globals) : Prop := {
  wf_nodup : NoDup (slaveTWCRoundRobin g);
  wf_same : forall (i : list Z) (a : nat),
      slaveTWCs g !! i = Some a
      <-> a ∈ slaveTWCRoundRobin g
          /\ exists s, heap g !! a = Some s /\ TWCID s = i;
  wf_closed : forall a : nat,
      a ∈ slaveTWCRoundRobin g -> is_Some (heap g !! a)
}.

Definition registry_inv (g : globals) : Prop :=
  registry_wf g /\ length (slaveTWCRoundRobin g) <= 3.

(** The heartbeat cursor points into the list whenever the list is not
    empty. *)
Definition cursor_ok (g : globals) : Prop :=
  idxSlaveToSendNextHeartbeat g < length (slaveTWCRoundRobin g)
  \/ idxSlaveToSendNextHeartbeat g = 0.

(** The ids of the sessions in round-robin order. *)
Definition ids_in_order (g : globals) : list (list Z) :=
  omap (fun a => TWCID <$> heap g !! a) (slaveTWCRoundRobin g).

(** Steps that leave a component [f] of the state alone, whether they
    return or raise. *)
Definition keeps {A B} (f : globals -> B) (m : M A) : Prop :=
  forall g, f (snd (m g)) = f g.

(** The events a step appended to the trace. *)
Definition new_events (g g' : globals) : list event :=
  drop (length (trace g)) (trace g').

End TWC.

(** ** Allocator: the green-energy budget of [TWCMaster] *)

Module Allocator.

Local Open Scope Q_scope.

(** The two dictionaries keep their items in insertion order, as a
    Python [dict] does; keys are unique. *)
Record TWCMaster : Type := {
  consumptionValues : list (string * Q);
  generationValues : list (string * Q);
  subtractChargerLoad : bool;
  totalAmpsInUse : Q
}.

(** [d[source] = value] *)
Fixpoint dict_set (source : string) (value : Q) (d : list (string * Q))
    : list (string * Q) :=
  match d with
  | [] => [(source, value)]
  | (k, v) :: d' =>
      if decide (k = source) then (source, value) :: d'
      else (k, v) :: dict_set source value d'
  end.

Definition setConsumption (source : string) (value : Q) (m : TWCMaster)
    : TWCMaster :=
  {| consumptionValues := dict_set source value (consumptionValues m);
     generationValues := generationValues m;
     subtractChargerLoad := subtractChargerLoad m;
     totalAmpsInUse := totalAmpsInUse m |}.

Definition setGeneration (source : string) (value : Q) (m : TWCMaster)
    : TWCMaster :=
  {| consumptionValues := consumptionValues m;
     generationValues := dict_set source value (generationValues m);
     subtractChargerLoad := subtractChargerLoad m;
     totalAmpsInUse := totalAmpsInUse m |}.

Definition setTotalAmpsInUse (amps : Q) (m : TWCMaster) : TWCMaster :=
  {| consumptionValues := consumptionValues m;
     generationValues := generationValues m;
     subtractChargerLoad := subtractChargerLoad m;
     totalAmpsInUse := amps |}.

Definition getTotalAmpsInUse (m : TWCMaster) : Q := totalAmpsInUse m.

Definition getChargerLoad (m : TWCMaster) : Q := getTotalAmpsInUse m * 240.

(** [for key in d: val += float(d[key])] *)
Definition add_up (d : list (string * Q)) : Q :=
  fold_left (fun val item => val + snd item) d 0.

Definition getConsumption (m : TWCMaster) : Q :=
  let consumptionVal := add_up (consumptionValues m) in
  if Qltb consumptionVal 0 then 0 else consumptionVal.

Definition getGeneration (m : TWCMaster) : Q :=
  let generationVal := add_up (generationValues m) in
  if Qltb generationVal 0 then 0 else generationVal.

Definition getGenerationOffset (m : TWCMaster) : Q :=
  let generationOffset := getConsumption m in
  let generationOffset :=
    if subtractChargerLoad m then generationOffset - getChargerLoad m
    else generationOffset in
  if Qltb generationOffset 0 then 0 else generationOffset.

Definition getMaxAmpsToDivideAmongSlaves (m : TWCMaster) : Q :=
  let solarW := getGeneration m - getGenerationOffset m in
  let solarW := if Qltb solarW 0 then 0 else solarW in
  solarW / 240.

(** The budget in the words of the specification. *)
Definition sum_of (d : list (string * Q)) : Q :=
  foldr Qplus 0 (map snd d).

Definition green_budget (m : TWCMaster) : Q :=
  Qmax 0 (Qmax 0 (sum_of (generationValues m))
          - Qmax 0 (Qmax 0 (sum_of (consumptionValues m))
                    - (if subtractChargerLoad m
                       then totalAmpsInUse m * 240 else 0)))
  / 240.

End Allocator.

(** ** Requests from the web interface *)

Module Web.

Import TWC.
Local Open Scope twc_scope.

(** The bytes of an ASCII literal such as [b'sendTWCMsg=']. *)
Definition bytes_of (s : string) : list Z :=
  map (fun c => Z.of_N (N_of_ascii c)) (list_ascii_of_string s).

(** ["{:02X}".format(c)] for a byte [c]. *)
Definition hex_digit (n : Z) : ascii :=
  nth (Z.to_nat n)
      ["0"; "1"; "2"; "3"; "4"; "5"; "6"; "7";
       "8"; "9"; "A"; "B"; "C"; "D"; "E"; "F"]%char "?"%char.

Definition format_02X (c : Z) : list ascii :=
  [hex_digit (c / 16); hex_digit (c mod 16)]%Z.

(** [sep.join(parts)] *)
Fixpoint join (sep : list ascii) (parts : list (list ascii)) : list ascii :=
  match parts with
  | [] => []
  | [p] => p
  | p :: ps => p ++ sep ++ join sep ps
  end.

Definition hex_str (ba : list Z) : list ascii :=
  join [" "%char] (map format_02X ba).

(** [s.encode('ascii')] *)
Definition encode_ascii (s : list ascii) : result (list Z) :=
  if forallb (fun c => (N_of_ascii c <? 128)%N) s
  then Ok (map (fun c => Z.of_N (N_of_ascii c)) s)
  else Raise UnicodeEncodeError.

(** A message on the IPC queue: [struct.pack('=LH<n>s', webMsgTime,
    webMsgID, payload)], kept as its three fields. *)
Record ipc_msg : Type := mkIpc {
  ipc_time : Z;
  ipc_id : Z;
  ipc_payload : list Z
}.

(** [for i in range(0, numPackets)]: send [webResponseMsg[i*290:
    i*290+290]].  The second component is the queue; an exception leaves
    what was sent before it. *)
Fixpoint send_packets (webMsgTime webMsgID : Z) (webResponseMsg : list ascii)
    (indices : list nat) (queue : list ipc_msg)
    : result unit * list ipc_msg :=
  match indices with
  | [] => (Ok tt, queue)
  | i :: indices' =>
      let packet := slice webResponseMsg (i * 290) (i * 290 + 290) in
      match encode_ascii packet with
      | Ok payload =>
          send_packets webMsgTime webMsgID webResponseMsg indices'
                       (queue ++ [mkIpc webMsgTime webMsgID payload])
      | Raise e => (Raise e, queue)
      | OutOfFuel => (OutOfFuel, queue)
      end
  end.

(** The reply code that follows the command dispatch, from
    [if(len(webResponseMsg) > 0)] on.  The queue is taken to have room,
    so that [send(..., block=False)] does not raise [BusyError]. *)
Definition send_web_response (webMsgTime webMsgID : Z) (numPackets : nat)
    (webResponseMsg : list ascii) : result unit * list ipc_msg :=
  if decide (0 < length webResponseMsg) then
    if decide (numPackets = 0) then
      let webResponseMsg :=
        if decide (290 < length webResponseMsg)
        then slice webResponseMsg 0 290 else webResponseMsg in
      match encode_ascii webResponseMsg with
      | Ok payload => (Ok tt, [mkIpc webMsgTime webMsgID payload])
      | Raise e => (Raise e, [])
      | OutOfFuel => (OutOfFuel, [])
      end
    else if decide (255 < numPackets) then
      (* bytearray([numPackets]) *)
      (Raise ValueError, [])
    else
      send_packets webMsgTime webMsgID webResponseMsg (seq 0 numPackets)
                   [mkIpc webMsgTime webMsgID [Z.of_nat numPackets]]
  else (Ok tt, []).

(** [numPackets = math.ceil(len(webResponseMsg) / 290)], the only
    assignment of a non-zero packet count (in the [dumpState] branch). *)
Definition dumpState_numPackets (webResponseMsg : list ascii) : nat :=
  (length webResponseMsg + 289) / 290.

(** *** [sendTWCMsg=<hex>] *)

Definition is_hex (b : Z) : bool :=
  ((0x30 <=? b) && (b <=? 0x39) || (0x61 <=? b) && (b <=? 0x66)
   || (0x41 <=? b) && (b <=? 0x46))%Z.

Definition hex_val (b : Z) : Z :=
  (if b <=? 0x39 then b - 0x30
   else if b <=? 0x46 then b - 0x41 + 10
   else b - 0x61 + 10)%Z.

Fixpoint hex_prefix (s : list Z) : list Z :=
  match s with
  | [] => []
  | b :: s' => if is_hex b then b :: hex_prefix s' else []
  end.

(** [re.search(b'([0-9a-fA-F]+)', s)]: the leftmost, longest run of
    hex digits. *)
Fixpoint search_hex_run (s : list Z) : option (list Z) :=
  match s with
  | [] => None
  | b :: s' => if is_hex b then Some (b :: hex_prefix s')
               else search_hex_run s'
  end.

(** [bytearray.fromhex] on a string of hex digits: an odd number of
    digits is a [ValueError]. *)
Fixpoint fromhex (digits : list Z) : result (list Z) :=
  match digits with
  | [] => Ok []
  | [_] => Raise ValueError
  | h :: l :: digits' =>
      bind (fromhex digits') (fun r =>
      Ok ((hex_val h * 16 + hex_val l)%Z :: r))
  end.

Definition trim_pad (s : list Z) (makeLen : nat) : list Z :=
  let s := s ++ replicate (makeLen - length s) 0%Z in
  if decide (makeLen < length s) then slice s 0 makeLen else s.

(** [15 if len(slaveTWCRoundRobin) == 0 or
    slaveTWCRoundRobin[0].protocolVersion == 2 else 13] *)
Definition twcMsg_length : M nat :=
  rr <- gets slaveTWCRoundRobin ;;
  match rr with
  | [] => ret 15
  | first :: _ =>
      s <- deref first ;;
      ret (if decide (protocolVersion s = 2%Z) then 15 else 13)
  end.

Definition could_disable (twcMsg : list Z) : bool :=
  bool_decide (slice twcMsg 0 2 = [0xFC; 0x19]%Z)
  || bool_decide (slice twcMsg 0 2 = [0xFC; 0x1A]%Z).

Definition could_crash (twcMsg : list Z) : bool :=
  bool_decide (slice twcMsg 0 2 = [0xFB; 0xE8]%Z).

Definition web_sendTWCMsg (tSent : Q) (webMsg : list Z) : M unit :=
  match search_hex_run (drop 11 webMsg) with
  | None => ret tt
  | Some digits =>
      raw <- lift (fromhex digits) ;;
      makeLen <- twcMsg_length ;;
      let twcMsg := trim_pad raw makeLen in
      if could_disable twcMsg then emit (ErrorCouldDisable twcMsg)
      else if could_crash twcMsg then emit (ErrorCouldCrash twcMsg)
      else
        modify (set_lastTWCResponseMsg (Some [])) ;;;
        send_msg tSent twcMsg
  end.

(** *** [getLastTWCMsgResponse] *)

Definition web_getLastTWCMsgResponse : M (list ascii) :=
  last <- gets lastTWCResponseMsg ;;
  match last with
  | Some (b :: rest) => ret (hex_str (b :: rest))
  | _ => ret (list_ascii_of_string "None")
  end.

(** *** The dispatch *)

(** The three commands followed here.  The value is the pair
    [(webResponseMsg, numPackets)] with which the reply code is entered.
    [None] stands for the other branches of the [if]/[elif] chain, none
    of which precedes and matches a request that reaches one of these
    three.  The [dumpState] branch reads the global
    [carApiStopAskingToStartCharging], which is assigned nowhere. *)
Definition web_dispatch (tSent : Q) (webMsg : list Z)
    : option (M (list ascii * nat)) :=
  if decide (slice webMsg 0 11 = bytes_of "sendTWCMsg=") then
    Some (web_sendTWCMsg tSent webMsg ;;; ret ([], 0))
  else if decide (webMsg = bytes_of "getLastTWCMsgResponse") then
    Some (webResponseMsg <- web_getLastTWCMsgResponse ;;
          ret (webResponseMsg, 0))
  else if decide (webMsg = bytes_of "dumpState") then
    Some (raise NameError)
  else None.

(** Dispatch, then reply: the outcome, the new state and the messages
    put on the IPC queue. *)
Definition web_request (tSent : Q) (webMsgTime webMsgID : Z)
    (webMsg : list Z) (g : globals)
    : option (result unit * globals * list ipc_msg) :=
  match web_dispatch tSent webMsg with
  | None => None
  | Some m =>
      match m g with
      | (Ok (webResponseMsg, numPackets), g') =>
          let (r, queue) :=
            send_web_response webMsgTime webMsgID numPackets
                              webResponseMsg in
          Some (r, g', queue)
      | (Raise e, g') => Some (Raise e, g', [])
      | (OutOfFuel, g') => Some (OutOfFuel, g', [])
      end
  end.

(** The frames the interface description says are refused. *)
Definition dangerous_prefix (twcMsg : list Z) : Prop :=
  take 2 twcMsg = [0xFC; 0x19]%Z
  \/ take 2 twcMsg = [0xFC; 0x1A]%Z
  \/ take 2 twcMsg = [0xFB; 0xE8]%Z.

(** The reply format of the interface description: a first message
    with the one-byte packet count, then that many messages of at most
    290 bytes which together carry the body. *)
Definition delivered_in_packets (webMsgTime webMsgID : Z) (body : list Z)
    (sent : list ipc_msg) : Prop :=
  exists (n : nat) (chunks : list (list Z)),
    sent = mkIpc webMsgTime webMsgID [Z.of_nat n]
           :: map (mkIpc webMsgTime webMsgID) chunks
    /\ length chunks = n
    /\ Forall (fun c => length c <= 290) chunks
    /\ concat chunks = body.

End Web.

(** ** States the program can be in *)

Module Run.

Import TWC.

(** The modelled steps of the main loop, from the initial values of the
    global variables: a pass of the periodic code, a slave link-ready
    frame, and a request from the web interface. *)
Inductive reachable (cfg : config) : globals -> Prop :=
| reach_initial : reachable cfg initial
| reach_tick (clk : clock) (g : globals) :
    reachable cfg g -> reachable cfg (snd (tick cfg clk g))
| reach_frame (now : Q) (clk : clock) (msg : list Z) (m : M unit)
    (g : globals) :
    reachable cfg g ->
    on_frame_as_master cfg now clk msg = Some m ->
    reachable cfg (snd (m g))
| reach_web (t : Q) (webMsg : list Z) (m : M (list ascii * nat))
    (g : globals) :
    reachable cfg g ->
    Web.web_dispatch t webMsg = Some m ->
    reachable cfg (snd (m g)).

End Run.

(** ** Concrete frames and states used in the examples *)

Module Examples.

Import TWC.

Definition cfg40 : config :=
  {| fakeMaster := 1; wiringMaxAmpsPerTWC := 40 |}.

(** A pass in which every clock reading is [t]. *)
Definition at_time (t : Q) : clock :=
  {| tTxCheck := t; tRxCheck := t; tSent := t |}.

(** A 14-byte slave link-ready from id [i0 i1] with sign [77],
    advertising [m0 m1] centiamperes. *)
Definition linkready_from (i0 i1 m0 m1 : Z) : list Z :=
  let payload := [0xFD; 0xE2; i0; i1; 0x77; m0; m1;
                  0; 0; 0; 0; 0; 0]%Z in
  payload ++ [Codec.sum8_tail payload].

Definition idA : list Z := [0xAB; 0xCD]%Z.
Definition idB : list Z := [0x12; 0x34]%Z.
Definition idC : list Z := [0x56; 0x78]%Z.
Definition idD : list Z := [0x9A; 0xBC]%Z.

(** [FD E2 AB CD 77 1F 40 ...]: 80.00 A. *)
Definition linkready_A80 : list Z := linkready_from 0xAB 0xCD 0x1F 0x40.
(** [FD E2 AB CD 77 0C 80 ...]: 32.00 A. *)
Definition linkready_A32 : list Z := linkready_from 0xAB 0xCD 0x0C 0x80.
Definition linkready_B80 : list Z := linkready_from 0x12 0x34 0x1F 0x40.
Definition linkready_C80 : list Z := linkready_from 0x56 0x78 0x1F 0x40.

Definition after_tick (t : Q) (g : globals) : globals :=
  snd (tick cfg40 (at_time t) g).

Definition after_frame (t : Q) (msg : list Z) (g : globals) : globals :=
  match on_frame_as_master cfg40 t (at_time t) msg with
  | Some m => snd (m g)
  | None => g
  end.

(** The ten start-up transmissions have been made. *)
Definition booted : globals := Nat.iter 10 (after_tick 0) initial.

(** [AB CD] linked at time 1. *)
Definition one_slave : globals := after_frame 1 linkready_A80 booted.

(** [AB CD] and [12 34] linked at time 1; [AB CD] sent another
    link-ready at time 100, [12 34] has been silent since. *)
Definition two_slaves : globals :=
  after_frame 100 linkready_A80
    (after_frame 1 linkready_B80 one_slave).

(** Three sessions, in the order [AB CD], [12 34], [56 78]. *)
Definition three_slaves : globals :=
  after_frame 1 linkready_C80 (after_frame 1 linkready_B80 one_slave).

(** A 98-byte frame of an unknown type was received after a
    [sendTWCMsg] request had reset [lastTWCResponseMsg]; the receive
    path stores such a frame before it looks at its length. *)
Definition long_response : globals :=
  set_lastTWCResponseMsg (Some (replicate 98 0%Z)) one_slave.

Definition getLastTWCMsgResponse : list Z :=
  Web.bytes_of "getLastTWCMsgResponse".

(** The 293 characters ["00 00 ... 00"]. *)
Definition long_body : list ascii := Web.hex_str (replicate 98 0%Z).

Definition long_codes : list Z :=
  map (fun c => Z.of_N (N_of_ascii c)) long_body.

Definition after_web (t : Q) (webMsg : list Z) (g : globals) : globals :=
  match Web.web_dispatch t webMsg with
  | Some m => snd (m g)
  | None => g
  end.

Definition sendTWCMsg_FC19 : list Z := Web.bytes_of "sendTWCMsg=FC19".
Definition sendTWCMsg_FBEB : list Z :=
  Web.bytes_of "sendTWCMsg=FBEB7777ABCD".

End Examples.

(** ** The receive path: collecting a frame, decoding, verifying *)

Module Rx.

Local Open Scope Z_scope.

(** What lies between the delimiters of a well-formed frame: bytes other
    than [0xC0] and [0xDB], and the two escape pairs. *)
Inductive wire_body : list Z -> Prop :=
| body_end : wire_body []
| body_plain (b : Z) (l : list Z) :
    b <> 0xc0 -> b <> 0xdb -> wire_body l -> wire_body (b :: l)
| body_c0 (l : list Z) : wire_body l -> wire_body (0xdb :: 0xdc :: l)
| body_db (l : list Z) : wire_body l -> wire_body (0xdb :: 0xdd :: l).

(** The receive variables of the main loop.  [msg] starts out as
    [bytearray()]; after [msg = data] it is the [bytes] object that
    [ser.read] returned, and [+=] keeps it a [bytes] object.
    [msg_is_bytearray] records which of the two it is. *)
Record rx_state : Type := mkRx {
  msg : list Z;
  msgLen : nat;
  ignoredData : list Z;
  msg_is_bytearray : bool;
  msgRxCount : nat
}.

Definition rx_initial : rx_state :=
  {| msg := []; msgLen := 0; ignoredData := [];
     msg_is_bytearray := true; msgRxCount := 0 |}.

(** One byte [data] has been read from the serial port.  The flag tells
    whether the inner [while] is left with [break]. *)
Definition rx_byte (st : rx_state) (data : Z) : rx_state * bool :=
  if bool_decide (msgLen st = 0%nat) && bool_decide (data <> 0xc0) then
    (* ignoredData += data; continue *)
    (mkRx (msg st) (msgLen st) (ignoredData st ++ [data])
          (msg_is_bytearray st) (msgRxCount st), false)
  else if bool_decide (0 < msgLen st)%nat && bool_decide (msgLen st < 15)%nat
          && bool_decide (data = 0xc0) then
    (* msg = data; msgLen = 1; continue *)
    (mkRx [data] 1 (ignoredData st) false (msgRxCount st), false)
  else
    let '(m, is_ba) :=
      if bool_decide (msgLen st = 0%nat) then ([], true)
      else (msg st, msg_is_bytearray st) in
    let st' := mkRx (m ++ [data]) (msgLen st + 1) (ignoredData st) is_ba
                    (msgRxCount st) in
    (st', bool_decide (16 <= msgLen st')%nat && bool_decide (data = 0xc0)).

(** The inner [while] on the bytes waiting in the serial buffer: it stops
    at the [break] of a complete frame and returns the bytes not yet
    read, or uses up the input ([None]). *)
Fixpoint rx_drain (st : rx_state) (input : list Z)
    : rx_state * option (list Z) :=
  match input with
  | [] => (st, None)
  | data :: input' =>
      let '(st', stop) := rx_byte st data in
      if stop then (st', Some input') else rx_drain st' input'
  end.

(** Two seconds without a byte while a partial message is buffered:
    [msgLen = 0; ignoredData = bytearray()]. *)
Definition rx_timeout (st : rx_state) : rx_state :=
  mkRx (msg st) 0 [] (msg_is_bytearray st) (msgRxCount st).

(** The loop of [unescape_msg] on a [bytes] object: the slice assignment
    raises [TypeError], after [msg[i+1]] has been read. *)
Fixpoint unescape_loop_bytes (fuel i : nat) (msg : list Z)
    : result (list Z) :=
  match fuel with
  | O => OutOfFuel
  | S fuel' =>
      if decide (i < length msg)%nat then
        match msg !! i with
        | None => Raise IndexError
        | Some b =>
            if decide (b = 0xdb) then
              match msg !! (i + 1)%nat with
              | None => Raise IndexError
              | Some _ => Raise TypeError
              end
            else unescape_loop_bytes fuel' (i + 1) msg
        end
      else Ok msg
  end.

(** [unescape_msg(msg, msgLen)] for either kind of object. *)
Definition unescape_msg_obj (is_bytearray : bool) (msg : list Z)
    (msgLen : nat) : result (list Z) :=
  if is_bytearray then Codec.unescape_msg msg msgLen
  else
    let msg := take msgLen msg in
    bind (unescape_loop_bytes (S (length msg)) 0 msg) (fun msg =>
    Ok (slice msg 1 (length msg - 1))).

(** The message types that are never kept as [lastTWCResponseMsg]. *)
Definition repeated_types : list (list Z) :=
  [[0xFB; 0xE0]; [0xFD; 0xE0]; [0xFC; 0xE1]; [0xFB; 0xE2];
   [0xFD; 0xE2]; [0xFB; 0xEB]; [0xFD; 0xEB]; [0xFD; 0xE0]].

(** [if(lastTWCResponseMsg == b'' and msg[0:2] != ... ):
    lastTWCResponseMsg = msg] *)
Definition unusual_type (msg : list Z) : bool :=
  forallb (fun t => bool_decide (slice msg 0 2 <> t)) repeated_types.

Definition store_response (lastTWCResponseMsg : option (list Z))
    (msg : list Z) : option (list Z) :=
  if bool_decide (lastTWCResponseMsg = Some []) && unusual_type msg
  then Some msg
  else lastTWCResponseMsg.

(** What follows the inner [while] when [msgLen >= 16]: the message is
    decoded, counted, possibly kept as [lastTWCResponseMsg], and tested
    for length and checksum.  The value is the new receive state, the new
    [lastTWCResponseMsg], the verdict and the decoded message; only an
    accepted message reaches the dispatch. *)
Definition rx_frame (st : rx_state) (lastTWCResponseMsg : option (list Z))
    : result (rx_state * option (list Z) * Codec.rx_verdict * list Z) :=
  bind (unescape_msg_obj (msg_is_bytearray st) (msg st) (msgLen st))
    (fun m =>
       Ok (mkRx m 0 [] (msg_is_bytearray st) (msgRxCount st + 1),
           store_response lastTWCResponseMsg m,
           Codec.rx_verify m,
           m)).

(** The scan of [unescape_loop_bytes] by recursion on the bytes still to
    be visited. *)
Fixpoint bytes_scan (l : list Z) : result unit :=
  match l with
  | [] => Ok tt
  | b :: l' =>
      if decide (b = 0xdb) then
        match l' with
        | [] => Raise IndexError
        | _ :: _ => Raise TypeError
        end
      else bytes_scan l'
  end.

(** Once a message has been started, [msgLen] is the number of bytes
    in [msg]. *)
Definition rx_ok (st : rx_state) : Prop :=
  msgLen st = 0%nat \/ msgLen st = length (msg st).

End Rx.

(** ** Status reports and the green-energy check *)

Module Telemetry.

Import TWC Allocator.
Local Open Scope Q_scope.

(** The calls [hassstatus.setStatus(twcid, key, value)] and
    [mqttstatus.setStatus(twcid, key, value)], in the order they are
    made; the two status objects live outside the sources. *)
Inductive status_call : Type :=
| HassStatus (twcid : list Z) (key : string) (value : Q)
| MqttStatus (twcid : list Z) (key : string) (value : Q).



(** The loop of [num_cars_charging_now]: the status calls sit inside
    the [if] and report the count reached so far. *)
Fixpoint cars_charging_loop (h : gmap nat TWCSlave) (l : list nat)
    (carsCharging : Z) (calls : list status_call)
    : result (Z * list status_call) :=
  match l with
  | [] => Ok (carsCharging, calls)
  | a :: l' =>
      match h !! a with
      | None => Raise InvalidReference
      | Some slaveTWC =>
          if Qgeb (reportedAmpsActual slaveTWC) 1 then
            let carsCharging := (carsCharging + 1)%Z in
            cars_charging_loop h l' carsCharging
              (calls ++ [HassStatus (TWCID slaveTWC) "cars_charging"
                                    (inject_Z carsCharging);
                         MqttStatus (TWCID slaveTWC) "carsCharging"
                                    (inject_Z carsCharging)])
          else cars_charging_loop h l' carsCharging calls
      end
  end.

Definition num_cars_charging_now (g : globals)
    : result (Z * list status_call) :=
  cars_charging_loop (heap g) (slaveTWCRoundRobin g) 0 [].

(** What [check_green_energy] reads from the configuration and from
    the [fronius] and [hass] objects. *)
Record readings : Type := {
  greenEnergyAmpsOffset : Q;
  minAmpsPerTWC : Q;
  fronius_getConsumption : Q;
  fronius_getGeneration : Q;
  hass_getConsumption : Q;
  hass_getGeneration : Q
}.

(** [check_green_energy]: the new [maxAmpsToDivideAmongSlaves], the
    master object and the status calls. *)
Definition check_green_energy (r : readings) (master : TWCMaster)
    : Q * TWCMaster * list status_call :=
  let master := setConsumption "Manual" (greenEnergyAmpsOffset r * 240)
                               master in
  let master := setConsumption "Fronius" (fronius_getConsumption r) master in
  let master := setGeneration "Fronius" (fronius_getGeneration r) master in
  let master := setConsumption "HomeAssistant" (hass_getConsumption r)
                               master in
  let master := setGeneration "HomeAssistant" (hass_getGeneration r)
                              master in
  let maxAmpsToDivideAmongSlaves := getMaxAmpsToDivideAmongSlaves master in
  (maxAmpsToDivideAmongSlaves, master,
   [HassStatus (Web.bytes_of "config") "min_amps_per_twc" (minAmpsPerTWC r);
    MqttStatus (Web.bytes_of "config") "minAmpsPerTWC" (minAmpsPerTWC r);
    HassStatus (Web.bytes_of "all") "max_amps_for_slaves"
               maxAmpsToDivideAmongSlaves;
    MqttStatus (Web.bytes_of "all") "maxAmpsForSlaves"
               maxAmpsToDivideAmongSlaves]).

(** The sources [check_green_energy] writes, in the order it first
    writes them; it is the only writer of the two dictionaries. *)
Definition sources_ok (master : TWCMaster) : Prop :=
  (consumptionValues master = []
   \/ map fst (consumptionValues master)
      = ["Manual"; "Fronius"; "HomeAssistant"]%string)
  /\ (generationValues master = []
      \/ map fst (generationValues master)
         = ["Fronius"; "HomeAssistant"]%string).

End Telemetry.

(** ** [setMasterHeartbeatData=<hex>] *)

Module Override.

Import TWC Web.
Local Open Scope twc_scope.

(** [re.search] with a group of zero or more hex digits on
    [webMsg[23:]] matches at the first position, where the group is the
    run of hex digits that starts there, empty or not.  The value is
    what is assigned to [overrideMasterHeartbeatData]. *)
Definition web_setMasterHeartbeatData (webMsg : list Z) : M (list Z) :=
  let digits := hex_prefix (drop 23 webMsg) in
  if decide (0 < length digits) then
    raw <- lift (fromhex digits) ;;
    rr <- gets slaveTWCRoundRobin ;;
    match rr !! 0%nat with
    | None => raise IndexError
    | Some first =>
        s <- deref first ;;
        ret (trim_pad raw (if decide (protocolVersion s = 2%Z) then 9 else 7))
    end
  else ret [].

End Override.

(** ** Consecutive passes *)

Module Rounds.

Import TWC.

(** The state after the periodic parts of consecutive passes with the
    given clock readings. *)
Definition passes (cfg : config) (clks : list clock) (g : globals)
    : globals :=
  fold_left (fun g clk => snd (tick cfg clk g)) clks g.

(** Each pass comes a second or more after the previous
    transmission. *)
Fixpoint paced (last : Q) (clks : list clock) : Prop :=
  match clks with
  | [] => True
  | clk :: clks' => (1 <= tTxCheck clk - last)%Q /\ paced (tSent clk) clks'
  end.

(** Every registered session has been heard from within 26 seconds of
    every pass. *)
Definition responsive (g : globals) (clks : list clock) : Prop :=
  forall clk a s,
    clk ∈ clks -> a ∈ slaveTWCRoundRobin g -> heap g !! a = Some s ->
    (tRxCheck clk - timeLastRx s <= 26)%Q.

(** The heartbeat due at the [j]-th pass of a run that starts with the
    cursor at [c]. *)
Definition heartbeat_due (g : globals) (c j : nat) : option event :=
  match slaveTWCRoundRobin g !! ((c + j) mod length (slaveTWCRoundRobin g)) with
  | Some a =>
      match heap g !! a with
      | Some s => Some (SendMasterHeartbeat a (TWCID s))
      | None => None
      end
  | None => None
  end.

End Rounds.

(** ** Background tasks *)

Module Tasks.














End Tasks.

(** * Theorems *)

(** ** Frame codec *)

Section CodecFacts.

Import Codec.
Local Open Scope Z_scope.

Lemma splice_middle {A} (pre suf r : list A) (n : nat) :
  splice (pre ++ suf) (length pre) n r = pre ++ r ++ drop n suf.
Proof.
  unfold splice.
  rewrite take_app_length, drop_app_add. reflexivity.
Qed.

(** The escaping loop, started at the boundary between an already
    escaped prefix and an untouched suffix, finishes within
    [length suf + 1] iterations and escapes the suffix. *)
Lemma escape_loop_app (fuel : nat) (pre suf : list Z) :
  (length suf < fuel)%nat ->
  escape_loop fuel (length pre) (pre ++ suf) = Ok (pre ++ slip_escape suf).
Proof.
  revert pre suf. induction fuel as [|fuel IH]; intros pre suf Hfuel; [lia|].
  destruct suf as [|b suf]; simpl.
  - rewrite decide_False by (rewrite length_app; simpl; lia). reflexivity.
  - rewrite decide_True by (rewrite length_app; simpl; lia).
    rewrite list_lookup_middle by reflexivity.
    simpl in Hfuel.
    destruct (decide (b = 192)) as [->|Hc0].
    + rewrite splice_middle. simpl. unfold drop.
      replace (pre ++ 219 :: 220 :: suf) with ((pre ++ [219; 220]) ++ suf)
        by (rewrite <- app_assoc; reflexivity).
      replace (length pre + 1 + 1)%nat with (length (pre ++ [219; 220]))
        by (rewrite length_app; simpl; lia).
      rewrite IH by lia. rewrite <- app_assoc. reflexivity.
    + destruct (decide (b = 219)) as [->|Hdb].
      * rewrite splice_middle. simpl. unfold drop.
        replace (pre ++ 219 :: 221 :: suf) with ((pre ++ [219; 221]) ++ suf)
          by (rewrite <- app_assoc; reflexivity).
        replace (length pre + 1 + 1)%nat with (length (pre ++ [219; 221]))
          by (rewrite length_app; simpl; lia).
        rewrite IH by lia. rewrite <- app_assoc. reflexivity.
      * replace (pre ++ b :: suf) with ((pre ++ [b]) ++ suf)
          by (rewrite <- app_assoc; reflexivity).
        replace (length pre + 1)%nat with (length (pre ++ [b]))
          by (rewrite length_app; simpl; lia).
        rewrite IH by lia. rewrite <- app_assoc. reflexivity.
Qed.

(** The decoding loop agrees with the left-to-right decoder on the part
    of the buffer it has not yet visited. *)
Lemma unescape_loop_app (fuel : nat) (pre suf : list Z) :
  (length suf < fuel)%nat ->
  unescape_loop fuel (length pre) (pre ++ suf)
  = bind (slip_unescape suf) (fun r => Ok (pre ++ r)).
Proof.
  revert pre suf. induction fuel as [|fuel IH]; intros pre suf Hfuel; [lia|].
  destruct suf as [|b suf]; simpl.
  - rewrite decide_False by (rewrite length_app; simpl; lia). reflexivity.
  - rewrite decide_True by (rewrite length_app; simpl; lia).
    rewrite list_lookup_middle by reflexivity.
    simpl in Hfuel.
    destruct (decide (b = 219)) as [->|Hdb].
    + destruct suf as [|n suf].
      * rewrite lookup_ge_None_2 by (rewrite length_app; simpl; lia).
        reflexivity.
      * replace (pre ++ 219 :: n :: suf) with ((pre ++ [219]) ++ n :: suf)
          by (rewrite <- app_assoc; reflexivity).
        rewrite (list_lookup_middle (pre ++ [219]) suf n)
          by (rewrite length_app; simpl; lia).
        rewrite <- app_assoc. simpl.
        rewrite !splice_middle. simpl drop. simpl in Hfuel.
        assert (Hstep : forall c : Z,
                   unescape_loop fuel (length pre + 1) (pre ++ [c] ++ suf)
                   = bind (slip_unescape suf)
                          (fun r => Ok (pre ++ c :: r))).
        { intros c.
          replace (pre ++ [c] ++ suf) with ((pre ++ [c]) ++ suf)
            by (rewrite <- app_assoc; reflexivity).
          replace (length pre + 1)%nat with (length (pre ++ [c]))
            by (rewrite length_app; simpl; lia).
          rewrite IH by lia.
          destruct (slip_unescape suf); simpl; try reflexivity.
          rewrite <- app_assoc. reflexivity. }
        destruct (decide (n = 220)) as [->|Hdc].
        { rewrite Hstep. destruct (slip_unescape suf); reflexivity. }
        destruct (decide (n = 221)) as [->|Hdd];
          rewrite Hstep; destruct (slip_unescape suf); reflexivity.
    + replace (pre ++ b :: suf) with ((pre ++ [b]) ++ suf)
        by (rewrite <- app_assoc; reflexivity).
      replace (length pre + 1)%nat with (length (pre ++ [b]))
        by (rewrite length_app; simpl; lia).
      rewrite IH by lia.
      destruct (slip_unescape suf); simpl; try reflexivity.
      rewrite <- app_assoc. reflexivity.
Qed.

(** Summing [msg[i]] over [range(a, a + n)] adds up that window. *)
Lemma index_sum_window (msg : list Z) (n a : nat) (acc : Z) :
  (a + n <= length msg)%nat ->
  fold_left (fun checksum i => checksum + nth i msg 0) (seq a n) acc
  = acc + foldr Z.add 0 (take n (drop a msg)).
Proof.
  revert a acc. induction n as [|n IH]; intros a acc Hlen; simpl.
  - lia.
  - rewrite IH by lia.
    destruct (lookup_lt_is_Some_2 msg a ltac:(lia)) as [x Hx].
    rewrite (drop_S _ _ _ Hx). simpl.
    rewrite (nth_lookup_Some _ _ 0 _ Hx). lia.
Qed.

Lemma tx_checksum_tail (msg : list Z) :
  tx_checksum msg = foldr Z.add 0 (tail msg).
Proof.
  unfold tx_checksum. destruct msg as [|b msg]; [reflexivity|].
  rewrite index_sum_window by (simpl; lia).
  simpl. rewrite Nat.sub_0_r, drop_0, firstn_all. lia.
Qed.

Lemma rx_checksum_snoc (f : list Z) (c : Z) :
  rx_checksum (f ++ [c]) = foldr Z.add 0 (tail f).
Proof.
  unfold rx_checksum. rewrite length_app. simpl length.
  rewrite index_sum_window by (rewrite length_app; simpl; lia).
  destruct f as [|b f]; [reflexivity|].
  simpl. rewrite drop_0.
  replace (length f + 1 - 0 - 1)%nat with (length f) by lia.
  rewrite take_app_length. lia.
Qed.

Lemma slip_unescape_escape (m tl : list Z) :
  slip_unescape (slip_escape m ++ tl)
  = bind (slip_unescape tl) (fun r => Ok (m ++ r)).
Proof.
  induction m as [|b m IH]; simpl.
  - destruct (slip_unescape tl); reflexivity.
  - destruct (decide (b = 192)) as [->|Hc0]; simpl.
    + rewrite IH. destruct (slip_unescape tl); reflexivity.
    + destruct (decide (b = 219)) as [->|Hdb]; simpl.
      * rewrite IH. destruct (slip_unescape tl); reflexivity.
      * rewrite decide_False by assumption.
        rewrite IH. destruct (slip_unescape tl); reflexivity.
Qed.

(** [send_msg] never raises: it writes the start delimiter, the escaped
    message with its checksum, and the end delimiter. *)
Lemma send_msg_wire (f : list Z) :
  send_msg f = Ok ([0xc0] ++ slip_escape (f ++ [sum8_tail f]) ++ [0xc0]).
Proof.
  unfold send_msg, sum8_tail. rewrite tx_checksum_tail.
  set (m := f ++ [Z.land (foldr Z.add 0 (tail f)) 255]).
  pose proof (escape_loop_app (S (length m)) [] m ltac:(lia)) as Hloop.
  cbn [length app] in Hloop. cbn [bind]. rewrite Hloop. reflexivity.
Qed.

(** [unescape_msg] never runs out of fuel: it is the left-to-right
    decoder followed by the removal of the first and the last byte. *)
Lemma unescape_msg_decoder (msg : list Z) (msgLen : nat) :
  unescape_msg msg msgLen
  = bind (slip_unescape (take msgLen msg))
         (fun r => Ok (slice r 1 (length r - 1))).
Proof.
  unfold unescape_msg.
  set (m := take msgLen msg).
  pose proof (unescape_loop_app (S (length m)) [] m ltac:(lia)) as Hloop.
  cbn [length app] in Hloop. rewrite Hloop.
  destruct (slip_unescape m); reflexivity.
Qed.

Lemma slip_unescape_plain (b : Z) (l : list Z) :
  b <> 0xdb ->
  slip_unescape (b :: l) = bind (slip_unescape l) (fun r => Ok (b :: r)).
Proof.
  intros Hb. cbn [slip_unescape].
  destruct (decide (b = 219)); [contradiction|reflexivity].
Qed.

Lemma slip_unescape_pair (n : Z) (l : list Z) :
  slip_unescape (0xdb :: n :: l)
  = bind (slip_unescape l)
         (fun r => Ok ((if decide (n = 0xdc) then 0xc0 else 0xdb) :: r)).
Proof.
  cbn [slip_unescape].
  destruct (decide (219 = 219)) as [_|Hne]; [reflexivity|contradiction].
Qed.

(** Decoding an escaped message between its delimiters gives the
    message back. *)
Lemma unescape_msg_framed (m : list Z) :
  let wire := [0xc0] ++ slip_escape m ++ [0xc0] in
  unescape_msg wire (length wire) = Ok m.
Proof.
  cbv zeta. rewrite unescape_msg_decoder, firstn_all.
  change ([192] ++ slip_escape m ++ [192])
    with (192 :: (slip_escape m ++ [192])).
  rewrite slip_unescape_plain by discriminate.
  rewrite slip_unescape_escape.
  rewrite (slip_unescape_plain 192 []) by discriminate.
  cbn [slip_unescape bind]. unfold slice. cbn [drop length].
  replace (S (length (m ++ [192%Z])) - 1 - 1)%nat with (length m)
    by (rewrite length_app; simpl; lia).
  rewrite drop_0, take_app_length. reflexivity.
Qed.

(** The receive-side comparison accepts a message that ends in the 8-bit
    sum of its bytes after the first. *)
Lemma rx_checksum_ok_appended (f : list Z) :
  rx_checksum_ok (f ++ [sum8_tail f]) = true.
Proof.
  unfold rx_checksum_ok.
  replace (length (f ++ [sum8_tail f]) - 1)%nat with (length f)
    by (rewrite length_app; simpl; lia).
  rewrite list_lookup_middle by reflexivity.
  rewrite rx_checksum_snoc. apply bool_decide_eq_true. reflexivity.
Qed.

(** C1. For every payload [f], the bytes [send_msg] puts on the wire are
    the start delimiter, the SLIP-escaped payload followed by the 8-bit
    sum of all payload bytes but the first, and the end delimiter;
    [unescape_msg] applied to these bytes returns the payload followed
    by that checksum byte, and the receive-side checksum comparison
    accepts it. *)
Theorem C1_frame_roundtrip (f : list Z) :
  exists wire : list Z,
    send_msg f = Ok wire
    /\ wire = [0xc0] ++ slip_escape (f ++ [sum8_tail f]) ++ [0xc0]
    /\ unescape_msg wire (length wire) = Ok (f ++ [sum8_tail f])
    /\ rx_checksum_ok (f ++ [sum8_tail f]) = true.
Proof.
  eexists. split; [apply send_msg_wire|]. split; [reflexivity|]. split.
  - apply unescape_msg_framed.
  - apply rx_checksum_ok_appended.
Qed.

(** Frames of 13 or 15 payload bytes, the only ones the master builds,
    also pass the length gate of the receive path. *)
Lemma rx_verify_sent_frame (f : list Z) :
  length f = 13%nat \/ length f = 15%nat ->
  rx_verify (f ++ [sum8_tail f]) = RxAccepted.
Proof.
  intros Hlen. unfold rx_verify.
  rewrite rx_checksum_ok_appended, length_app. simpl length.
  destruct Hlen as [-> | ->]; reflexivity.
Qed.

(** C3. A buffer whose last byte is an unpaired [0xDB] makes
    [unescape_msg] read [msg[i+1]] one past the end: the call raises
    [IndexError] instead of returning. *)
Theorem C3_unescape_trailing_db_raises :
  unescape_msg [0xc0; 0x01; 0xdb] 3 = Raise IndexError.
Proof. reflexivity. Qed.

(** A [0xDB xx] pair with [xx] neither [0xDC] nor [0xDD] leaves a
    single [0xDB] and decoding goes on behind it. *)
Lemma slip_unescape_invalid_pair (x : Z) (l : list Z) :
  x <> 0xdc ->
  slip_unescape (0xdb :: x :: l)
  = bind (slip_unescape l) (fun r => Ok (0xdb :: r)).
Proof.
  intros Hx. rewrite slip_unescape_pair.
  destruct (decide (x = 220)); [contradiction|reflexivity].
Qed.

(** Only a lone [0xDB] in last position stops the decoder: every buffer
    that ends in another byte, as the ones the bus loop collects up to
    the closing [0xC0] do, is decoded. *)
Lemma slip_unescape_returns (l : list Z) :
  last l <> Some 0xdb -> exists r, slip_unescape l = Ok r.
Proof.
  assert (H : forall l : list Z,
             (last l <> Some 219 -> exists r, slip_unescape l = Ok r)
             /\ (forall x, last (x :: l) <> Some 219 ->
                           exists r, slip_unescape (x :: l) = Ok r)).
  { clear l. induction l as [|y l [IH1 IH2]].
    - split; [intros _; exists []; reflexivity|].
      intros x Hx.
      destruct (decide (x = 219)) as [->|Hne]; [contradiction Hx; reflexivity|].
      rewrite slip_unescape_plain by assumption. eexists; reflexivity.
    - split; [apply IH2|].
      intros x Hx. rewrite last_cons_cons in Hx.
      destruct (decide (x = 219)) as [->|Hne].
      + assert (Hl : last l <> Some 219).
        { destruct l as [|z l]; [discriminate|].
          rewrite last_cons_cons in Hx. exact Hx. }
        rewrite slip_unescape_pair.
        destruct (IH1 Hl) as [r ->]. eexists; reflexivity.
      + rewrite slip_unescape_plain by assumption.
        destruct (IH2 y Hx) as [r ->]. eexists; reflexivity. }
  apply H.
Qed.

(** A buffer that decodes and is then followed by one more [0xDB] stops
    the decoder at that byte. *)
Lemma slip_unescape_dangling (l r : list Z) :
  slip_unescape l = Ok r -> slip_unescape (l ++ [0xdb]) = Raise IndexError.
Proof.
  assert (H : forall l : list Z,
             (forall r, slip_unescape l = Ok r ->
                        slip_unescape (l ++ [219]) = Raise IndexError)
             /\ (forall x r, slip_unescape (x :: l) = Ok r ->
                             slip_unescape ((x :: l) ++ [219])
                             = Raise IndexError)).
  { clear l r. induction l as [|y l [IH1 IH2]].
    - split; [intros r _; reflexivity|].
      intros x r Hx. destruct (decide (x = 219)) as [->|Hne].
      + discriminate.
      + simpl app. rewrite slip_unescape_plain by assumption. reflexivity.
    - split; [apply IH2|].
      intros x r Hx. simpl app. destruct (decide (x = 219)) as [->|Hne].
      + rewrite slip_unescape_pair in Hx |- *.
        destruct (slip_unescape l) as [r'| |] eqn:El; try discriminate.
        rewrite (IH1 r' eq_refl). reflexivity.
      + rewrite slip_unescape_plain in Hx |- * by assumption.
        destruct (slip_unescape (y :: l)) as [r'| |] eqn:El; try discriminate.
        change (y :: l ++ [219]) with ((y :: l) ++ [219]).
        rewrite (IH2 y r' El). reflexivity. }
  intros Hl. exact (proj1 (H l) r Hl).
Qed.

Lemma unescape_msg_dangling (l r : list Z) :
  slip_unescape l = Ok r ->
  unescape_msg (l ++ [0xdb]) (length (l ++ [0xdb])) = Raise IndexError.
Proof.
  intros Hl. rewrite unescape_msg_decoder, firstn_all.
  rewrite (slip_unescape_dangling l r Hl). reflexivity.
Qed.

End CodecFacts.

(** ** Slave registry *)

Section RegistryFacts.

Import TWC.
Local Open Scope twc_scope.

Lemma initial_inv : registry_inv initial.
Proof.
  split; [split|]; simpl.
  - constructor.
  - intros i a. rewrite lookup_empty. split; [discriminate|].
    intros [Hin _]. inversion Hin.
  - intros a Hin. inversion Hin.
  - lia.
Qed.

(** Two listed sessions with the same id are the same object. *)
Lemma wf_unique_id (g : globals) (a b : nat) (sa sb : TWCSlave) :
  registry_wf g ->
  a ∈ slaveTWCRoundRobin g -> b ∈ slaveTWCRoundRobin g ->
  heap g !! a = Some sa -> heap g !! b = Some sb ->
  TWCID sa = TWCID sb -> a = b.
Proof.
  intros Hwf Ha Hb Hsa Hsb Hid.
  assert (H1 : slaveTWCs g !! TWCID sa = Some a)
    by (apply (wf_same g Hwf); eauto).
  assert (H2 : slaveTWCs g !! TWCID sa = Some b)
    by (apply (wf_same g Hwf); eauto).
  congruence.
Qed.

Lemma del_first_subset (h : gmap nat TWCSlave) (i : list Z) (l : list nat)
    (x : nat) :
  x ∈ del_first h i l -> x ∈ l.
Proof.
  induction l as [|a l IH]; simpl; [trivial|].
  destruct (h !! a) as [s|].
  - destruct (decide (TWCID s = i)).
    + intros Hx. right. exact Hx.
    + intros Hx. apply elem_of_cons in Hx as [->|Hx]; [left|right; auto].
  - intros Hx. apply elem_of_cons in Hx as [->|Hx]; [left|right; auto].
Qed.

Lemma del_first_NoDup (h : gmap nat TWCSlave) (i : list Z) (l : list nat) :
  NoDup l -> NoDup (del_first h i l).
Proof.
  induction 1 as [|a l Hna Hnd IH]; simpl; [constructor|].
  assert (Hkeep : NoDup (a :: del_first h i l)).
  { constructor; [|exact IH]. intros Hx. apply Hna.
    eapply del_first_subset, Hx. }
  destruct (h !! a) as [s|]; [|exact Hkeep].
  destruct (decide (TWCID s = i)); [exact Hnd|exact Hkeep].
Qed.

(** In a list without repeated objects or repeated ids, [del_first]
    removes exactly the sessions carrying the id. *)
Lemma del_first_elem (h : gmap nat TWCSlave) (i : list Z) (l : list nat)
    (x : nat) :
  NoDup l ->
  (forall a b sa sb, a ∈ l -> b ∈ l -> h !! a = Some sa -> h !! b = Some sb ->
                     TWCID sa = TWCID sb -> a = b) ->
  (forall a, a ∈ l -> is_Some (h !! a)) ->
  x ∈ del_first h i l
  <-> x ∈ l /\ forall s, h !! x = Some s -> TWCID s <> i.
Proof.
  intros Hnd Huniq Hclosed. induction Hnd as [|a l Hna Hnd IH]; simpl.
  - split; [intros Hx; inversion Hx|intros [Hx _]; inversion Hx].
  - assert (IH' : x ∈ del_first h i l
                  <-> x ∈ l /\ forall s, h !! x = Some s -> TWCID s <> i).
    { apply IH.
      - intros a' b' sa sb Ha' Hb'. apply Huniq; right; assumption.
      - intros a' Ha'. apply Hclosed. right; assumption. }
    destruct (Hclosed a ltac:(left)) as [s Hs]. rewrite Hs.
    destruct (decide (TWCID s = i)) as [Hid|Hid].
    + split.
      * intros Hx. split; [right; exact Hx|].
        intros sx Hsx Hidx.
        assert (a = x).
        { eapply (Huniq a x s sx); [left|right; exact Hx|exact Hs|exact Hsx|].
          congruence. }
        subst x. contradiction.
      * intros [Hx Hne]. apply elem_of_cons in Hx as [->|Hx]; [|exact Hx].
        exfalso. exact (Hne s Hs Hid).
    + rewrite elem_of_cons, IH', elem_of_cons. split.
      * intros [->|[Hx Hne]].
        -- split; [left; reflexivity|]. intros s' Hs'. congruence.
        -- split; [right; exact Hx|exact Hne].
      * intros [[->|Hx] Hne]; [left; reflexivity|right; split; assumption].
Qed.

(** [delete_slave] always returns, and keeps the dictionary and the list
    in step. *)
Lemma delete_slave_wf (i : list Z) (g : globals) :
  registry_wf g ->
  exists g', delete_slave i g = (Ok tt, g')
    /\ registry_wf g'
    /\ heap g' = heap g
    /\ trace g' = trace g
    /\ slaveTWCs g' = delete i (slaveTWCs g)
    /\ slaveTWCRoundRobin g' = del_first (heap g) i (slaveTWCRoundRobin g).
Proof.
  intros Hwf. eexists. split; [reflexivity|].
  split; [|repeat split].
  destruct Hwf as [Hnd Hsame Hclosed].
  assert (Helem : forall x,
             x ∈ del_first (heap g) i (slaveTWCRoundRobin g)
             <-> x ∈ slaveTWCRoundRobin g
                 /\ forall s, heap g !! x = Some s -> TWCID s <> i).
  { intros x. apply del_first_elem; [exact Hnd| |exact Hclosed].
    intros a b sa sb Ha Hb Hsa Hsb Hid.
    eapply (wf_unique_id g a b sa sb); eauto. split; assumption. }
  split; simpl.
  - apply del_first_NoDup, Hnd.
  - intros j a. rewrite Helem. split.
    + intros Hj. apply lookup_delete_Some in Hj as [Hne Hj].
      apply Hsame in Hj as [Hin (s & Hs & Hid)].
      split; [split; [exact Hin|]|eauto].
      intros s' Hs'. congruence.
    + intros [[Hin Hne] (s & Hs & Hid)].
      apply lookup_delete_Some. split.
      * intros ->. exact (Hne s Hs Hid).
      * apply Hsame. eauto.
  - intros a Ha. apply Hclosed. eapply del_first_subset, Ha.
Qed.

(** The state right after a new session has been stored in the
    dictionary and appended to the list. *)
Lemma register_wf (i : list Z) (s : TWCSlave) (g : globals) :
  registry_wf g ->
  slaveTWCs g !! i = None ->
  TWCID s = i ->
  let a := fresh (dom (heap g) : gset nat) in
  (a ∉ slaveTWCRoundRobin g)
  /\ registry_wf
       (set_slaveTWCRoundRobin (fun l => l ++ [a])
          (set_slaveTWCs (insert i a) (set_heap (insert a s) g))).
Proof.
  intros [Hnd Hsame Hclosed] Hnew Hid a.
  assert (Hheap : heap g !! a = None).
  { apply not_elem_of_dom. apply is_fresh. }
  assert (Hnotin : a ∉ slaveTWCRoundRobin g).
  { intros Hin. destruct (Hclosed a Hin) as [s' Hs']. congruence. }
  split; [exact Hnotin|]. split; simpl.
  - apply NoDup_app. split; [exact Hnd|]. split.
    + intros x Hx Hxa. apply list_elem_of_singleton in Hxa. congruence.
    + apply NoDup_singleton.
  - intros j x. rewrite elem_of_app, list_elem_of_singleton.
    destruct (decide (j = i)) as [->|Hne].
    + rewrite lookup_insert_eq. split.
      * intros [= <-]. split; [right; reflexivity|].
        exists s. rewrite lookup_insert_eq. auto.
      * intros [Hin (s' & Hs' & Hid')].
        destruct (decide (x = a)) as [->|Hxa]; [reflexivity|].
        exfalso. rewrite lookup_insert_ne in Hs' by congruence.
        destruct Hin as [Hin|Hin]; [|contradiction].
        assert (Some x = None); [|discriminate].
        rewrite <- Hnew. symmetry. apply Hsame. eauto.
    + rewrite lookup_insert_ne by congruence. rewrite Hsame. split.
      * intros [Hin (s' & Hs' & Hid')]. split; [left; exact Hin|].
        exists s'. split; [|exact Hid'].
        rewrite lookup_insert_ne; [exact Hs'|]. intros <-. contradiction.
      * intros [Hin (s' & Hs' & Hid')].
        destruct (decide (x = a)) as [->|Hxa].
        -- rewrite lookup_insert_eq in Hs'. congruence.
        -- rewrite lookup_insert_ne in Hs' by congruence.
           destruct Hin as [Hin|Hin]; [|contradiction]. eauto.
  - intros x Hx. apply elem_of_app in Hx as [Hx|Hx].
    + destruct (decide (x = a)) as [->|Hxa]; [contradiction|].
      rewrite lookup_insert_ne by congruence. apply Hclosed, Hx.
    + apply list_elem_of_singleton in Hx as ->.
      rewrite lookup_insert_eq. eauto.
Qed.

(** What [new_slave] does for an id that is not registered yet. *)
Lemma new_slave_fresh (cfg : config) (now : Q) (i : list Z) (adv : Q)
    (g : globals) :
  registry_inv g ->
  slaveTWCs g !! i = None ->
  let a := fresh (dom (heap g) : gset nat) in
  exists g', new_slave cfg now i adv g = (Ok a, g')
    /\ registry_inv g'
    /\ slaveTWCs g' !! i = Some a
    /\ heap g' = <[a := TWCSlave_init (wiringMaxAmpsPerTWC cfg) now i adv]>
                   (heap g)
    /\ (length (slaveTWCRoundRobin g) < 3 ->
        slaveTWCRoundRobin g' = slaveTWCRoundRobin g ++ [a]
        /\ slaveTWCs g' = <[i := a]> (slaveTWCs g)
        /\ trace g' = trace g)
    /\ (length (slaveTWCRoundRobin g) = 3 ->
        exists oldest rest o,
          slaveTWCRoundRobin g = oldest :: rest
          /\ heap g !! oldest = Some o
          /\ slaveTWCRoundRobin g' = rest ++ [a]
          /\ slaveTWCs g' = delete (TWCID o) (<[i := a]> (slaveTWCs g))
          /\ trace g' = trace g ++ [WarnDroppingOldest (TWCID o)]).
Proof.
  intros [Hwf Hsize] Hnew a.
  set (s := TWCSlave_init (wiringMaxAmpsPerTWC cfg) now i adv).
  destruct (register_wf i s g Hwf Hnew eq_refl) as [Hnotin Hwf1].
  fold a in Hnotin, Hwf1.
  set (g1 := set_slaveTWCRoundRobin (fun l => l ++ [a])
               (set_slaveTWCs (insert i a) (set_heap (insert a s) g)))
    in Hwf1.
  unfold new_slave, mbind, gets, modify, ret. rewrite Hnew. fold a s g1.
  change (slaveTWCRoundRobin g1) with (slaveTWCRoundRobin g ++ [a]).
  destruct (decide (3 < length (slaveTWCRoundRobin g ++ [a]))) as [Hbig|Hsmall];
    rewrite length_app in *; simpl in *.
  - (* the list has grown to four entries *)
    destruct (slaveTWCRoundRobin g) as [|oldest rest] eqn:Hrr;
      [simpl in Hbig; lia|].
    change (((oldest :: rest) ++ [a]) !! 0) with (Some oldest).
    assert (Hin : oldest ∈ slaveTWCRoundRobin g) by (rewrite Hrr; left).
    destruct (wf_closed g Hwf oldest Hin) as [o Ho].
    assert (Hoa : oldest <> a) by (intros ->; apply Hnotin; left).
    assert (Ho1 : heap g1 !! oldest = Some o)
      by (simpl; rewrite lookup_insert_ne by congruence; exact Ho).
    unfold deref. rewrite Ho1. unfold emit, modify.
    set (g2 := set_trace (fun t => t ++ [WarnDroppingOldest (TWCID o)]) g1).
    assert (Hwf2 : registry_wf g2).
    { destruct Hwf1 as [A B C]. split; assumption. }
    destruct (delete_slave_wf (TWCID o) g2 Hwf2)
      as (g3 & Hrun & Hwf3 & Hheap3 & Htrace3 & Hdict3 & Hrr3).
    rewrite Hrun. eexists. split; [reflexivity|].
    assert (Hlist : slaveTWCRoundRobin g3 = rest ++ [a]).
    { rewrite Hrr3. simpl. rewrite Hrr. simpl.
      rewrite lookup_insert_ne by congruence. rewrite Ho.
      rewrite decide_True by reflexivity. reflexivity. }
    assert (Hio : TWCID o <> i).
    { intros <-. assert (Some oldest = None); [|discriminate].
      rewrite <- Hnew. symmetry. apply (wf_same g Hwf). eauto. }
    split; [|split; [|split; [|split]]].
    + split; [exact Hwf3|]. rewrite Hlist, length_app. simpl in *. lia.
    + rewrite Hdict3. simpl. rewrite lookup_delete_ne by exact Hio.
      apply lookup_insert_eq.
    + rewrite Hheap3. reflexivity.
    + intros Hlt. exfalso. simpl in Hlt, Hbig. lia.
    + intros _. exists oldest, rest, o.
      split; [reflexivity|]. split; [exact Ho|]. split; [exact Hlist|].
      split; [rewrite Hdict3; reflexivity|rewrite Htrace3; reflexivity].
  - eexists. split; [reflexivity|].
    split; [|split; [|split; [|split]]].
    + split; [exact Hwf1|]. simpl. rewrite length_app. simpl. lia.
    + simpl. apply lookup_insert_eq.
    + reflexivity.
    + intros _. repeat split.
    + intros Heq. exfalso. lia.
Qed.

Lemma new_slave_known (cfg : config) (now : Q) (i : list Z) (adv : Q)
    (g : globals) (a : nat) :
  slaveTWCs g !! i = Some a -> new_slave cfg now i adv g = (Ok a, g).
Proof.
  intros Hknown. unfold new_slave, mbind, gets, ret.
  rewrite Hknown. reflexivity.
Qed.

(** [new_slave] always returns a registered session and preserves the
    invariant. *)
Lemma new_slave_inv (cfg : config) (now : Q) (i : list Z) (adv : Q)
    (g : globals) :
  registry_inv g ->
  exists a g' s,
    new_slave cfg now i adv g = (Ok a, g')
    /\ registry_inv g'
    /\ slaveTWCs g' !! i = Some a
    /\ heap g' !! a = Some s
    /\ TWCID s = i
    /\ wiringMaxAmps s = session_wiringMaxAmps cfg g i
    /\ length (slaveTWCRoundRobin g) <= length (slaveTWCRoundRobin g').
Proof.
  intros Hinv. unfold session_wiringMaxAmps.
  destruct (slaveTWCs g !! i) as [a|] eqn:Hlook.
  - destruct (proj1 (wf_same g (proj1 Hinv) i a) Hlook) as [_ (s & Hs & Hid)].
    exists a, g, s. rewrite Hs.
    split; [apply new_slave_known, Hlook|]. split; [exact Hinv|].
    split; [exact Hlook|]. split; [reflexivity|].
    split; [exact Hid|]. split; [reflexivity|lia].
  - destruct (new_slave_fresh cfg now i adv g Hinv Hlook)
      as (g' & Hrun & Hinv' & Hreg & Hheap & Hroom & Hfull).
    eexists _, g', _. split; [exact Hrun|]. split; [exact Hinv'|].
    split; [exact Hreg|]. rewrite Hheap, lookup_insert_eq.
    split; [reflexivity|]. split; [reflexivity|]. split; [reflexivity|].
    destruct Hinv as [_ Hsize].
    destruct (decide (length (slaveTWCRoundRobin g) < 3)) as [Hlt|Hge].
    + destruct (Hroom Hlt) as (-> & _). rewrite length_app. lia.
    + destruct (Hfull ltac:(lia)) as (oldest & rest & o & -> & _ & -> & _).
      rewrite length_app. simpl. lia.
Qed.

(** C10. When the id is already a key of [slaveTWCs], [new_slave]
    returns the session stored under it and changes nothing: the
    dictionary, the round-robin list and every field of every session,
    the recorded [maxAmps] included, are as before, whatever [maxAmps]
    the caller passes. *)
Theorem C10_new_slave_existing (cfg : config) (now : Q) (i : list Z)
    (adv : Q) (g : globals) (a : nat) :
  slaveTWCs g !! i = Some a ->
  new_slave cfg now i adv g = (Ok a, g).
Proof.
  apply new_slave_known.
Qed.

(** C6. From a registry that satisfies the invariant, [new_slave]
    returns a session registered under the id and leaves at most three
    sessions, with the dictionary and the round-robin list naming the
    same sessions.  When three other sessions were registered, the head
    of the list is dropped from both with the "Dropping oldest" warning
    and the new session goes to the end of the list. *)
Theorem C6_new_slave_keeps_three (cfg : config) (now : Q) (i : list Z)
    (adv : Q) (g : globals) :
  registry_inv g ->
  exists a g',
    new_slave cfg now i adv g = (Ok a, g')
    /\ registry_inv g'
    /\ slaveTWCs g' !! i = Some a
    /\ (slaveTWCs g !! i = None ->
        length (slaveTWCRoundRobin g) = 3 ->
        exists oldest rest o,
          slaveTWCRoundRobin g = oldest :: rest
          /\ heap g !! oldest = Some o
          /\ slaveTWCRoundRobin g' = rest ++ [a]
          /\ slaveTWCs g' !! TWCID o = None
          /\ trace g' = trace g ++ [WarnDroppingOldest (TWCID o)]).
Proof.
  intros Hinv. destruct (slaveTWCs g !! i) as [a|] eqn:Hlook.
  - exists a, g. split; [apply new_slave_known, Hlook|].
    split; [exact Hinv|]. split; [exact Hlook|]. discriminate.
  - destruct (new_slave_fresh cfg now i adv g Hinv Hlook)
      as (g' & Hrun & Hinv' & Hreg & _ & _ & Hfull).
    eexists _, g'. split; [exact Hrun|]. split; [exact Hinv'|].
    split; [exact Hreg|]. intros _ Hlen.
    destruct (Hfull Hlen) as (oldest & rest & o & H1 & H2 & H3 & H4 & H5).
    exists oldest, rest, o. repeat (split; [assumption|]).
    split; [|exact H5]. rewrite H4. apply lookup_delete_eq.
Qed.

End RegistryFacts.

(** ** Steps of the state-and-exception monad *)

Section StepFacts.

Import TWC.

Lemma keeps_bind {A B C} (f : globals -> C) (m : M A) (k : A -> M B) :
  keeps f m -> (forall x, keeps f (k x)) -> keeps f (mbind m k).
Proof.
  intros Hm Hk g. unfold mbind. specialize (Hm g).
  destruct (m g) as [[x| |] g1]; simpl in *; try exact Hm.
  rewrite Hk. exact Hm.
Qed.

Lemma keeps_modify {C} (f : globals -> C) (h : globals -> globals) :
  (forall g, f (h g) = f g) -> keeps f (modify h).
Proof. intros Hf g. apply Hf. Qed.

Lemma keeps_pure {A C} (f : globals -> C) (r : globals -> result A) :
  keeps f (fun g => (r g, g)).
Proof. intros g. reflexivity. Qed.

Lemma keeps_deref {C} (f : globals -> C) (a : nat) : keeps f (deref a).
Proof. intros g. unfold deref. destruct (heap g !! a); reflexivity. Qed.

End StepFacts.

Ltac keeps_step :=
  first
    [ apply keeps_bind; [|intros ?]
    | apply keeps_deref
    | apply keeps_modify; intros ?; reflexivity
    | apply (keeps_pure _ (fun _ => Ok _))
    | apply (keeps_pure _ (fun _ => Raise _))
    | apply (keeps_pure _ (fun g => Ok (_ g)))
    | progress (unfold TWC.update, TWC.emit, TWC.gets, TWC.ret, TWC.raise,
                TWC.lift, TWC.delete_slave, TWC.send_master_heartbeat,
                TWC.link_session, TWC.send_msg)
    | case_match ].

(** ** Bus loop: eviction of silent slaves and the link-ready handler *)

Section BusLoopFacts.

Import TWC.
Local Open Scope twc_scope.

Lemma Qgeb_true (x y : Q) : Qgeb x y = true <-> (y <= x)%Q.
Proof. unfold Qgeb. apply Qle_bool_iff. Qed.

Lemma Qgtb_true (x y : Q) : Qgtb x y = true <-> (y < x)%Q.
Proof.
  unfold Qgtb. rewrite negb_true_iff. split.
  - intros H. apply Qnot_le_lt. intros Hle.
    apply Qle_bool_iff in Hle. congruence.
  - intros H. destruct (Qle_bool x y) eqn:E; [|reflexivity].
    apply Qle_bool_iff in E. exfalso. exact (Qlt_not_le _ _ H E).
Qed.

Lemma Qgeb_false (x y : Q) : Qgeb x y = false <-> (x < y)%Q.
Proof.
  split.
  - intros H. apply Qnot_le_lt. intros Hle.
    apply Qgeb_true in Hle. congruence.
  - intros H. destruct (Qgeb x y) eqn:E; [|reflexivity].
    apply Qgeb_true in E. exfalso. exact (Qlt_not_le _ _ H E).
Qed.

Lemma mbind_ok {A B} (m : M A) (k : A -> M B) (g g' : globals) (x : A) :
  m g = (Ok x, g') -> mbind m k g = k x g'.
Proof. intros H. unfold mbind. rewrite H. reflexivity. Qed.

Lemma deref_ok (a : nat) (s : TWCSlave) (g : globals) :
  heap g !! a = Some s -> deref a g = (Ok s, g).
Proof. intros H. unfold deref. rewrite H. reflexivity. Qed.

Lemma update_ok (a : nat) (f : TWCSlave -> TWCSlave) (s : TWCSlave)
    (g : globals) :
  heap g !! a = Some s ->
  update a f g = (Ok tt, set_heap (insert a (f s)) g).
Proof.
  intros H. unfold update. rewrite (mbind_ok _ _ g g s (deref_ok a s g H)).
  reflexivity.
Qed.

Lemma mbind_assoc {A B C} (m : M A) (k1 : A -> M B) (k2 : B -> M C)
    (g : globals) :
  mbind (mbind m k1) k2 g = mbind m (fun x => mbind (k1 x) k2) g.
Proof. unfold mbind. destruct (m g) as [[x| |] g1]; reflexivity. Qed.

Local Ltac drf H :=
  match goal with
  | |- context [mbind (deref ?a) ?k ?g] =>
      match type of H with
      | heap g !! a = Some ?s =>
          rewrite (mbind_ok (deref a) k g g s (deref_ok a s g H))
      end
  end.

Local Ltac upd H Hnew :=
  match goal with
  | |- context [mbind (update ?a ?f) ?k ?g] =>
      match type of H with
      | heap g !! a = Some ?s =>
          rewrite (mbind_ok (update a f) k g _ tt (update_ok a f s g H));
          assert (Hnew : heap (set_heap (insert a (f s)) g) !! a
                         = Some (f s)) by apply lookup_insert_eq
      end
  end.

(** The invariant only looks at the heap, the dictionary and the list. *)
Lemma registry_wf_ext (g g' : globals) :
  heap g' = heap g -> slaveTWCs g' = slaveTWCs g ->
  slaveTWCRoundRobin g' = slaveTWCRoundRobin g ->
  registry_wf g -> registry_wf g'.
Proof.
  intros Hh Hd Hl [A B C]. split; rewrite ?Hh, ?Hd, ?Hl; assumption.
Qed.

Lemma new_events_app (g g' : globals) (evs : list event) :
  trace g' = trace g ++ evs -> new_events g g' = evs.
Proof. intros H. unfold new_events. rewrite H. apply drop_app_length. Qed.

(** A pass of the periodic code sends a heartbeat only to a session
    that is in the round-robin list when the pass starts. *)
Lemma tick_heartbeat_target (cfg : config) (clk : clock) (g g' : globals)
    (r : result unit) (x : nat) (i : list Z) :
  tick cfg clk g = (r, g') ->
  SendMasterHeartbeat x i ∈ new_events g g' ->
  x ∈ slaveTWCRoundRobin g
  /\ exists s, heap g !! x = Some s /\ TWCID s = i.
Proof.
  unfold tick, heartbeat_or_evict, send_master_linkready1,
    send_master_linkready2, send_slave_linkready, send_master_heartbeat,
    send_msg, delete_slave, deref, emit, lift, mbind, gets, modify, ret,
    raise.
  intros Hrun Hin.
  assert (Hnone : forall evs,
             trace g' = trace g ++ evs ->
             (forall y j, SendMasterHeartbeat y j ∈ evs ->
                          y ∈ slaveTWCRoundRobin g
                          /\ exists s, heap g !! y = Some s /\ TWCID s = j) ->
             x ∈ slaveTWCRoundRobin g
             /\ exists s, heap g !! x = Some s /\ TWCID s = i).
  { intros evs Htr Hall. apply Hall.
    rewrite (new_events_app g g' evs Htr) in Hin. exact Hin. }
  repeat case_match; simplify_eq; simpl in *;
    try (apply (Hnone []); [simpl; rewrite app_nil_r; reflexivity
                           |intros y j Hy; inversion Hy]);
    try (eapply Hnone; [simpl; reflexivity|];
         intros y j Hy; apply list_elem_of_singleton in Hy;
         first [discriminate Hy
               |injection Hy as -> ->; split;
                [eapply list_elem_of_lookup_2; eassumption|eauto]]).
Qed.

(** No pass sends a heartbeat to an id that is not registered. *)
Lemma no_heartbeat_to_unregistered (cfg : config) (clk : clock)
    (g g' : globals) (r : result unit) (x : nat) (i : list Z) :
  registry_wf g ->
  slaveTWCs g !! i = None ->
  tick cfg clk g = (r, g') ->
  SendMasterHeartbeat x i ∉ new_events g g'.
Proof.
  intros Hwf Hnone Hrun Hin.
  destruct (tick_heartbeat_target cfg clk g g' r x i Hrun Hin)
    as [Hx (sx & Hsx & Hid)].
  assert (Hreg : slaveTWCs g !! i = Some x) by (apply (wf_same g Hwf); eauto).
  congruence.
Qed.

(** C4 (amended). In master mode, once the start-up burst is over and a
    second has passed since the last transmission, a session at the
    round-robin cursor whose last frame is more than 26 seconds old is
    removed from the dictionary and from the list by that pass; the pass
    prints the warning and transmits nothing, and the next pass sends no
    heartbeat to that id. *)
Theorem C4_silent_slave_at_cursor_evicted (cfg : config) (clk : clock)
    (g : globals) (a : nat) (s : TWCSlave) :
  registry_wf g ->
  fakeMaster cfg = 1%Z ->
  (numInitMsgsToSend g <= 0)%Z ->
  (1 <= tTxCheck clk - timeLastTx g)%Q ->
  slaveTWCRoundRobin g !! idxSlaveToSendNextHeartbeat g = Some a ->
  heap g !! a = Some s ->
  (26 < tRxCheck clk - timeLastRx s)%Q ->
  exists g',
    tick cfg clk g = (Ok tt, g')
    /\ registry_wf g'
    /\ (a ∉ slaveTWCRoundRobin g')
    /\ slaveTWCs g' !! TWCID s = None
    /\ new_events g g' = [WarnSilentSlave (TWCID s)]
    /\ (forall clk2 r g2 x,
          tick cfg clk2 g' = (r, g2) ->
          SendMasterHeartbeat x (TWCID s) ∉ new_events g' g2).
Proof.
  intros Hwf Hmaster Hinit Htx Hcur Hs Hsilent.
  set (g1 := set_trace (fun t => t ++ [WarnSilentSlave (TWCID s)]) g).
  assert (Hwf1 : registry_wf g1) by (eapply registry_wf_ext, Hwf; reflexivity).
  destruct (delete_slave_wf (TWCID s) g1 Hwf1)
    as (g2 & Hdel & Hwf2 & Hheap2 & Htrace2 & Hdict2 & Hrr2).
  set (g3 := set_idx (idxSlaveToSendNextHeartbeat g2 + 1) g2).
  set (g4 := if decide (length (slaveTWCRoundRobin g3)
                        <= idxSlaveToSendNextHeartbeat g3)
             then set_idx 0 g3 else g3).
  assert (Hfields : heap g4 = heap g2 /\ slaveTWCs g4 = slaveTWCs g2
                    /\ slaveTWCRoundRobin g4 = slaveTWCRoundRobin g2
                    /\ trace g4 = trace g2).
  { unfold g4. destruct (decide _); repeat split. }
  destruct Hfields as (Hh4 & Hd4 & Hl4 & Ht4).
  assert (Hwf4 : registry_wf g4) by (eapply registry_wf_ext, Hwf2; assumption).
  exists g4. split; [|split; [exact Hwf4|split; [|split; [|split]]]].
  - unfold tick. rewrite decide_True by exact Hmaster.
    unfold mbind at 1, gets at 1.
    rewrite decide_False by lia. rewrite decide_False by lia.
    unfold mbind at 1, gets at 1.
    apply Qgeb_true in Htx. rewrite Htx.
    unfold heartbeat_or_evict. unfold mbind at 1, gets at 1.
    rewrite decide_True by (apply lookup_lt_Some in Hcur; lia).
    unfold mbind at 1, gets at 1. rewrite Hcur.
    rewrite (mbind_ok _ _ g g s (deref_ok a s g Hs)).
    apply Qgtb_true in Hsilent. rewrite Hsilent.
    unfold mbind at 1.
    unfold mbind at 1, emit at 1, modify at 1. fold g1. rewrite Hdel.
    unfold mbind at 1, modify at 1. fold g3.
    unfold mbind, gets, modify, ret. unfold g4.
    destruct (decide _); reflexivity.
  - rewrite Hl4, Hrr2. intros Hin.
    apply del_first_elem in Hin as [_ Hne].
    + exact (Hne s Hs eq_refl).
    + apply Hwf.
    + intros x y sx sy. apply (wf_unique_id g x y sx sy Hwf).
    + apply Hwf.
  - rewrite Hd4, Hdict2. apply lookup_delete_eq.
  - apply new_events_app. rewrite Ht4, Htrace2. reflexivity.
  - intros clk2 r g5 x Hrun.
    apply (no_heartbeat_to_unregistered cfg clk2 g4 g5 r x (TWCID s) Hwf4);
      [|exact Hrun].
    rewrite Hd4, Hdict2. apply lookup_delete_eq.
Qed.

Lemma keeps_spike_new_slave (cfg : config) (now : Q) (i : list Z) (adv : Q) :
  keeps spikeAmpsToCancel6ALimit (new_slave cfg now i adv).
Proof. unfold new_slave. repeat keeps_step. Qed.

Lemma keeps_idx_new_slave (cfg : config) (now : Q) (i : list Z) (adv : Q) :
  keeps idxSlaveToSendNextHeartbeat (new_slave cfg now i adv).
Proof. unfold new_slave. repeat keeps_step. Qed.

Lemma keeps_idx_slave_linkready (cfg : config) (now : Q) (clk : clock)
    (msg senderID sign grp3 : list Z) :
  keeps idxSlaveToSendNextHeartbeat
        (slave_linkready cfg now clk msg senderID sign grp3).
Proof.
  unfold slave_linkready.
  repeat first [apply keeps_idx_new_slave | keeps_step].
Qed.

Lemma keeps_spike_after_set (cfg : config) (now : Q) (clk : clock)
    (msg senderID sign grp3 : list Z) (g : globals) :
  spikeAmpsToCancel6ALimit
    (snd (slave_linkready cfg now clk msg senderID sign grp3 g))
  = (if Qgeb (advertised_maxAmps grp3) 80 then 21 else 16)%Z.
Proof.
  unfold slave_linkready.
  set (v := (if Qgeb (advertised_maxAmps grp3) 80 then 21 else 16)%Z).
  unfold mbind at 1, modify at 1.
  set (k := mbind _ _).
  assert (Hk : keeps spikeAmpsToCancel6ALimit k).
  { unfold k. repeat first [apply keeps_spike_new_slave | keeps_step]. }
  rewrite Hk. reflexivity.
Qed.

(** C7. Whatever else happens to a slave link-ready frame, after it has
    been handled [spikeAmpsToCancel6ALimit] is 21 when the advertised
    [maxAmps] is at least 80 and 16 when it is below 80. *)
Theorem C7_spike_follows_advertised (cfg : config) (now : Q) (clk : clock)
    (msg senderID sign grp3 : list Z) (g : globals) :
  match_slave_linkready msg = Some (senderID, sign, grp3) ->
  exists m,
    on_frame_as_master cfg now clk msg = Some m
    /\ ((80 <= advertised_maxAmps grp3)%Q ->
        spikeAmpsToCancel6ALimit (snd (m g)) = 21%Z)
    /\ ((advertised_maxAmps grp3 < 80)%Q ->
        spikeAmpsToCancel6ALimit (snd (m g)) = 16%Z).
Proof.
  intros Hmatch. unfold on_frame_as_master. rewrite Hmatch.
  eexists. split; [reflexivity|].
  rewrite keeps_spike_after_set. split; intros Ha.
  - apply Qgeb_true in Ha. rewrite Ha. reflexivity.
  - apply Qgeb_false in Ha. rewrite Ha. reflexivity.
Qed.

(** The handler's work on a session: it returns, and the session ends
    with a quarter of the advertised [maxAmps] as [wiringMaxAmps] when
    the previous value exceeded the advertisement, with the previous
    value otherwise. *)
Lemma link_session_wiring (now : Q) (clk : clock) (msg : list Z) (adv : Q)
    (a : nat) (s : TWCSlave) (g : globals) :
  heap g !! a = Some s ->
  exists g' s',
    link_session now clk msg adv a g = (Ok tt, g')
    /\ heap g' = <[a := s']> (heap g)
    /\ slaveTWCs g' = slaveTWCs g
    /\ slaveTWCRoundRobin g' = slaveTWCRoundRobin g
    /\ TWCID s' = TWCID s
    /\ maxAmps s' = maxAmps s
    /\ timeLastRx s' = now
    /\ wiringMaxAmps s'
       = (if Qgtb (wiringMaxAmps s) adv then adv / 4 else wiringMaxAmps s)%Q.
Proof.
  intros Hs. unfold link_session.
  drf Hs.
  (* protocol version *)
  assert (Hproto : exists s2,
             wiringMaxAmps s2 = wiringMaxAmps s /\ TWCID s2 = TWCID s
             /\ maxAmps s2 = maxAmps s
             /\ forall k : unit -> M unit,
                 mbind
                   (if decide (protocolVersion s = 1%Z
                               /\ minAmpsTWCSupports s = 6%Z)
                    then
                      if decide (length msg = 14%nat)
                      then update a (set_protocol 1 5)
                      else if decide (length msg = 16%nat)
                           then update a (set_protocol 2 6)
                           else ret tt
                    else ret tt) k g
                 = k tt (set_heap (insert a s2) g)).
  { assert (Hid : set_heap (insert a s) g = g).
    { destruct g; unfold set_heap; simpl in *.
      rewrite (insert_id _ _ _ Hs). reflexivity. }
    repeat case_match.
    - exists (set_protocol 1 5 s). repeat split. intros k. upd Hs Hs2.
      reflexivity.
    - exists (set_protocol 2 6 s). repeat split. intros k. upd Hs Hs2.
      reflexivity.
    - exists s. repeat split. intros k. rewrite Hid. reflexivity.
    - exists s. repeat split. intros k. rewrite Hid. reflexivity. }
  destruct Hproto as (s2 & Hw2 & Hid2 & Hm2 & Hrun2). rewrite Hrun2.
  set (g2 := set_heap (insert a s2) g).
  assert (Hs2 : heap g2 !! a = Some s2) by apply lookup_insert_eq.
  drf Hs2. rewrite Hw2.
  destruct (Qgtb (wiringMaxAmps s) adv).
  - rewrite mbind_assoc.
    rewrite (mbind_ok (emit (WarnDanger adv)) _ g2 _ tt eq_refl).
    set (g3 := set_trace _ g2).
    assert (Hs3 : heap g3 !! a = Some s2) by exact Hs2.
    upd Hs3 Hs4. upd Hs4 Hs5. upd Hs5 Hs6.
    unfold send_master_heartbeat. drf Hs6.
    eexists _, _. split; [reflexivity|]. simpl.
    split; [rewrite !insert_insert_eq; reflexivity|].
    repeat split; simpl; assumption.
  - rewrite (mbind_ok (ret tt) _ g2 g2 tt eq_refl).
    upd Hs2 Hs4. upd Hs4 Hs5.
    unfold send_master_heartbeat. drf Hs5.
    eexists _, _. split; [reflexivity|]. simpl.
    split; [rewrite !insert_insert_eq; reflexivity|].
    repeat split; simpl; assumption.
Qed.

(** Replacing a listed session by one with the same id keeps the
    dictionary and the list in step. *)
Lemma registry_wf_update (g g' : globals) (a : nat) (s s' : TWCSlave) :
  registry_wf g ->
  heap g !! a = Some s -> TWCID s' = TWCID s ->
  heap g' = <[a := s']> (heap g) ->
  slaveTWCs g' = slaveTWCs g ->
  slaveTWCRoundRobin g' = slaveTWCRoundRobin g ->
  registry_wf g'.
Proof.
  intros [Hnd Hsame Hclosed] Hs Hid Hh Hd Hl.
  split; rewrite ?Hh, ?Hd, ?Hl.
  - exact Hnd.
  - intros i x. rewrite Hsame.
    destruct (decide (x = a)) as [->|Hne].
    + rewrite lookup_insert_eq, Hs. split.
      * intros [Hin (s0 & [= <-] & Hi)]. split; [exact Hin|].
        exists s'. split; [reflexivity|congruence].
      * intros [Hin (s0 & [= <-] & Hi)]. split; [exact Hin|].
        exists s. split; [reflexivity|congruence].
    + rewrite lookup_insert_ne by congruence. reflexivity.
  - intros x Hx. destruct (decide (x = a)) as [->|Hne].
    + rewrite lookup_insert_eq. eauto.
    + rewrite lookup_insert_ne by congruence. apply Hclosed, Hx.
Qed.

(** The link-ready handler on a frame from another id: it returns, the
    sender is registered, the invariant is kept, and the session's
    [wiringMaxAmps] is a quarter of the advertisement when it exceeded
    the advertisement and unchanged otherwise. *)
Lemma slave_linkready_run (cfg : config) (now : Q) (clk : clock)
    (msg senderID sign grp3 : list Z) (g : globals) :
  registry_inv g ->
  senderID <> fakeTWCID g ->
  exists g' a s',
    slave_linkready cfg now clk msg senderID sign grp3 g = (Ok tt, g')
    /\ registry_inv g'
    /\ slaveTWCs g' !! senderID = Some a
    /\ heap g' !! a = Some s'
    /\ wiringMaxAmps s'
       = (if Qgtb (session_wiringMaxAmps cfg g senderID)
                  (advertised_maxAmps grp3)
          then advertised_maxAmps grp3 / 4
          else session_wiringMaxAmps cfg g senderID)%Q
    /\ length (slaveTWCRoundRobin g) <= length (slaveTWCRoundRobin g').
Proof.
  intros Hinv Hother. unfold slave_linkready.
  set (adv := advertised_maxAmps grp3).
  rewrite (mbind_ok (modify (set_spike _)) _ g _ tt eq_refl).
  set (g0 := set_spike (if Qgeb adv 80 then 21 else 16)%Z g).
  rewrite (mbind_ok (gets fakeTWCID) _ g0 g0 (fakeTWCID g) eq_refl).
  rewrite decide_False by exact Hother.
  assert (Hinv0 : registry_inv g0).
  { split; [eapply registry_wf_ext, Hinv; reflexivity|apply Hinv]. }
  destruct (new_slave_inv cfg now senderID adv g0 Hinv0)
    as (a & g1 & s1 & Hrun1 & [Hwf1 Hsize1] & Hreg1 & Hs1 & Hid1 & Hw1 & Hgrow).
  rewrite (mbind_ok _ _ g0 g1 a Hrun1).
  destruct (link_session_wiring now clk msg adv a s1 g1 Hs1)
    as (g2 & s2 & Hrun2 & Hh2 & Hd2 & Hl2 & Hid2 & _ & _ & Hw2).
  exists g2, a, s2. split; [exact Hrun2|]. split; [split|].
  - eapply (registry_wf_update g1 g2 a s1 s2); eassumption.
  - rewrite Hl2. exact Hsize1.
  - split; [rewrite Hd2; exact Hreg1|].
    split; [rewrite Hh2; apply lookup_insert_eq|].
    split; [rewrite Hw2, Hw1; reflexivity|].
    rewrite Hl2. exact Hgrow.
Qed.

(** C2 (amended). A slave link-ready from an id other than our own,
    whose session has a [wiringMaxAmps] above the advertised [maxAmps],
    leaves that session with [wiringMaxAmps] equal to one quarter of the
    advertised [maxAmps]. *)
Theorem C2_wiring_set_to_quarter (cfg : config) (now : Q) (clk : clock)
    (msg senderID sign grp3 : list Z) (g : globals) :
  registry_inv g ->
  match_slave_linkready msg = Some (senderID, sign, grp3) ->
  senderID <> fakeTWCID g ->
  (advertised_maxAmps grp3 < session_wiringMaxAmps cfg g senderID)%Q ->
  exists m g' a s',
    on_frame_as_master cfg now clk msg = Some m
    /\ m g = (Ok tt, g')
    /\ slaveTWCs g' !! senderID = Some a
    /\ heap g' !! a = Some s'
    /\ wiringMaxAmps s' = (advertised_maxAmps grp3 / 4)%Q.
Proof.
  intros Hinv Hmatch Hother Habove.
  unfold on_frame_as_master. rewrite Hmatch.
  destruct (slave_linkready_run cfg now clk msg senderID sign grp3 g
              Hinv Hother)
    as (g' & a & s' & Hrun & _ & Hreg & Hs' & Hw & _).
  apply Qgtb_true in Habove. rewrite Habove in Hw.
  eexists _, g', a, s'. split; [reflexivity|]. auto.
Qed.

Lemma del_first_length (h : gmap nat TWCSlave) (i : list Z) (l : list nat) :
  length (del_first h i l) <= length l.
Proof.
  induction l as [|a l IH]; simpl; [lia|].
  destruct (h !! a) as [s|]; [destruct (decide (TWCID s = i))|]; simpl; lia.
Qed.

(** The handler keeps the invariant on every frame, also when it
    stops on a frame that carries our own id. *)
Lemma slave_linkready_inv (cfg : config) (now : Q) (clk : clock)
    (msg senderID sign grp3 : list Z) (g : globals) :
  registry_inv g ->
  registry_inv (snd (slave_linkready cfg now clk msg senderID sign grp3 g)).
Proof.
  intros Hinv. destruct (decide (senderID = fakeTWCID g)) as [Hown|Hother].
  - unfold slave_linkready.
    rewrite (mbind_ok (modify (set_spike _)) _ g _ tt eq_refl).
    unfold mbind, gets. simpl. rewrite decide_True by exact Hown. simpl.
    split; [eapply registry_wf_ext, Hinv; reflexivity|apply Hinv].
  - destruct (slave_linkready_run cfg now clk msg senderID sign grp3 g
                Hinv Hother) as (g' & a & s' & Hrun & Hinv' & _).
    rewrite Hrun. exact Hinv'.
Qed.

(** What a pass of the periodic code can do to the registry: nothing,
    or one [delete_slave]. *)
Lemma tick_registry (cfg : config) (clk : clock) (g : globals) :
  let g' := snd (tick cfg clk g) in
  heap g' = heap g
  /\ ((slaveTWCs g' = slaveTWCs g
       /\ slaveTWCRoundRobin g' = slaveTWCRoundRobin g)
      \/ exists i, slaveTWCs g' = delete i (slaveTWCs g)
                   /\ slaveTWCRoundRobin g'
                      = del_first (heap g) i (slaveTWCRoundRobin g)).
Proof.
  unfold tick, heartbeat_or_evict, send_master_linkready1,
    send_master_linkready2, send_slave_linkready, send_master_heartbeat,
    send_msg, delete_slave, deref, emit, lift, mbind, gets, modify, ret,
    raise.
  repeat case_match; simplify_eq; simpl; eauto.
Qed.

Lemma tick_inv (cfg : config) (clk : clock) (g : globals) :
  registry_inv g -> registry_inv (snd (tick cfg clk g)).
Proof.
  intros [Hwf Hsize].
  destruct (tick_registry cfg clk g) as [Hh [[Hd Hl]|(i & Hd & Hl)]].
  - split; [eapply registry_wf_ext, Hwf; assumption|].
    rewrite Hl. exact Hsize.
  - destruct (delete_slave_wf i g Hwf)
      as (g2 & _ & Hwf2 & Hh2 & _ & Hd2 & Hl2).
    split.
    + eapply registry_wf_ext, Hwf2; congruence.
    + rewrite Hl. pose proof (del_first_length (heap g) i (slaveTWCRoundRobin g)).
      lia.
Qed.

End BusLoopFacts.

(** ** Allocator *)

Section AllocatorFacts.

Import Allocator.
Local Open Scope Q_scope.

Lemma add_up_from (d : list (string * Q)) (acc : Q) :
  fold_left (fun val item => val + snd item) d acc == acc + sum_of d.
Proof.
  revert acc. induction d as [|[k v] d IH]; intros acc; simpl.
  - unfold sum_of. simpl. ring.
  - rewrite IH. unfold sum_of. simpl. ring.
Qed.

Lemma add_up_sum (d : list (string * Q)) : add_up d == sum_of d.
Proof. unfold add_up. rewrite add_up_from. ring. Qed.

(** [if x < 0: x = 0] is [max(0, x)]. *)
Lemma clamp_is_max (x : Q) : (if Qltb x 0 then 0 else x) == Qmax 0 x.
Proof.
  unfold Qltb. destruct (Qle_bool 0 x) eqn:E; simpl.
  - apply Qle_bool_iff in E. symmetry. apply Q.max_r, E.
  - symmetry. apply Q.max_l. apply Qlt_le_weak, Qnot_le_lt.
    intros H. apply Qle_bool_iff in H. congruence.
Qed.

(** C5. For all source values, flag and [totalAmpsInUse],
    [getMaxAmpsToDivideAmongSlaves] returns
    [max(0, max(0, sum of generation) - max(0, max(0, sum of
    consumption) - (totalAmpsInUse * 240 if subtractChargerLoad
    else 0))) / 240]. *)
Theorem C5_green_budget (m : TWCMaster) :
  getMaxAmpsToDivideAmongSlaves m == green_budget m.
Proof.
  unfold getMaxAmpsToDivideAmongSlaves, green_budget, getGenerationOffset,
    getGeneration, getConsumption, getChargerLoad, getTotalAmpsInUse.
  cbv zeta. destruct (subtractChargerLoad m);
    rewrite !clamp_is_max, !add_up_sum.
  - reflexivity.
  - apply Qdiv_comp; [|reflexivity].
    apply Q.max_compat; [reflexivity|].
    apply Qplus_comp; [reflexivity|]. apply Qopp_comp.
    apply Q.max_compat; [reflexivity|]. ring.
Qed.

(** The budget of 15360 W of generation against no consumption is
    64 A. *)
Example budget_64A :
  getMaxAmpsToDivideAmongSlaves
    (setGeneration "Fronius" 15360
       (setConsumption "Manual" 0
          {| consumptionValues := []; generationValues := [];
             subtractChargerLoad := false; totalAmpsInUse := 0 |}))
  == 64.
Proof. vm_compute. reflexivity. Qed.

End AllocatorFacts.

(** ** Web interface *)

Section WebFacts.

Import TWC Web.
Local Open Scope twc_scope.

Lemma encode_ascii_Ok (s : list ascii) (codes : list Z) :
  encode_ascii s = Ok codes ->
  forallb (fun c => (N_of_ascii c <? 128)%N) s = true
  /\ codes = map (fun c => Z.of_N (N_of_ascii c)) s.
Proof.
  unfold encode_ascii. destruct (forallb _ s); [|discriminate].
  intros [= <-]. split; reflexivity.
Qed.

Lemma forallb_take {A} (f : A -> bool) (n : nat) (l : list A) :
  forallb f l = true -> forallb f (take n l) = true.
Proof.
  revert n. induction l as [|x l IH]; intros [|n]; simpl; try reflexivity.
  intros H. apply andb_true_iff in H as [Hx Hl].
  rewrite Hx. simpl. apply IH, Hl.
Qed.

Lemma forallb_drop {A} (f : A -> bool) (n : nat) (l : list A) :
  forallb f l = true -> forallb f (drop n l) = true.
Proof.
  revert n. induction l as [|x l IH]; intros [|n]; simpl; try reflexivity.
  - trivial.
  - intros H. apply andb_true_iff in H as [Hx Hl]. apply IH, Hl.
Qed.

(** Encoding a slice of an ASCII string gives the slice of its
    encoding. *)
Lemma encode_ascii_slice (s : list ascii) (codes : list Z) (a b : nat) :
  encode_ascii s = Ok codes ->
  encode_ascii (slice s a b) = Ok (slice codes a b).
Proof.
  intros H. apply encode_ascii_Ok in H as [Hall ->].
  unfold encode_ascii, slice.
  rewrite (forallb_take _ _ _ (forallb_drop _ a _ Hall)).
  rewrite <- firstn_map, <- skipn_map. reflexivity.
Qed.

Lemma encode_ascii_length (s : list ascii) (codes : list Z) :
  encode_ascii s = Ok codes -> length codes = length s.
Proof.
  intros H. apply encode_ascii_Ok in H as [_ ->]. apply length_map.
Qed.

(** The continuation loop sends one message per index and never
    raises on an ASCII body. *)
Lemma send_packets_ascii (t i : Z) (body : list ascii) (codes : list Z)
    (indices : list nat) (queue : list ipc_msg) :
  encode_ascii body = Ok codes ->
  send_packets t i body indices queue
  = (Ok tt,
     queue ++ map (fun k => mkIpc t i (slice codes (k * 290) (k * 290 + 290)))
                  indices).
Proof.
  intros Henc. revert queue.
  induction indices as [|k indices IH]; intros queue; simpl.
  - rewrite app_nil_r. reflexivity.
  - rewrite (encode_ascii_slice body codes _ _ Henc).
    rewrite IH, <- app_assoc. reflexivity.
Qed.

(** Consecutive 290-byte windows add up to a prefix. *)
Lemma windows_concat {A} (l : list A) (n : nat) :
  concat (map (fun k => slice l (k * 290) (k * 290 + 290)) (seq 0 n))
  = take (n * 290) l.
Proof.
  induction n as [|n IH].
  - reflexivity.
  - rewrite seq_S, map_app, concat_app, IH. simpl.
    rewrite app_nil_r. unfold slice.
    replace (n * 290 + 290 - n * 290) with 290 by lia.
    rewrite take_take_drop. f_equal. lia.
Qed.

Lemma packets_cover (len : nat) : len <= (len + 289) / 290 * 290.
Proof.
  pose proof (Nat.div_mod_eq (len + 289) 290) as Hdm.
  pose proof (Nat.mod_upper_bound (len + 289) 290 ltac:(lia)) as Hlt.
  lia.
Qed.

(** C8 (amended). For a non-empty ASCII body: with the packet count left
    at 0, as every command but [dumpState] leaves it, the reply is one
    message carrying the first 290 bytes of the body; with the packet
    count [ceil(len / 290)] that the [dumpState] branch computes, and
    that count at most 255, the reply is a message with the one-byte
    count followed by that many messages of at most 290 bytes which
    together carry the whole body. *)
Theorem C8_reply_packets (t i : Z) (body : list ascii) (codes : list Z) :
  encode_ascii body = Ok codes ->
  0 < length body ->
  send_web_response t i 0 body = (Ok tt, [mkIpc t i (take 290 codes)])
  /\ (dumpState_numPackets body <= 255 ->
      fst (send_web_response t i (dumpState_numPackets body) body) = Ok tt
      /\ delivered_in_packets t i codes
           (snd (send_web_response t i (dumpState_numPackets body) body))).
Proof.
  intros Henc Hlen. pose proof (encode_ascii_length _ _ Henc) as Hcodes.
  split.
  - unfold send_web_response.
    rewrite decide_True by exact Hlen. rewrite decide_True by reflexivity.
    destruct (decide (290 < length body)) as [Hlong|Hshort].
    + rewrite (encode_ascii_slice body codes 0 290 Henc).
      unfold slice. rewrite drop_0. reflexivity.
    + rewrite Henc. rewrite (take_ge codes) by lia. reflexivity.
  - intros Hcount. unfold send_web_response.
    rewrite decide_True by exact Hlen.
    assert (Hpos : dumpState_numPackets body <> 0).
    { unfold dumpState_numPackets.
      pose proof (packets_cover (length body)). lia. }
    rewrite decide_False by exact Hpos.
    rewrite decide_False by lia.
    rewrite (send_packets_ascii _ _ _ codes _ _ Henc). simpl.
    split; [reflexivity|].
    exists (dumpState_numPackets body),
      (map (fun k => slice codes (k * 290) (k * 290 + 290))
           (seq 0 (dumpState_numPackets body))).
    split; [rewrite map_map; reflexivity|].
    split; [rewrite length_map, length_seq; reflexivity|]. split.
    + apply Forall_forall. intros c Hc.
      apply list_elem_of_In, in_map_iff in Hc as (k & <- & _).
      unfold slice. rewrite length_take. lia.
    + rewrite windows_concat. apply take_ge.
      unfold dumpState_numPackets. rewrite Hcodes. apply packets_cover.
Qed.

(** A reply of one message is not in the packet format. *)
Lemma single_message_not_packets (t i : Z) (body : list Z) (m : ipc_msg) :
  body <> [] -> ~ delivered_in_packets t i body [m].
Proof.
  intros Hbody (n & chunks & Hsent & _ & _ & Hcat).
  injection Hsent as _ Hmap. destruct chunks; [|discriminate].
  apply Hbody. symmetry. exact Hcat.
Qed.

Lemma twcMsg_length_run (g : globals) :
  registry_wf g ->
  exists makeLen, twcMsg_length g = (Ok makeLen, g)
                  /\ (makeLen = 15 \/ makeLen = 13).
Proof.
  intros Hwf. unfold twcMsg_length, mbind, gets, ret.
  destruct (slaveTWCRoundRobin g) as [|first rest] eqn:Hrr.
  - eexists. split; [reflexivity|]. left; reflexivity.
  - destruct (wf_closed g Hwf first) as [s Hs]; [rewrite Hrr; left|].
    unfold deref. rewrite Hs.
    eexists. split; [reflexivity|].
    destruct (decide (protocolVersion s = 2%Z)); [left|right]; reflexivity.
Qed.

Lemma dangerous_prefix_tests (twcMsg : list Z) :
  dangerous_prefix twcMsg
  <-> could_disable twcMsg = true
      \/ (could_disable twcMsg = false /\ could_crash twcMsg = true).
Proof.
  unfold dangerous_prefix, could_disable, could_crash, slice.
  rewrite drop_0. change (2 - 0) with 2.
  destruct (bool_decide (take 2 twcMsg = [252; 25]%Z)) eqn:E1;
    destruct (bool_decide (take 2 twcMsg = [252; 26]%Z)) eqn:E2;
    destruct (bool_decide (take 2 twcMsg = [251; 232]%Z)) eqn:E3;
    simpl;
    repeat match goal with
      | H : bool_decide _ = true |- _ => apply bool_decide_eq_true in H
      | H : bool_decide _ = false |- _ => apply bool_decide_eq_false in H
      end;
    intuition congruence.
Qed.

(** C9. A [sendTWCMsg=<hex>] request with an even number of hex digits
    yields the frame [twcMsg] (the decoded digits trimmed or padded to 13
    or 15 bytes).  When [twcMsg] begins with [FC 19], [FC 1A] or [FB E8]
    the request is refused with an error message and nothing is
    transmitted; otherwise [send_msg] transmits exactly [twcMsg],
    framed. *)
Theorem C9_sendTWCMsg_gate (tSent : Q) (webMsg digits raw : list Z)
    (g : globals) :
  registry_wf g ->
  slice webMsg 0 11 = bytes_of "sendTWCMsg=" ->
  search_hex_run (drop 11 webMsg) = Some digits ->
  fromhex digits = Ok raw ->
  exists m makeLen g',
    web_dispatch tSent webMsg = Some m
    /\ twcMsg_length g = (Ok makeLen, g)
    /\ m g = (Ok ([], 0), g')
    /\ (dangerous_prefix (trim_pad raw makeLen) ->
        filter is_tx (new_events g g') = []
        /\ (new_events g g' = [ErrorCouldDisable (trim_pad raw makeLen)]
            \/ new_events g g' = [ErrorCouldCrash (trim_pad raw makeLen)]))
    /\ (~ dangerous_prefix (trim_pad raw makeLen) ->
        exists wire,
          Codec.send_msg (trim_pad raw makeLen) = Ok wire
          /\ new_events g g' = [SerWrite wire]).
Proof.
  intros Hwf Hcmd Hrun Hhex.
  destruct (twcMsg_length_run g Hwf) as (makeLen & Hlen & _).
  unfold web_dispatch. rewrite decide_True by exact Hcmd.
  set (twcMsg := trim_pad raw makeLen).
  pose proof (dangerous_prefix_tests twcMsg) as Hdanger.
  pose proof (send_msg_wire twcMsg) as Hwire.
  assert (Hrun' : web_sendTWCMsg tSent webMsg g
                  = (if could_disable twcMsg
                     then emit (ErrorCouldDisable twcMsg)
                     else if could_crash twcMsg
                          then emit (ErrorCouldCrash twcMsg)
                          else mbind (modify (set_lastTWCResponseMsg (Some [])))
                                     (fun _ => send_msg tSent twcMsg)) g).
  { unfold web_sendTWCMsg. rewrite Hrun.
    unfold mbind at 1, lift at 1. rewrite Hhex.
    unfold mbind at 1. rewrite Hlen. reflexivity. }
  exists (mbind (web_sendTWCMsg tSent webMsg) (fun _ => ret ([], 0))), makeLen.
  destruct (could_disable twcMsg) eqn:E1;
    [|destruct (could_crash twcMsg) eqn:E2].
  - eexists. split; [reflexivity|]. split; [exact Hlen|].
    split; [unfold mbind at 1; rewrite Hrun'; reflexivity|]. split.
    + intros _. rewrite (new_events_app g _ [ErrorCouldDisable twcMsg])
        by reflexivity.
      split; [reflexivity|left; reflexivity].
    + intros Hsafe. exfalso. apply Hsafe, Hdanger. left; reflexivity.
  - eexists. split; [reflexivity|]. split; [exact Hlen|].
    split; [unfold mbind at 1; rewrite Hrun'; reflexivity|]. split.
    + intros _. rewrite (new_events_app g _ [ErrorCouldCrash twcMsg])
        by reflexivity.
      split; [reflexivity|right; reflexivity].
    + intros Hsafe. exfalso. apply Hsafe, Hdanger. right; split; reflexivity.
  - unfold send_msg, mbind, modify, emit, lift, ret in Hrun'.
    rewrite Hwire in Hrun'.
    eexists. split; [reflexivity|]. split; [exact Hlen|].
    split; [unfold mbind at 1; rewrite Hrun'; reflexivity|]. split.
    + intros Hbad. apply Hdanger in Hbad as [Hbad|[_ Hbad]]; congruence.
    + intros _. eexists. split; [exact Hwire|].
      apply new_events_app. reflexivity.
Qed.

(** An odd number of hex digits stops the handler in
    [bytearray.fromhex]; nothing is transmitted. *)
Lemma sendTWCMsg_odd_digits (tSent : Q) (webMsg digits : list Z)
    (g : globals) :
  search_hex_run (drop 11 webMsg) = Some digits ->
  fromhex digits = Raise ValueError ->
  web_sendTWCMsg tSent webMsg g = (Raise ValueError, g).
Proof.
  intros Hrun Hhex. unfold web_sendTWCMsg. rewrite Hrun.
  unfold mbind, lift. rewrite Hhex. reflexivity.
Qed.

End WebFacts.

(** ** Every state the program reaches *)

Section RunFacts.

Import TWC Web Run.
Local Open Scope twc_scope.

Lemma slave_linkready_cursor (cfg : config) (now : Q) (clk : clock)
    (msg senderID sign grp3 : list Z) (g : globals) :
  registry_inv g -> cursor_ok g ->
  cursor_ok (snd (slave_linkready cfg now clk msg senderID sign grp3 g)).
Proof.
  intros Hinv Hcur. unfold cursor_ok.
  rewrite (keeps_idx_slave_linkready cfg now clk msg senderID sign grp3 g).
  destruct (decide (senderID = fakeTWCID g)) as [Hown|Hother].
  - unfold slave_linkready.
    rewrite (mbind_ok (modify (set_spike _)) _ g _ tt eq_refl).
    unfold mbind, gets. simpl. rewrite decide_True by exact Hown. exact Hcur.
  - destruct (slave_linkready_run cfg now clk msg senderID sign grp3 g
                Hinv Hother) as (g' & a & s' & Hrun & _ & _ & _ & _ & Hgrow).
    rewrite Hrun. simpl. destruct Hcur as [Hlt|Hz]; [left; lia|right; exact Hz].
Qed.

Lemma tick_cursor (cfg : config) (clk : clock) (g : globals) :
  cursor_ok g -> cursor_ok (snd (tick cfg clk g)).
Proof.
  unfold cursor_ok, tick, heartbeat_or_evict, send_master_linkready1,
    send_master_linkready2, send_slave_linkready, send_master_heartbeat,
    TWC.send_msg, delete_slave, deref, emit, lift, mbind, gets, modify, ret,
    raise.
  intros Hcur.
  repeat case_match; simplify_eq; simpl in *; first [exact Hcur | lia].
Qed.

(** A web request leaves the registry and the cursor alone. *)
Lemma web_dispatch_keeps {C} (f : globals -> C) (t : Q) (webMsg : list Z)
    (m : M (list ascii * nat)) :
  (forall h g, f (set_trace h g) = f g) ->
  (forall x g, f (set_timeLastTx x g) = f g) ->
  (forall x g, f (set_lastTWCResponseMsg x g) = f g) ->
  web_dispatch t webMsg = Some m -> keeps f m.
Proof.
  intros Htrace Htx Hlast.
  unfold web_dispatch, web_sendTWCMsg, web_getLastTWCMsgResponse,
    twcMsg_length.
  intros Hm. repeat case_match; simplify_eq;
    repeat first
      [ apply keeps_modify; intros ?;
        first [apply Htrace | apply Htx | apply Hlast]
      | apply (keeps_pure f (fun _ => lift _ _).1)
      | keeps_step ].
Qed.

Lemma web_dispatch_registry (t : Q) (webMsg : list Z)
    (m : M (list ascii * nat)) (g : globals) :
  web_dispatch t webMsg = Some m ->
  heap (snd (m g)) = heap g
  /\ slaveTWCs (snd (m g)) = slaveTWCs g
  /\ slaveTWCRoundRobin (snd (m g)) = slaveTWCRoundRobin g
  /\ idxSlaveToSendNextHeartbeat (snd (m g)) = idxSlaveToSendNextHeartbeat g.
Proof.
  intros Hm.
  repeat split; apply (web_dispatch_keeps _ t webMsg m); auto.
Qed.

(** The registry invariant and the cursor bound hold in every reachable
    state. *)
Lemma reachable_inv (cfg : config) (g : globals) :
  reachable cfg g -> registry_inv g /\ cursor_ok g.
Proof.
  induction 1 as [|clk g _ [Hinv Hcur]|now clk msg m g _ [Hinv Hcur] Hm
                  |t webMsg m g _ [Hinv Hcur] Hm].
  - split; [apply initial_inv|right; reflexivity].
  - split; [apply tick_inv, Hinv|apply tick_cursor, Hcur].
  - unfold on_frame_as_master in Hm.
    destruct (match_slave_linkready msg) as [[[i sg] grp]|]; [|discriminate].
    injection Hm as <-.
    split; [apply slave_linkready_inv, Hinv
           |apply slave_linkready_cursor; assumption].
  - destruct (web_dispatch_registry t webMsg m g Hm) as (Hh & Hd & Hl & Hi).
    destruct Hinv as [Hwf Hsize]. split; [split|].
    + eapply registry_wf_ext, Hwf; assumption.
    + rewrite Hl. exact Hsize.
    + unfold cursor_ok. rewrite Hi, Hl. exact Hcur.
Qed.

(** In master mode the periodic code always runs to completion: the
    cursor names a listed session and every reference holds an object. *)
Lemma tick_master_returns (cfg : config) (clk : clock) (g : globals) :
  reachable cfg g -> fakeMaster cfg = 1%Z ->
  fst (tick cfg clk g) = Ok tt.
Proof.
  intros Hreach Hmaster.
  destruct (reachable_inv cfg g Hreach) as [[Hwf Hsize] Hcur].
  unfold tick. rewrite decide_True by exact Hmaster.
  unfold send_master_linkready1, send_master_linkready2, TWC.send_msg.
  unfold mbind at 1, gets at 1.
  destruct (decide (5 < numInitMsgsToSend g)%Z);
    [|destruct (decide (0 < numInitMsgsToSend g)%Z)].
  - unfold mbind, gets, lift, emit, modify. rewrite send_msg_wire. reflexivity.
  - unfold mbind, gets, lift, emit, modify. rewrite send_msg_wire. reflexivity.
  - unfold mbind at 1, gets at 1.
    destruct (Qgeb (tTxCheck clk - timeLastTx g) 1); [|reflexivity].
    unfold heartbeat_or_evict. unfold mbind at 1, gets at 1.
    destruct (decide (0 < length (slaveTWCRoundRobin g))) as [Hne|];
      [|reflexivity].
    unfold mbind at 1, gets at 1.
    destruct Hcur as [Hlt|Hz]; [|rewrite Hz in *].
    + destruct (lookup_lt_is_Some_2 _ _ Hlt) as [a Ha]. rewrite Ha.
      destruct (wf_closed g Hwf a (list_elem_of_lookup_2 _ _ _ Ha)) as [s Hs].
      unfold send_master_heartbeat, delete_slave, deref, emit, mbind, gets,
        modify, ret.
      rewrite Hs. repeat case_match; simplify_eq; try reflexivity;
        simpl in *; congruence.
    + destruct (lookup_lt_is_Some_2 _ _ Hne) as [a Ha]. rewrite Ha.
      destruct (wf_closed g Hwf a (list_elem_of_lookup_2 _ _ _ Ha)) as [s Hs].
      unfold send_master_heartbeat, delete_slave, deref, emit, mbind, gets,
        modify, ret.
      rewrite Hs. repeat case_match; simplify_eq; try reflexivity;
        simpl in *; congruence.
Qed.

End RunFacts.

(** ** The theorems at concrete frames and states *)

Section ExampleFacts.

Import TWC Examples.

(** Conjunctions of closed facts, each settled by evaluation. *)
Local Ltac evaluate :=
  repeat match goal with |- _ /\ _ => split end;
  vm_compute; first [reflexivity | discriminate].

Lemma after_tick_inv (t : Q) (g : globals) :
  registry_inv g -> registry_inv (after_tick t g).
Proof. apply tick_inv. Qed.

Lemma after_frame_inv (t : Q) (msg : list Z) (g : globals) :
  registry_inv g -> registry_inv (after_frame t msg g).
Proof.
  intros Hinv. unfold after_frame, on_frame_as_master.
  destruct (match_slave_linkready msg) as [[[i sg] grp]|]; [|exact Hinv].
  apply slave_linkready_inv, Hinv.
Qed.

Lemma after_frame_reachable (t : Q) (msg : list Z) (g : globals) :
  Run.reachable cfg40 g -> Run.reachable cfg40 (after_frame t msg g).
Proof.
  intros Hg. unfold after_frame.
  destruct (on_frame_as_master cfg40 t (at_time t) msg) as [m|] eqn:Hm;
    [|exact Hg].
  eapply Run.reach_frame; eassumption.
Qed.

Lemma booted_reachable : Run.reachable cfg40 booted.
Proof.
  unfold booted. generalize 10%nat. intros n.
  induction n as [|n IH]; simpl; [constructor|].
  apply Run.reach_tick, IH.
Qed.

Lemma two_slaves_reachable : Run.reachable cfg40 two_slaves.
Proof.
  unfold two_slaves, one_slave.
  do 3 apply after_frame_reachable. apply booted_reachable.
Qed.

Lemma three_slaves_reachable : Run.reachable cfg40 three_slaves.
Proof.
  unfold three_slaves, one_slave.
  do 3 apply after_frame_reachable. apply booted_reachable.
Qed.

Lemma booted_inv : registry_inv booted.
Proof.
  unfold booted. generalize 10%nat. intros n.
  induction n as [|n IH]; simpl; [apply initial_inv|].
  apply after_tick_inv, IH.
Qed.

Lemma one_slave_inv : registry_inv one_slave.
Proof. unfold one_slave. apply after_frame_inv, booted_inv. Qed.

Lemma two_slaves_inv : registry_inv two_slaves.
Proof.
  unfold two_slaves. do 2 apply after_frame_inv. apply one_slave_inv.
Qed.

Lemma three_slaves_inv : registry_inv three_slaves.
Proof.
  unfold three_slaves. do 2 apply after_frame_inv. apply one_slave_inv.
Qed.

(** The link-up scenario: after the frame [FD E2 AB CD 77 1F 40 ...] the
    registry holds one version-1 session for [AB CD] with 80 A. *)
Example link_up_scenario :
  exists s,
    slaveTWCRoundRobin one_slave = [0]
    /\ slaveTWCs one_slave !! idA = Some 0
    /\ heap one_slave !! 0 = Some s
    /\ TWCID s = idA /\ protocolVersion s = 1%Z
    /\ minAmpsTWCSupports s = 5%Z /\ (maxAmps s == 80)%Q.
Proof. eexists. evaluate. Qed.

Lemma C2_witness :
  exists m g' a s',
    on_frame_as_master cfg40 1 (at_time 1) linkready_A32 = Some m
    /\ m booted = (Ok tt, g')
    /\ slaveTWCs g' !! idA = Some a
    /\ heap g' !! a = Some s'
    /\ wiringMaxAmps s' = (advertised_maxAmps [0x0C; 0x80]%Z / 4)%Q.
Proof.
  apply (C2_wiring_set_to_quarter cfg40 1 (at_time 1) linkready_A32
           idA [0x77%Z] [0x0C; 0x80]%Z booted).
  - apply booted_inv.
  - reflexivity.
  - vm_compute. discriminate.
  - vm_compute. reflexivity.
Defined.

(** C2 as stated fails: a 32 A charger behind a 40 A wiring setting
    ends with [wiringMaxAmps] 8, not 32. *)
Lemma C2_cap_differs_from_advertised :
  exists s',
    match_slave_linkready linkready_A32 = Some (idA, [0x77], [0x0C; 0x80])%Z
    /\ idA <> fakeTWCID booted
    /\ (advertised_maxAmps [0x0C; 0x80]%Z
        < session_wiringMaxAmps cfg40 booted idA)%Q
    /\ slaveTWCs (after_frame 1 linkready_A32 booted) !! idA = Some 0
    /\ heap (after_frame 1 linkready_A32 booted) !! 0 = Some s'
    /\ (wiringMaxAmps s' == 8)%Q
    /\ ~ (wiringMaxAmps s' == advertised_maxAmps [0x0C; 0x80]%Z)%Q.
Proof. eexists. evaluate. Qed.

Lemma C4_witness :
  exists g',
    tick cfg40 (at_time 28) one_slave = (Ok tt, g')
    /\ registry_wf g'
    /\ (0 ∉ slaveTWCRoundRobin g')
    /\ slaveTWCs g' !! idA = None
    /\ new_events one_slave g' = [WarnSilentSlave idA]
    /\ (forall clk2 r g2 x,
          tick cfg40 clk2 g' = (r, g2) ->
          SendMasterHeartbeat x idA ∉ new_events g' g2).
Proof.
  refine (C4_silent_slave_at_cursor_evicted cfg40 (at_time 28) one_slave 0
            (mkTWCSlave idA (8000 # 100) 1 5 40 1 0 0 0 [])
            _ _ _ _ _ _ _).
  - apply one_slave_inv.
  - reflexivity.
  - vm_compute. discriminate.
  - vm_compute. discriminate.
  - vm_compute. reflexivity.
  - vm_compute. reflexivity.
  - vm_compute. reflexivity.
Defined.

(** C4 as stated fails: [12 34] has been silent for 100 seconds, but
    the cursor is on [AB CD], which gets its heartbeat; [12 34] is still
    registered after the pass. *)
Lemma C4_silent_slave_off_cursor_stays :
  exists sB g',
    heap two_slaves !! 1 = Some sB
    /\ TWCID sB = idB
    /\ slaveTWCs two_slaves !! idB = Some 1
    /\ slaveTWCRoundRobin two_slaves = [0; 1]
    /\ (26 < 101 - timeLastRx sB)%Q
    /\ tick cfg40 (at_time 101) two_slaves = (Ok tt, g')
    /\ slaveTWCs g' !! idB = Some 1
    /\ slaveTWCRoundRobin g' = [0; 1]
    /\ new_events two_slaves g' = [SendMasterHeartbeat 0 idA].
Proof. eexists _, _. evaluate. Qed.

Lemma C6_witness :
  exists a g',
    new_slave cfg40 2 idD 80 three_slaves = (Ok a, g')
    /\ registry_inv g'
    /\ slaveTWCs g' !! idD = Some a
    /\ (slaveTWCs three_slaves !! idD = None ->
        length (slaveTWCRoundRobin three_slaves) = 3 ->
        exists oldest rest o,
          slaveTWCRoundRobin three_slaves = oldest :: rest
          /\ heap three_slaves !! oldest = Some o
          /\ slaveTWCRoundRobin g' = rest ++ [a]
          /\ slaveTWCs g' !! TWCID o = None
          /\ trace g' = trace three_slaves ++ [WarnDroppingOldest (TWCID o)]).
Proof.
  apply (C6_new_slave_keeps_three cfg40 2 idD 80 three_slaves).
  apply three_slaves_inv.
Defined.

(** With three sessions registered, a fourth id pushes out [AB CD]. *)
Example fourth_slave_drops_oldest :
  exists g',
    new_slave cfg40 2 idD 80 three_slaves = (Ok 3, g')
    /\ slaveTWCRoundRobin three_slaves = [0; 1; 2]
    /\ slaveTWCRoundRobin g' = [1; 2; 3]
    /\ ids_in_order g' = [idB; idC; idD]
    /\ slaveTWCs g' !! idA = None
    /\ new_events three_slaves g' = [WarnDroppingOldest idA].
Proof. eexists. evaluate. Qed.

Lemma C7_witness :
  exists m,
    on_frame_as_master cfg40 1 (at_time 1) linkready_A32 = Some m
    /\ ((80 <= advertised_maxAmps [0x0C; 0x80]%Z)%Q ->
        spikeAmpsToCancel6ALimit (snd (m one_slave)) = 21%Z)
    /\ ((advertised_maxAmps [0x0C; 0x80]%Z < 80)%Q ->
        spikeAmpsToCancel6ALimit (snd (m one_slave)) = 16%Z).
Proof.
  apply (C7_spike_follows_advertised cfg40 1 (at_time 1) linkready_A32
           idA [0x77%Z] [0x0C; 0x80]%Z one_slave).
  reflexivity.
Defined.

Lemma C10_witness :
  new_slave cfg40 50 idA 32 one_slave = (Ok 0, one_slave).
Proof.
  apply (C10_new_slave_existing cfg40 50 idA 32 one_slave 0).
  vm_compute. reflexivity.
Defined.

Lemma C8_witness :
  Web.send_web_response 1 2 0 long_body
  = (Ok tt, [Web.mkIpc 1 2 (take 290 long_codes)])
  /\ (Web.dumpState_numPackets long_body <= 255 ->
      fst (Web.send_web_response 1 2 (Web.dumpState_numPackets long_body)
                                 long_body) = Ok tt
      /\ Web.delivered_in_packets 1 2 long_codes
           (snd (Web.send_web_response 1 2
                   (Web.dumpState_numPackets long_body) long_body))).
Proof.
  apply (C8_reply_packets 1 2 long_body long_codes).
  - vm_compute. reflexivity.
  - apply Nat.ltb_lt. vm_compute. reflexivity.
Defined.

(** C8 as stated fails: the 293-byte answer to [getLastTWCMsgResponse]
    goes out as one message with its first 290 bytes, not as a packet
    count followed by continuation messages. *)
Lemma C8_long_reply_truncated :
  Web.encode_ascii long_body = Ok long_codes
  /\ length long_codes = 293
  /\ Web.web_request 0 1 2 getLastTWCMsgResponse long_response
     = Some (Ok tt, long_response, [Web.mkIpc 1 2 (take 290 long_codes)])
  /\ ~ Web.delivered_in_packets 1 2 long_codes
         [Web.mkIpc 1 2 (take 290 long_codes)].
Proof.
  split; [vm_compute; reflexivity|]. split; [vm_compute; reflexivity|].
  split; [vm_compute; reflexivity|].
  apply single_message_not_packets. vm_compute. discriminate.
Qed.

Lemma C9_witness :
  exists m makeLen g',
    Web.web_dispatch 5 sendTWCMsg_FC19 = Some m
    /\ Web.twcMsg_length one_slave = (Ok makeLen, one_slave)
    /\ m one_slave = (Ok ([], 0), g')
    /\ (Web.dangerous_prefix (Web.trim_pad [0xFC; 0x19]%Z makeLen) ->
        filter is_tx (new_events one_slave g') = []
        /\ (new_events one_slave g'
            = [ErrorCouldDisable (Web.trim_pad [0xFC; 0x19]%Z makeLen)]
            \/ new_events one_slave g'
               = [ErrorCouldCrash (Web.trim_pad [0xFC; 0x19]%Z makeLen)]))
    /\ (~ Web.dangerous_prefix (Web.trim_pad [0xFC; 0x19]%Z makeLen) ->
        exists wire,
          Codec.send_msg (Web.trim_pad [0xFC; 0x19]%Z makeLen) = Ok wire
          /\ new_events one_slave g' = [SerWrite wire]).
Proof.
  apply (C9_sendTWCMsg_gate 5 sendTWCMsg_FC19 [0x46; 0x43; 0x31; 0x39]%Z
           [0xFC; 0x19]%Z one_slave).
  - apply one_slave_inv.
  - vm_compute. reflexivity.
  - vm_compute. reflexivity.
  - vm_compute. reflexivity.
Defined.

(** [sendTWCMsg=FC19] is refused; [sendTWCMsg=FBEB7777ABCD] is padded
    to 13 bytes and transmitted with its checksum. *)
Example sendTWCMsg_scenarios :
  new_events one_slave (after_web 5 sendTWCMsg_FC19 one_slave)
  = [ErrorCouldDisable [0xFC; 0x19; 0; 0; 0; 0; 0; 0; 0; 0; 0; 0; 0]%Z]
  /\ new_events one_slave (after_web 5 sendTWCMsg_FBEB one_slave)
     = [SerWrite [0xC0; 0xFB; 0xEB; 0x77; 0x77; 0xAB; 0xCD;
                  0; 0; 0; 0; 0; 0; 0; 0x51; 0xC0]%Z].
Proof. evaluate. Qed.

End ExampleFacts.

(** ** More on the frame codec *)

Section CodecMore.

Import Codec Rx.
Local Open Scope Z_scope.

Lemma slip_escape_wire_body (l : list Z) : wire_body (slip_escape l).
Proof.
  induction l as [|b l IH]; simpl; [constructor|].
  destruct (decide (b = 192)); [constructor; exact IH|].
  destruct (decide (b = 219)); constructor; assumption.
Qed.

Lemma wire_body_no_delimiter (l : list Z) : wire_body l -> 0xc0 ∉ l.
Proof.
  induction 1 as [|b l Hc Hd _ IH|l _ IH|l _ IH].
  - apply not_elem_of_nil.
  - rewrite elem_of_cons. intros [E|E]; [congruence|contradiction].
  - rewrite !elem_of_cons. intros [E|[E|E]]; [discriminate..|contradiction].
  - rewrite !elem_of_cons. intros [E|[E|E]]; [discriminate..|contradiction].
Qed.

Lemma slip_escape_length (l : list Z) :
  (length l <= length (slip_escape l) <= 2 * length l)%nat.
Proof.
  induction l as [|b l IH]; simpl; [lia|].
  destruct (decide (b = 192)); [simpl; lia|].
  destruct (decide (b = 219)); simpl; lia.
Qed.

(** X1. What [send_msg] writes starts and ends with the delimiter
    [0xC0] and has no other [0xC0]: between the two, every [0xDB] opens
    one of the pairs [0xDB 0xDC] and [0xDB 0xDD].  The part between the
    delimiters has at least one byte more than the payload (the
    checksum) and at most twice as many. *)
Theorem X1_send_msg_delimiters (f : list Z) :
  exists body : list Z,
    send_msg f = Ok ([0xc0] ++ body ++ [0xc0])
    /\ wire_body body
    /\ (0xc0 ∉ body)
    /\ (length f + 1 <= length body <= 2 * (length f + 1))%nat.
Proof.
  exists (slip_escape (f ++ [sum8_tail f])).
  split; [apply send_msg_wire|].
  split; [apply slip_escape_wire_body|].
  split; [apply wire_body_no_delimiter, slip_escape_wire_body|].
  pose proof (slip_escape_length (f ++ [sum8_tail f])) as H.
  rewrite length_app in H. simpl in H. lia.
Qed.





(** X3. A buffer that does not end in [0xDB] decodes; one more [0xDB]
    behind it makes [unescape_msg] raise [IndexError]. *)
Theorem X3_unescape_msg_lone_escape_raises (l : list Z) :
  last l <> Some 0xdb ->
  unescape_msg (l ++ [0xdb]) (length l + 1) = Raise IndexError.
Proof.
  intros Hlast. destruct (slip_unescape_returns _ Hlast) as [r Hr].
  rewrite unescape_msg_decoder.
  replace (length l + 1)%nat with (length (l ++ [219]))
    by (rewrite length_app; reflexivity).
  rewrite firstn_all, (slip_unescape_dangling l r Hr). reflexivity.
Qed.

Lemma X3_witness :
  last [0xc0; 0xfd; 0xe2] <> Some 0xdb
  /\ unescape_msg ([0xc0; 0xfd; 0xe2] ++ [0xdb]) (length [0xc0; 0xfd; 0xe2] + 1)
     = Raise IndexError.
Proof.
  split; [discriminate|].
  apply (X3_unescape_msg_lone_escape_raises [0xc0; 0xfd; 0xe2]). discriminate.
Defined.

Lemma rx_checksum_cons (b : Z) (rest : list Z) :
  rx_checksum (b :: rest)
  = foldr Z.add 0 (take (length rest - 1) rest).
Proof.
  unfold rx_checksum. rewrite index_sum_window by (simpl; lia).
  simpl. rewrite drop_0, Nat.sub_0_r. lia.
Qed.

(** X4. The first byte of a message is outside the checksum on both
    sides: [send_msg] appends the same checksum byte whatever the first
    byte is, and the length gate and checksum test of the receive loop
    give the same verdict when the first byte is replaced by any other
    value. *)
Theorem X4_first_byte_not_covered (b b' : Z) (rest : list Z) :
  tx_checksum (b :: rest) = tx_checksum (b' :: rest)
  /\ rx_verify (b :: rest) = rx_verify (b' :: rest).
Proof.
  split; [rewrite !tx_checksum_tail; reflexivity|].
  unfold rx_verify, rx_checksum_ok. rewrite !rx_checksum_cons.
  destruct rest as [|c rest]; [reflexivity|].
  replace (length (b :: c :: rest) - 1)%nat with (S (length rest))
    by (simpl; lia).
  replace (length (b' :: c :: rest) - 1)%nat with (S (length rest))
    by (simpl; lia).
  reflexivity.
Qed.

Lemma sum_insert (l : list Z) (j : nat) (old v : Z) :
  l !! j = Some old ->
  foldr Z.add 0 (<[j:=v]> l) = foldr Z.add 0 l - old + v.
Proof.
  revert j. induction l as [|x l IH]; intros [|j] Hj; try discriminate.
  - injection Hj as ->. simpl. lia.
  - simpl in *. rewrite (IH j Hj). lia.
Qed.

Lemma land_255 (x : Z) : Z.land x 0xFF = x mod 256.
Proof. change 255 with (Z.ones 8). rewrite Z.land_ones by lia. reflexivity. Qed.

(** X5. One corrupted byte is always found out, except in the first
    position: if a message passes the length gate and the checksum
    test, replacing any byte behind the first by a different byte value
    makes the checksum test fail. *)
Theorem X5_single_byte_corruption_detected (msg : list Z) (i : nat)
    (old v : Z) :
  rx_verify msg = RxAccepted ->
  (1 <= i)%nat ->
  msg !! i = Some old ->
  0 <= old < 256 -> 0 <= v < 256 -> v <> old ->
  rx_verify (<[i:=v]> msg) = RxChecksumMismatch.
Proof.
  intros Hacc Hi Hold Ho Hv Hne.
  unfold rx_verify in *. rewrite length_insert.
  destruct (bool_decide (length msg ≠ 14%nat)
            && bool_decide (length msg ≠ 16%nat)) eqn:Hgate;
    [discriminate|].
  destruct (rx_checksum_ok msg) eqn:Hok; [clear Hacc|discriminate].
  enough (rx_checksum_ok (<[i:=v]> msg) = false) as -> by reflexivity.
  destruct msg as [|c f _] using rev_ind; [discriminate|].
  unfold rx_checksum_ok in *.
  rewrite length_insert, length_app in *. simpl length in *.
  replace (length f + 1 - 1)%nat with (length f) in * by lia.
  rewrite list_lookup_middle in Hok by reflexivity.
  apply bool_decide_eq_true in Hok.
  rewrite rx_checksum_snoc, land_255 in Hok.
  destruct (decide (i < length f)%nat) as [Hlt|Hge].
  - rewrite lookup_app_l in Hold by exact Hlt.
    rewrite insert_app_l by exact Hlt.
    rewrite list_lookup_middle by (rewrite length_insert; reflexivity).
    apply bool_decide_eq_false.
    rewrite rx_checksum_snoc, land_255.
    destruct f as [|b f]; [simpl in Hlt; lia|].
    destruct i as [|j]; [lia|]. simpl in *.
    rewrite (sum_insert f j old v Hold).
    intros Hbad. rewrite <- Hok in Hbad.
    set (s := foldr Z.add 0 f) in *.
    assert (Hd : (v - old) mod 256 = 0).
    { replace (v - old) with ((s - old + v) - s) by lia.
      rewrite Zminus_mod, Hbad, Z.sub_diag. reflexivity. }
    apply Z.mod_divide in Hd; [|lia].
    destruct Hd as [k Hk]. lia.
  - apply lookup_lt_Some in Hold as Hlen.
    rewrite length_app in Hlen. simpl in Hlen.
    assert (i = length f) as -> by lia.
    rewrite list_lookup_middle in Hold by reflexivity.
    injection Hold as ->.
    replace (<[length f:=v]> (f ++ [old])) with (f ++ [v]).
    + rewrite list_lookup_middle by reflexivity.
      apply bool_decide_eq_false.
      rewrite rx_checksum_snoc, land_255, Hok. congruence.
    + replace (length f) with (length f + 0)%nat at 1 by lia.
      rewrite insert_app_r. reflexivity.
Qed.

Lemma X5_witness :
  let msg := [0xFD; 0xE2; 0x12; 0x34; 0; 0; 0; 0; 0; 0; 0; 0; 0; 0x28] in
  rx_verify msg = RxAccepted
  /\ rx_verify (<[3%nat:=0x35]> msg) = RxChecksumMismatch.
Proof.
  cbv zeta. split; [reflexivity|].
  apply (X5_single_byte_corruption_detected _ 3 0x34 0x35);
    [reflexivity | lia | reflexivity | lia | lia | discriminate].
Defined.

End CodecMore.

(** ** The receive loop *)

Section RxFacts.

Import Codec Rx.
Local Open Scope Z_scope.

Lemma rx_byte_noise (st : rx_state) (b : Z) :
  msgLen st = 0%nat -> b <> 0xc0 ->
  rx_byte st b
  = (mkRx (msg st) 0 (ignoredData st ++ [b]) (msg_is_bytearray st)
          (msgRxCount st), false).
Proof.
  intros H0 Hb. unfold rx_byte. rewrite H0.
  rewrite bool_decide_eq_true_2 by reflexivity.
  rewrite bool_decide_eq_true_2 by exact Hb. reflexivity.
Qed.

Lemma rx_byte_start (st : rx_state) :
  msgLen st = 0%nat ->
  rx_byte st 0xc0
  = (mkRx [0xc0] 1 (ignoredData st) true (msgRxCount st), false).
Proof. intros H0. unfold rx_byte. rewrite H0. reflexivity. Qed.

Lemma rx_byte_restart (st : rx_state) :
  (0 < msgLen st < 15)%nat ->
  rx_byte st 0xc0
  = (mkRx [0xc0] 1 (ignoredData st) false (msgRxCount st), false).
Proof.
  intros H. unfold rx_byte.
  rewrite (bool_decide_eq_false_2 (msgLen st = 0%nat)) by lia.
  rewrite (bool_decide_eq_true_2 (0 < msgLen st)%nat) by lia.
  rewrite (bool_decide_eq_true_2 (msgLen st < 15)%nat) by lia.
  reflexivity.
Qed.

Lemma rx_byte_append (st : rx_state) (b : Z) :
  (0 < msgLen st)%nat -> b <> 0xc0 \/ (15 <= msgLen st)%nat ->
  rx_byte st b
  = (mkRx (msg st ++ [b]) (msgLen st + 1) (ignoredData st)
          (msg_is_bytearray st) (msgRxCount st),
     bool_decide (16 <= msgLen st + 1)%nat && bool_decide (b = 0xc0)).
Proof.
  intros Hpos Hb. unfold rx_byte.
  rewrite (bool_decide_eq_false_2 (msgLen st = 0%nat)) by lia.
  cbn [andb].
  destruct Hb as [Hb|Hb].
  - rewrite (bool_decide_eq_false_2 (b = 192)) by exact Hb.
    rewrite !andb_false_r. reflexivity.
  - rewrite (bool_decide_eq_false_2 (msgLen st < 15)%nat) by lia.
    rewrite andb_false_r. reflexivity.
Qed.

Lemma rx_drain_noise (noise rest : list Z) (st : rx_state) :
  msgLen st = 0%nat -> 0xc0 ∉ noise ->
  rx_drain st (noise ++ rest)
  = rx_drain (mkRx (msg st) 0 (ignoredData st ++ noise)
                   (msg_is_bytearray st) (msgRxCount st)) rest.
Proof.
  revert st. induction noise as [|b noise IH]; intros st H0 Hn.
  - destruct st; simpl in *. subst. rewrite app_nil_r. reflexivity.
  - apply not_elem_of_cons in Hn as [Hb Hn].
    cbn [app rx_drain]. rewrite rx_byte_noise by auto.
    rewrite IH by (auto; reflexivity). cbn [msg ignoredData msg_is_bytearray
      msgRxCount]. rewrite <- app_assoc. reflexivity.
Qed.

Lemma rx_drain_body (body rest : list Z) (st : rx_state) :
  (0 < msgLen st)%nat -> 0xc0 ∉ body ->
  rx_drain st (body ++ rest)
  = rx_drain (mkRx (msg st ++ body) (msgLen st + length body)
                   (ignoredData st) (msg_is_bytearray st) (msgRxCount st))
             rest.
Proof.
  revert st. induction body as [|b body IH]; intros st H0 Hn.
  - destruct st; simpl in *. rewrite app_nil_r, Nat.add_0_r. reflexivity.
  - apply not_elem_of_cons in Hn as [Hb Hn].
    cbn [app rx_drain]. rewrite rx_byte_append by (auto; lia).
    rewrite (bool_decide_eq_false_2 (b = 192)) by auto.
    rewrite andb_false_r.
    rewrite IH by (cbn; auto; lia).
    cbn [msg msgLen ignoredData msg_is_bytearray msgRxCount length].
    rewrite <- app_assoc.
    replace (msgLen st + 1 + length body)%nat
      with (msgLen st + S (length body))%nat by lia.
    reflexivity.
Qed.

(** A frame body of 14 or more bytes behind a start delimiter is
    collected up to its end delimiter. *)
Lemma rx_drain_frame (body rest ign : list Z) (ba : bool) (n : nat) :
  0xc0 ∉ body -> (14 <= length body)%nat ->
  rx_drain (mkRx [0xc0] 1 ign ba n) (body ++ [0xc0] ++ rest)
  = (mkRx ([0xc0] ++ body ++ [0xc0]) (length body + 2) ign ba n, Some rest).
Proof.
  intros Hb Hlen. rewrite rx_drain_body by (cbn; auto; lia).
  cbn [msg msgLen ignoredData msg_is_bytearray msgRxCount app rx_drain].
  rewrite rx_byte_append by (cbn; lia).
  cbn [msg msgLen ignoredData msg_is_bytearray msgRxCount].
  rewrite (bool_decide_eq_true_2 (16 <= _)%nat) by lia.
  rewrite bool_decide_eq_true_2 by reflexivity. cbn [andb].
  replace (1 + length body + 1)%nat with (length body + 2)%nat by lia.
  reflexivity.
Qed.

Lemma unescape_loop_bytes_scan (fuel : nat) (pre suf : list Z) :
  (length suf < fuel)%nat ->
  unescape_loop_bytes fuel (length pre) (pre ++ suf)
  = bind (bytes_scan suf) (fun _ => Ok (pre ++ suf)).
Proof.
  revert pre suf. induction fuel as [|fuel IH]; intros pre suf Hfuel; [lia|].
  destruct suf as [|b suf]; cbn [unescape_loop_bytes bytes_scan].
  - rewrite decide_False by (rewrite length_app; simpl; lia). reflexivity.
  - rewrite decide_True by (rewrite length_app; simpl; lia).
    rewrite list_lookup_middle by reflexivity.
    destruct (decide (b = 219)) as [->|Hb].
    + destruct suf as [|x suf].
      * rewrite lookup_ge_None_2 by (rewrite length_app; simpl; lia).
        reflexivity.
      * replace (pre ++ 219 :: x :: suf) with ((pre ++ [219]) ++ x :: suf)
          by (rewrite <- app_assoc; reflexivity).
        rewrite list_lookup_middle by (rewrite length_app; reflexivity).
        reflexivity.
    + replace (pre ++ b :: suf) with ((pre ++ [b]) ++ suf)
        by (rewrite <- app_assoc; reflexivity).
      replace (length pre + 1)%nat with (length (pre ++ [b]))
        by (rewrite length_app; reflexivity).
      apply IH. simpl in Hfuel. lia.
Qed.

Lemma unescape_msg_obj_bytes (msg : list Z) :
  unescape_msg_obj false msg (length msg)
  = bind (bytes_scan msg) (fun _ => Ok (slice msg 1 (length msg - 1))).
Proof.
  unfold unescape_msg_obj. rewrite firstn_all.
  pose proof (unescape_loop_bytes_scan (S (length msg)) [] msg ltac:(lia))
    as H.
  cbn [length app] in H. rewrite H.
  destruct (bytes_scan msg); reflexivity.
Qed.

Lemma bytes_scan_plain (l : list Z) : 0xdb ∉ l -> bytes_scan l = Ok tt.
Proof.
  induction l as [|b l IH]; intros Hl; [reflexivity|].
  apply not_elem_of_cons in Hl as [Hb Hl]. cbn [bytes_scan].
  rewrite decide_False by congruence. auto.
Qed.

Lemma bytes_scan_escape (l tl : list Z) (x : Z) :
  0xdb ∈ l -> bytes_scan (l ++ x :: tl) = Raise TypeError.
Proof.
  induction l as [|b l IH]; intros Hl; [inversion Hl|].
  cbn [app bytes_scan].
  destruct (decide (b = 219)) as [->|Hb].
  - destruct l; reflexivity.
  - apply elem_of_cons in Hl as [Hl|Hl]; [congruence|auto].
Qed.

Lemma bytes_scan_more (l tl : list Z) :
  bytes_scan l = Raise TypeError -> bytes_scan (l ++ tl) = Raise TypeError.
Proof.
  induction l as [|b l IH]; intros Hl; [discriminate|].
  cbn [app bytes_scan] in *.
  destruct (decide (b = 219)) as [->|Hb]; [|auto].
  destruct l; [discriminate|reflexivity].
Qed.

Lemma bytes_scan_delimited (l : list Z) :
  bytes_scan (l ++ [0xc0]) = Ok tt
  \/ bytes_scan (l ++ [0xc0]) = Raise TypeError.
Proof.
  destruct (decide (0xdb ∈ l)) as [Hin|Hnot].
  - right. apply bytes_scan_escape, Hin.
  - left. apply bytes_scan_plain. rewrite elem_of_app, list_elem_of_singleton.
    intros [H|H]; [contradiction|discriminate].
Qed.

Lemma slip_escape_plain (m : list Z) :
  0xc0 ∉ m -> 0xdb ∉ m -> slip_escape m = m.
Proof.
  induction m as [|b m IH]; intros Hc Hd; [reflexivity|].
  apply not_elem_of_cons in Hc as [Hc1 Hc].
  apply not_elem_of_cons in Hd as [Hd1 Hd].
  simpl. rewrite !decide_False by congruence. rewrite IH by assumption.
  reflexivity.
Qed.

Lemma slip_escape_has_escape (m : list Z) :
  0xc0 ∈ m \/ 0xdb ∈ m -> 0xdb ∈ slip_escape m.
Proof.
  induction m as [|b m IH]; intros H.
  - destruct H as [H|H]; inversion H.
  - simpl. destruct (decide (b = 192)); [apply list_elem_of_here|].
    destruct (decide (b = 219)); [apply list_elem_of_here|].
    apply list_elem_of_further, IH.
    rewrite !elem_of_cons in H. destruct H as [[H|H]|[H|H]]; try congruence;
      auto.
Qed.

(** A frame of 16 or more bytes that arrives while no message is being
    collected: it is collected into a fresh [bytearray] and decoded. *)
Lemma rx_sent_frame (st : rx_state) (m rest : list Z)
    (resp : option (list Z)) :
  msgLen st = 0%nat ->
  (14 <= length m)%nat ->
  exists st' : rx_state,
    rx_drain st (([0xc0] ++ slip_escape m ++ [0xc0]) ++ rest)
    = (st', Some rest)
    /\ rx_frame st' resp
       = Ok (mkRx m 0 [] true (msgRxCount st + 1),
             store_response resp m, rx_verify m, m).
Proof.
  intros H0 Hlen.
  assert (Hbody : 0xc0 ∉ slip_escape m)
    by apply wire_body_no_delimiter, slip_escape_wire_body.
  assert (Hblen : (14 <= length (slip_escape m))%nat)
    by (pose proof (slip_escape_length m); lia).
  eexists. split.
  - change (([192] ++ slip_escape m ++ [192]) ++ rest)
      with (192 :: ((slip_escape m ++ [192]) ++ rest)).
    rewrite <- app_assoc. cbn [rx_drain].
    rewrite rx_byte_start by exact H0.
    apply (rx_drain_frame (slip_escape m) rest); assumption.
  - unfold rx_frame. cbn [msg msgLen msg_is_bytearray msgRxCount].
    unfold unescape_msg_obj.
    replace (length (slip_escape m) + 2)%nat
      with (length ([192] ++ slip_escape m ++ [192]))
      by (rewrite !length_app; simpl; lia).
    rewrite (unescape_msg_framed m). reflexivity.
Qed.

(** X6. Loop-back of a frame through the receive loop.  While no
    message is being collected, bytes other than [0xC0] are skipped;
    the bytes [send_msg] wrote for a payload of 13 or more bytes are
    then collected up to the end delimiter, leaving what follows in the
    serial buffer; the frame stage decodes them to the payload followed
    by its checksum, counts the message and hands it to the length gate
    and the checksum test, which accept payloads of 13 and 15 bytes. *)
Theorem X6_rx_collects_sent_frame (st : rx_state)
    (noise f wire rest : list Z) (resp : option (list Z)) :
  msgLen st = 0%nat ->
  0xc0 ∉ noise ->
  (13 <= length f)%nat ->
  send_msg f = Ok wire ->
  exists st' : rx_state,
    rx_drain st (noise ++ wire ++ rest) = (st', Some rest)
    /\ rx_frame st' resp
       = Ok (mkRx (f ++ [sum8_tail f]) 0 [] true (msgRxCount st + 1),
             store_response resp (f ++ [sum8_tail f]),
             rx_verify (f ++ [sum8_tail f]),
             f ++ [sum8_tail f])
    /\ (length f = 13%nat \/ length f = 15%nat ->
        rx_verify (f ++ [sum8_tail f]) = RxAccepted).
Proof.
  intros H0 Hnoise Hlen Hsend.
  rewrite send_msg_wire in Hsend. injection Hsend as <-.
  set (m := f ++ [sum8_tail f]).
  assert (Hm : (14 <= length m)%nat)
    by (unfold m; rewrite length_app; simpl; lia).
  rewrite rx_drain_noise by assumption.
  destruct (rx_sent_frame
              (mkRx (msg st) 0 (ignoredData st ++ noise)
                    (msg_is_bytearray st) (msgRxCount st))
              m rest resp eq_refl Hm) as (st' & Hrun & Hframe).
  exists st'. split; [exact Hrun|]. split; [exact Hframe|].
  apply rx_verify_sent_frame.
Qed.

Lemma X6_witness :
  let f := [0xFD; 0xE2; 0x12; 0xC0; 0x77; 0x1F; 0x40; 0; 0; 0; 0; 0; 0] in
  exists st' : rx_state,
    rx_drain rx_initial ([0xFE] ++ ([0xc0] ++ slip_escape (f ++ [sum8_tail f])
                                    ++ [0xc0]) ++ [0xFE])
    = (st', Some [0xFE])
    /\ rx_frame st' None
       = Ok (mkRx (f ++ [sum8_tail f]) 0 [] true
                  (msgRxCount rx_initial + 1),
             store_response None (f ++ [sum8_tail f]),
             rx_verify (f ++ [sum8_tail f]),
             f ++ [sum8_tail f])
    /\ (length f = 13%nat \/ length f = 15%nat ->
        rx_verify (f ++ [sum8_tail f]) = RxAccepted).
Proof.
  cbv zeta.
  apply (X6_rx_collects_sent_frame rx_initial [0xFE]
           [0xFD; 0xE2; 0x12; 0xC0; 0x77; 0x1F; 0x40; 0; 0; 0; 0; 0; 0]).
  - reflexivity.
  - rewrite list_elem_of_singleton. discriminate.
  - simpl. lia.
  - apply send_msg_wire.
Defined.

(** X7. A frame that follows an unfinished message.  When fewer than
    15 bytes of a message have been collected, the start delimiter of
    the next frame makes the loop start over with [msg = data], the
    [bytes] object read from the port.  The frame [send_msg] wrote for
    a payload of 13 or more bytes is then collected in full; the frame
    stage decodes it when the payload and its checksum hold neither
    [0xC0] nor [0xDB], and raises [TypeError] when they hold one, as
    [unescape_msg] assigns to a slice of [bytes]. *)
Theorem X7_rx_frame_after_partial_message (st : rx_state)
    (f wire rest : list Z) (resp : option (list Z)) :
  (0 < msgLen st < 15)%nat ->
  (13 <= length f)%nat ->
  send_msg f = Ok wire ->
  exists st' : rx_state,
    rx_drain st (wire ++ rest) = (st', Some rest)
    /\ msg st' = wire
    /\ msg_is_bytearray st' = false
    /\ ((0xc0 ∉ f ++ [sum8_tail f]) /\ (0xdb ∉ f ++ [sum8_tail f]) ->
        rx_frame st' resp
        = Ok (mkRx (f ++ [sum8_tail f]) 0 [] false (msgRxCount st + 1),
              store_response resp (f ++ [sum8_tail f]),
              rx_verify (f ++ [sum8_tail f]),
              f ++ [sum8_tail f]))
    /\ (0xc0 ∈ f ++ [sum8_tail f] \/ 0xdb ∈ f ++ [sum8_tail f] ->
        rx_frame st' resp = Raise TypeError).
Proof.
  intros Hpart Hlen Hsend.
  rewrite send_msg_wire in Hsend. injection Hsend as <-.
  set (m := f ++ [sum8_tail f]).
  assert (Hbody : 0xc0 ∉ slip_escape m)
    by apply wire_body_no_delimiter, slip_escape_wire_body.
  assert (Hblen : (14 <= length (slip_escape m))%nat).
  { pose proof (slip_escape_length m) as H. unfold m in H.
    rewrite length_app in H. simpl in H. unfold m. lia. }
  set (wire := [192] ++ slip_escape m ++ [192]).
  assert (Hwlen : (length (slip_escape m) + 2)%nat = length wire)
    by (unfold wire; rewrite !length_app; simpl; lia).
  exists (mkRx wire (length (slip_escape m) + 2) (ignoredData st) false
               (msgRxCount st)).
  split; [|split; [reflexivity|split; [reflexivity|split]]].
  - change (wire ++ rest) with ((192 :: slip_escape m ++ [192]) ++ rest).
    change ((192 :: slip_escape m ++ [192]) ++ rest)
      with (192 :: ((slip_escape m ++ [192]) ++ rest)).
    rewrite <- app_assoc. cbn [rx_drain].
    rewrite rx_byte_restart by exact Hpart.
    apply (rx_drain_frame (slip_escape m) rest); assumption.
  - intros [Hc Hd]. unfold rx_frame.
    cbn [msg msgLen msg_is_bytearray msgRxCount].
    rewrite Hwlen, unescape_msg_obj_bytes.
    unfold wire. rewrite slip_escape_plain by assumption.
    rewrite bytes_scan_plain.
    + cbn [bind]. unfold slice. cbn [app drop].
      replace (take (length (192 :: m ++ [192]) - 1 - 1)
                    (drop 0 (m ++ [192]))) with m; [reflexivity|].
      rewrite drop_0. cbn [length]. rewrite length_app. cbn [length].
      replace (S (length m + 1) - 1 - 1)%nat with (length m) by lia.
      rewrite take_app_length. reflexivity.
    + change ([192] ++ m ++ [192]) with (192 :: (m ++ [192])).
      rewrite not_elem_of_cons, elem_of_app, list_elem_of_singleton.
      split; [discriminate|]. intros [H|H]; [contradiction|discriminate].
  - intros Hesc. unfold rx_frame.
    cbn [msg msgLen msg_is_bytearray msgRxCount].
    rewrite Hwlen, unescape_msg_obj_bytes.
    unfold wire. change ([192] ++ slip_escape m ++ [192])
      with ((192 :: slip_escape m) ++ [192]).
    rewrite bytes_scan_escape; [reflexivity|].
    apply list_elem_of_further, slip_escape_has_escape, Hesc.
Qed.

Lemma X7_witness :
  let partial := fst (rx_drain rx_initial [0x12; 0x34; 0xc0]) in
  let f := [0xFD; 0xE2; 0x12; 0xC0; 0x77; 0x1F; 0x40; 0; 0; 0; 0; 0; 0] in
  exists st' : rx_state,
    rx_drain partial (([0xc0] ++ slip_escape (f ++ [sum8_tail f]) ++ [0xc0])
                      ++ [0xFE])
    = (st', Some [0xFE])
    /\ rx_frame st' None = Raise TypeError.
Proof.
  cbv zeta.
  destruct (X7_rx_frame_after_partial_message
              (fst (rx_drain rx_initial [0x12; 0x34; 0xc0]))
              [0xFD; 0xE2; 0x12; 0xC0; 0x77; 0x1F; 0x40; 0; 0; 0; 0; 0; 0]
              _ [0xFE] None ltac:(simpl; lia) ltac:(simpl; lia)
              (send_msg_wire _))
    as (st' & Hrun & _ & _ & _ & Hraise).
  exists st'. split; [exact Hrun|].
  apply Hraise. left. apply elem_of_app. left.
  do 3 apply list_elem_of_further. apply list_elem_of_here.
Defined.

Lemma slip_unescape_outcome (l : list Z) :
  match slip_unescape l with
  | Ok _ => True
  | Raise e => e = IndexError
  | OutOfFuel => False
  end.
Proof.
  assert (H : forall n (l : list Z), (length l < n)%nat ->
             match slip_unescape l with
             | Ok _ => True
             | Raise e => e = IndexError
             | OutOfFuel => False
             end).
  { induction n as [|n IH]; intros l0 Hn; [lia|].
    destruct l0 as [|b l0]; [exact I|].
    destruct (decide (b = 219)) as [->|Hb].
    - destruct l0 as [|x l0]; [reflexivity|].
      rewrite slip_unescape_pair.
      specialize (IH l0 ltac:(simpl in Hn; lia)).
      destruct (slip_unescape l0); simpl; auto.
    - rewrite slip_unescape_plain by exact Hb.
      specialize (IH l0 ltac:(simpl in Hn; lia)).
      destruct (slip_unescape l0); simpl; auto. }
  apply (H (S (length l))). lia.
Qed.

Lemma rx_byte_cases (st : rx_state) (b : Z) :
  rx_ok st ->
  rx_ok (fst (rx_byte st b))
  /\ (snd (rx_byte st b) = true ->
      (16 <= msgLen (fst (rx_byte st b)))%nat
      /\ msgLen (fst (rx_byte st b)) = length (msg (fst (rx_byte st b)))
      /\ exists l, msg (fst (rx_byte st b)) = l ++ [0xc0]).
Proof.
  intros Hok. unfold rx_byte, rx_ok in *.
  destruct (bool_decide (msgLen st = 0%nat)) eqn:E0.
  - apply bool_decide_eq_true in E0.
    destruct (bool_decide (b <> 192)) eqn:Eb; cbn [andb fst snd].
    + split; [simpl; auto|discriminate].
    + rewrite E0. cbn. split; [auto|]. intros H.
      apply andb_true_iff in H as [H _].
      apply bool_decide_eq_true in H. lia.
  - apply bool_decide_eq_false in E0. cbn [andb].
    destruct (bool_decide (0 < msgLen st)%nat
              && bool_decide (msgLen st < 15)%nat
              && bool_decide (b = 192)) eqn:E1; cbn [fst snd msg msgLen].
    + split; [auto|discriminate].
    + assert (Hlen : msgLen st = length (msg st)) by (destruct Hok; [lia|auto]).
      split; [right; rewrite length_app; simpl; lia|].
      intros H. apply andb_true_iff in H as [H1 H2].
      apply bool_decide_eq_true in H1, H2. subst b.
      split; [exact H1|]. split; [rewrite length_app; simpl; lia|].
      eexists; reflexivity.
Qed.

Lemma rx_drain_stops (input : list Z) (st st' : rx_state) (rest : list Z) :
  rx_ok st ->
  rx_drain st input = (st', Some rest) ->
  (16 <= msgLen st')%nat
  /\ msgLen st' = length (msg st')
  /\ exists l, msg st' = l ++ [0xc0].
Proof.
  revert st. induction input as [|b input IH]; intros st Hok Hrun;
    [discriminate|].
  cbn [rx_drain] in Hrun.
  destruct (rx_byte_cases st b Hok) as [Hok1 Hstop].
  destruct (rx_byte st b) as [st1 stop]. cbn [fst snd] in *.
  destruct stop.
  - injection Hrun as <- <-. auto.
  - eapply IH; eauto.
Qed.

Lemma rx_drain_full_buffer (input : list Z) (st st' : rx_state)
    (rest : list Z) :
  (15 <= msgLen st)%nat ->
  rx_drain st input = (st', Some rest) ->
  msg_is_bytearray st' = msg_is_bytearray st
  /\ exists more, msg st' = msg st ++ more.
Proof.
  revert st. induction input as [|b input IH]; intros st Hlen Hrun;
    [discriminate|].
  cbn [rx_drain] in Hrun. rewrite rx_byte_append in Hrun by lia.
  destruct (bool_decide (16 <= msgLen st + 1)%nat && bool_decide (b = 192)).
  - injection Hrun as <- <-. cbn. split; [reflexivity|eauto].
  - apply IH in Hrun; [|cbn; lia]. cbn in Hrun.
    destruct Hrun as [Hba [more Hmore]]. split; [exact Hba|].
    exists ([b] ++ more). rewrite Hmore, <- app_assoc. reflexivity.
Qed.

(** X8. Frames handed over by the receive loop end in [0xC0], so the
    [IndexError] of [unescape_msg] on a trailing [0xDB] does not occur
    there: whenever the inner loop leaves with a complete frame, at
    least 16 bytes are buffered, the last one is [0xC0], and the frame
    stage either returns the decoded message with its verdict or, if the
    buffer is a [bytes] object, raises [TypeError]. *)
Theorem X8_rx_frame_stage_outcome (st st' : rx_state)
    (input rest : list Z) (resp : option (list Z)) :
  rx_ok st ->
  rx_drain st input = (st', Some rest) ->
  rx_ok st'
  /\ (16 <= msgLen st')%nat
  /\ last (msg st') = Some 0xc0
  /\ ((exists m : list Z,
         rx_frame st' resp
         = Ok (mkRx m 0 [] (msg_is_bytearray st') (msgRxCount st' + 1),
               store_response resp m, rx_verify m, m))
      \/ (msg_is_bytearray st' = false
          /\ rx_frame st' resp = Raise TypeError)).
Proof.
  intros Hok Hrun.
  destruct (rx_drain_stops _ _ _ _ Hok Hrun) as (H16 & Hlen & l & Hl).
  split; [right; exact Hlen|]. split; [exact H16|].
  split; [rewrite Hl; apply last_snoc|].
  unfold rx_frame, unescape_msg_obj. rewrite Hlen.
  destruct (msg_is_bytearray st') eqn:Hba.
  - left. rewrite unescape_msg_decoder, firstn_all.
    destruct (slip_unescape_returns (msg st')) as [r Hr].
    { rewrite Hl, last_snoc. discriminate. }
    rewrite Hr. eexists. reflexivity.
  - fold (unescape_msg_obj false (msg st') (length (msg st'))).
    rewrite unescape_msg_obj_bytes, Hl.
    destruct (bytes_scan_delimited l) as [-> | ->].
    + left. eexists. reflexivity.
    + right. split; reflexivity.
Qed.

Lemma X8_witness :
  rx_ok rx_initial
  /\ exists st' : rx_state,
       rx_drain rx_initial (0xc0 :: replicate 14 0x11 ++ [0xc0; 0xFE])
       = (st', Some [0xFE])
       /\ (16 <= msgLen st')%nat
       /\ last (msg st') = Some 0xc0.
Proof.
  split; [left; reflexivity|].
  eexists. split; [vm_compute; reflexivity|].
  assert (Hrun : rx_drain rx_initial
                   (0xc0 :: replicate 14 0x11 ++ [0xc0; 0xFE])
                 = (mkRx (0xc0 :: replicate 14 0x11 ++ [0xc0]) 16 [] true 0,
                    Some [0xFE]))
    by (vm_compute; reflexivity).
  destruct (X8_rx_frame_stage_outcome rx_initial _ _ _ None
              ltac:(left; reflexivity) Hrun)
    as (_ & H16 & Hlast & _).
  split; [exact H16|exact Hlast].
Defined.

(** X9. A [TypeError] of the frame stage repeats.  The exception
    leaves [msg] and [msgLen] as they were, so the buffer keeps growing
    and every later [0xC0] ends the inner loop with a buffer on which
    the frame stage raises [TypeError] again; this lasts until the two
    seconds of silence that reset [msgLen]. *)
Theorem X9_rx_type_error_repeats (st st' : rx_state)
    (input rest : list Z) (resp resp' : option (list Z)) :
  rx_ok st ->
  (16 <= msgLen st)%nat ->
  rx_frame st resp = Raise TypeError ->
  rx_drain st input = (st', Some rest) ->
  rx_frame st' resp' = Raise TypeError.
Proof.
  intros Hok H16 Hraise Hrun.
  assert (Hlen : msgLen st = length (msg st)) by (destruct Hok; [lia|auto]).
  destruct (rx_drain_stops _ _ _ _ Hok Hrun) as (_ & Hlen' & _).
  assert (H15 : (15 <= msgLen st)%nat) by lia.
  destruct (rx_drain_full_buffer _ _ _ _ H15 Hrun) as (Hba & more & Hmore).
  unfold rx_frame, unescape_msg_obj in Hraise. rewrite Hlen in Hraise.
  destruct (msg_is_bytearray st) eqn:Hst.
  - rewrite unescape_msg_decoder, firstn_all in Hraise.
    pose proof (slip_unescape_outcome (msg st)) as Hout.
    destruct (slip_unescape (msg st)); simpl in Hraise; [discriminate| |].
    + subst. discriminate.
    + contradiction.
  - fold (unescape_msg_obj false (msg st) (length (msg st))) in Hraise.
    rewrite unescape_msg_obj_bytes in Hraise.
    destruct (bytes_scan (msg st)) as [[]|e|] eqn:Hscan;
      simpl in Hraise; try discriminate.
    injection Hraise as ->.
    unfold rx_frame. rewrite Hba, Hlen', unescape_msg_obj_bytes, Hmore.
    rewrite (bytes_scan_more _ more Hscan). reflexivity.
Qed.

Lemma X9_witness :
  let st := mkRx (0xc0 :: 0xdb :: 0xdc :: replicate 13 0x11 ++ [0xc0])
                 17 [] false 0 in
  rx_frame st None = Raise TypeError
  /\ exists st' : rx_state,
       rx_drain st [0xFE; 0xc0; 0xFE] = (st', Some [0xFE])
       /\ rx_frame st' None = Raise TypeError.
Proof.
  cbv zeta. split; [vm_compute; reflexivity|].
  eexists. split; [vm_compute; reflexivity|].
  apply (X9_rx_type_error_repeats
           (mkRx (0xc0 :: 0xdb :: 0xdc :: replicate 13 0x11 ++ [0xc0])
                 17 [] false 0) _ [0xFE; 0xc0; 0xFE] [0xFE] None None).
  - right. reflexivity.
  - simpl. lia.
  - vm_compute. reflexivity.
  - vm_compute. reflexivity.
Defined.

Lemma store_response_closed (resp : option (list Z)) (frames : list (list Z)) :
  resp <> Some [] -> fold_left store_response frames resp = resp.
Proof.
  intros Hresp. induction frames as [|m frames IH]; [reflexivity|].
  cbn [fold_left]. unfold store_response at 2.
  rewrite bool_decide_eq_false_2 by exact Hresp. exact IH.
Qed.

(** X10. Which message [getLastTWCMsgResponse] will report.  Over any
    run of decoded, non-empty messages: as long as no [sendTWCMsg] has
    emptied [lastTWCResponseMsg], none of them is kept; after
    [sendTWCMsg] has emptied it, the first message whose type is not
    one of the repeated ones is kept and no later message replaces it;
    if there is none, the holder stays empty. *)
Theorem X10_first_unusual_response_kept (frames : list (list Z)) :
  Forall (fun m => m <> []) frames ->
  fold_left store_response frames None = None
  /\ fold_left store_response frames (Some [])
     = Some (default [] (List.find unusual_type frames)).
Proof.
  intros Hne. split; [apply store_response_closed; discriminate|].
  induction Hne as [|m frames Hm _ IH]; [reflexivity|].
  cbn [fold_left List.find]. unfold store_response at 2.
  rewrite bool_decide_eq_true_2 by reflexivity. cbn [andb].
  destruct (unusual_type m).
  - apply store_response_closed. intros [= E]. exact (Hm E).
  - exact IH.
Qed.

Lemma X10_witness :
  let heartbeat := [0xFD; 0xE0; 0x12; 0x34; 0x77; 0x77; 0; 0; 0; 0; 0; 0; 0;
                    0x34] in
  let version := [0xFD; 0x1B; 0x12; 0x34; 0x77; 0x77; 0; 0; 0; 0; 0; 0; 0;
                  0x34] in
  let other := [0xFD; 0x19; 0x12; 0x34; 0x77; 0x77; 0; 0; 0; 0; 0; 0; 0;
                0x34] in
  fold_left store_response [heartbeat; version; other] None = None
  /\ fold_left store_response [heartbeat; version; other] (Some [])
     = Some version.
Proof.
  cbv zeta.
  apply (X10_first_unusual_response_kept
           [[0xFD; 0xE0; 0x12; 0x34; 0x77; 0x77; 0; 0; 0; 0; 0; 0; 0; 0x34];
            [0xFD; 0x1B; 0x12; 0x34; 0x77; 0x77; 0; 0; 0; 0; 0; 0; 0; 0x34];
            [0xFD; 0x19; 0x12; 0x34; 0x77; 0x77; 0; 0; 0; 0; 0; 0; 0; 0x34]]).
  repeat constructor; discriminate.
Defined.

(** X11. From the wire to the registry.  In master mode, while no
    message is being collected, the frame that [send_msg] writes for a
    slave link-ready (type [FD E2], sender id, sign, two bytes of
    [maxAmps], six zero bytes) from an id other than our own is
    collected, decoded and accepted by the checksum test, matches the
    link-ready pattern with that id, and its handler returns with the
    sender registered under that id and the registry invariant kept. *)
Theorem X11_linkready_on_wire_registers (cfg : TWC.config) (now : Q)
    (clk : TWC.clock) (st : rx_state) (g : TWC.globals)
    (i0 i1 sg m0 m1 : Z) (wire rest : list Z) :
  TWC.registry_inv g ->
  [i0; i1] <> TWC.fakeTWCID g ->
  msgLen st = 0%nat ->
  send_msg [0xFD; 0xE2; i0; i1; sg; m0; m1; 0; 0; 0; 0; 0; 0] = Ok wire ->
  exists (st' st'' : rx_state) (msg : list Z) (resp' : option (list Z))
         (h : TWC.M unit) (g' : TWC.globals) (a : nat) (s : TWC.TWCSlave),
    rx_drain st (wire ++ rest) = (st', Some rest)
    /\ rx_frame st' (TWC.lastTWCResponseMsg g)
       = Ok (st'', resp', RxAccepted, msg)
    /\ TWC.on_frame_as_master cfg now clk msg = Some h
    /\ h g = (Ok tt, g')
    /\ TWC.registry_inv g'
    /\ TWC.slaveTWCs g' !! [i0; i1] = Some a
    /\ TWC.heap g' !! a = Some s
    /\ TWC.TWCID s = [i0; i1].
Proof.
  intros Hinv Hother H0 Hsend.
  set (f := [0xFD; 0xE2; i0; i1; sg; m0; m1; 0; 0; 0; 0; 0; 0]) in *.
  rewrite send_msg_wire in Hsend. injection Hsend as <-.
  destruct (rx_sent_frame st (f ++ [sum8_tail f]) rest
              (TWC.lastTWCResponseMsg g) H0 ltac:(simpl; lia))
    as (st' & Hrun & Hframe).
  rewrite (rx_verify_sent_frame f ltac:(left; reflexivity)) in Hframe.
  destruct (slave_linkready_run cfg now clk (f ++ [sum8_tail f])
              [i0; i1] [sg] [m0; m1] g Hinv Hother)
    as (g' & a & s & Hh & Hinv' & Hreg & Hs & _).
  exists st'. eexists _, _, _, _, g', a, s.
  split; [exact Hrun|]. split; [exact Hframe|].
  split; [reflexivity|]. split; [exact Hh|]. split; [exact Hinv'|].
  split; [exact Hreg|]. split; [exact Hs|].
  destruct Hinv' as [Hwf _].
  apply (TWC.wf_same g' Hwf) in Hreg as (_ & s0 & Hs0 & Hid).
  congruence.
Qed.

Lemma X11_witness :
  let f := [0xFD; 0xE2; 0x12; 0x34; 0x77; 0x1F; 0x40; 0; 0; 0; 0; 0; 0] in
  exists (st' st'' : rx_state) (msg : list Z) (resp' : option (list Z))
         (h : TWC.M unit) (g' : TWC.globals) (a : nat) (s : TWC.TWCSlave),
    rx_drain rx_initial
      (([0xc0] ++ slip_escape (f ++ [sum8_tail f]) ++ [0xc0]) ++ [0xFE])
    = (st', Some [0xFE])
    /\ rx_frame st' (TWC.lastTWCResponseMsg Examples.one_slave)
       = Ok (st'', resp', RxAccepted, msg)
    /\ TWC.on_frame_as_master Examples.cfg40 2 (Examples.at_time 2) msg
       = Some h
    /\ h Examples.one_slave = (Ok tt, g')
    /\ TWC.registry_inv g'
    /\ TWC.slaveTWCs g' !! [0x12; 0x34] = Some a
    /\ TWC.heap g' !! a = Some s
    /\ TWC.TWCID s = [0x12; 0x34].
Proof.
  cbv zeta.
  apply (X11_linkready_on_wire_registers Examples.cfg40 2
           (Examples.at_time 2) rx_initial Examples.one_slave
           0x12 0x34 0x77 0x1F 0x40 _ [0xFE]).
  - apply one_slave_inv.
  - vm_compute. discriminate.
  - reflexivity.
  - apply send_msg_wire.
Defined.

End RxFacts.

(** ** More on the registry and the periodic pass *)

Section BusMore.

Import TWC.
Local Open Scope twc_scope.

Lemma omap_NoDup {A B} (f : A -> option B) (l : list A) :
  NoDup l ->
  (forall a b x, a ∈ l -> b ∈ l -> f a = Some x -> f b = Some x -> a = b) ->
  NoDup (omap f l).
Proof.
  induction 1 as [|a l Ha Hnd IH]; intros Hinj; [constructor|].
  simpl. destruct (f a) as [x|] eqn:Hfa.
  - constructor.
    + intros Hin. apply list_elem_of_omap in Hin as (b & Hb & Hfb).
      assert (a = b).
      { eapply Hinj; eauto; [left|right; exact Hb]. }
      subst. contradiction.
    + apply IH. intros a0 b0 x0 Ha0 Hb0. apply Hinj; right; assumption.
  - apply IH. intros a0 b0 x0 Ha0 Hb0. apply Hinj; right; assumption.
Qed.

Lemma ids_in_order_NoDup (g : globals) :
  registry_wf g -> NoDup (ids_in_order g).
Proof.
  intros Hwf. unfold ids_in_order. apply omap_NoDup; [apply Hwf|].
  intros a b x Ha Hb Hfa Hfb.
  destruct (heap g !! a) as [sa|] eqn:Hsa; [|discriminate].
  destruct (heap g !! b) as [sb|] eqn:Hsb; [|discriminate].
  simpl in *. eapply (wf_unique_id g a b sa sb); eauto. congruence.
Qed.

Lemma ids_in_order_length (g : globals) :
  registry_wf g -> length (ids_in_order g) = length (slaveTWCRoundRobin g).
Proof.
  intros Hwf. unfold ids_in_order.
  pose proof (wf_closed g Hwf) as Hclosed.
  induction (slaveTWCRoundRobin g) as [|a l IH]; [reflexivity|].
  simpl. destruct (Hclosed a ltac:(left)) as [s Hs]. rewrite Hs.
  simpl. f_equal. apply IH. intros x Hx. apply Hclosed. right. exact Hx.
Qed.

(** X12. In every state the modelled steps of the main loop reach from
    the initial values of the globals (periodic passes, handled slave
    link-ready frames, web requests, with any clock readings and any
    frame contents), the dictionary and the round-robin list hold the
    same sessions, no more than three, each id once, and the heartbeat
    cursor is inside the list or 0. *)
Theorem X12_reachable_registry (cfg : config) (g : globals) :
  Run.reachable cfg g ->
  registry_inv g
  /\ cursor_ok g
  /\ NoDup (ids_in_order g)
  /\ length (ids_in_order g) = length (slaveTWCRoundRobin g).
Proof.
  intros Hreach. destruct (reachable_inv cfg g Hreach) as [Hinv Hcur].
  split; [exact Hinv|]. split; [exact Hcur|].
  split; [apply ids_in_order_NoDup, Hinv|apply ids_in_order_length, Hinv].
Qed.

Lemma X12_witness :
  registry_inv Examples.three_slaves
  /\ cursor_ok Examples.three_slaves
  /\ NoDup (ids_in_order Examples.three_slaves)
  /\ length (ids_in_order Examples.three_slaves)
     = length (slaveTWCRoundRobin Examples.three_slaves).
Proof.
  apply (X12_reachable_registry Examples.cfg40), three_slaves_reachable.
Defined.

(** X13. In master mode the periodic part of a pass never raises in a
    reachable state, whatever the clock readings are: in particular
    [slaveTWCRoundRobin[idxSlaveToSendNextHeartbeat]] is always inside
    the list. *)
Theorem X13_master_pass_returns (cfg : config) (clk : clock) (g : globals) :
  Run.reachable cfg g ->
  fakeMaster cfg = 1%Z ->
  exists g', tick cfg clk g = (Ok tt, g') /\ Run.reachable cfg g'.
Proof.
  intros Hreach Hmaster.
  pose proof (tick_master_returns cfg clk g Hreach Hmaster) as Hok.
  exists (snd (tick cfg clk g)). split.
  - destruct (tick cfg clk g) as [r g']. simpl in *. congruence.
  - apply Run.reach_tick, Hreach.
Qed.

Lemma X13_witness :
  exists g',
    tick Examples.cfg40 (Examples.at_time 500) Examples.three_slaves
    = (Ok tt, g')
    /\ Run.reachable Examples.cfg40 g'.
Proof.
  apply X13_master_pass_returns; [apply three_slaves_reachable|reflexivity].
Defined.

(** The pass that reaches [heartbeat_or_evict] with a session at the
    cursor, written out. *)
Lemma tick_at_cursor (cfg : config) (clk : clock) (g : globals) (a : nat)
    (s : TWCSlave) :
  fakeMaster cfg = 1%Z ->
  (numInitMsgsToSend g <= 0)%Z ->
  (1 <= tTxCheck clk - timeLastTx g)%Q ->
  slaveTWCRoundRobin g !! idxSlaveToSendNextHeartbeat g = Some a ->
  heap g !! a = Some s ->
  tick cfg clk g
  = (Ok tt,
     let g2 :=
       if Qgtb (tRxCheck clk - timeLastRx s) 26 then
         set_slaveTWCs (delete (TWCID s))
           (set_slaveTWCRoundRobin (del_first (heap g) (TWCID s))
              (set_trace (fun t => t ++ [WarnSilentSlave (TWCID s)]) g))
       else
         set_timeLastTx (tSent clk)
           (set_trace (fun t => t ++ [SendMasterHeartbeat a (TWCID s)]) g) in
     let g3 := set_idx (idxSlaveToSendNextHeartbeat g + 1) g2 in
     if decide (length (slaveTWCRoundRobin g3)
                <= idxSlaveToSendNextHeartbeat g3)
     then set_idx 0 g3 else g3).
Proof.
  intros Hmaster Hinit Htx Hcur Hs.
  unfold tick. rewrite decide_True by exact Hmaster.
  unfold mbind at 1, gets at 1.
  rewrite decide_False by lia. rewrite decide_False by lia.
  unfold mbind at 1, gets at 1.
  apply Qgeb_true in Htx. rewrite Htx.
  unfold heartbeat_or_evict. unfold mbind at 1, gets at 1.
  rewrite decide_True by (apply lookup_lt_Some in Hcur; lia).
  unfold mbind at 1, gets at 1. rewrite Hcur.
  rewrite (mbind_ok _ _ g g s (deref_ok a s g Hs)).
  destruct (Qgtb (tRxCheck clk - timeLastRx s) 26).
  - unfold delete_slave, emit, mbind, gets, modify, ret. cbn.
    destruct (decide _); reflexivity.
  - unfold send_master_heartbeat.
    rewrite mbind_assoc.
    rewrite (mbind_ok _ _ g g s (deref_ok a s g Hs)).
    unfold emit, mbind, gets, modify, ret. cbn.
    destruct (decide _); reflexivity.
Qed.

(** X14. The heartbeat round robin.  In master mode, once the
    start-up burst is over and a second has passed since the last
    transmission, a pass whose cursor is on a session heard from within
    the last 26 seconds sends the heartbeat to that session and to no
    other, leaves the registry as it is, records the transmission time
    and moves the cursor to the next session, wrapping to the first
    behind the last. *)
Theorem X14_heartbeat_round_robin (cfg : config) (clk : clock)
    (g : globals) (a : nat) (s : TWCSlave) :
  fakeMaster cfg = 1%Z ->
  (numInitMsgsToSend g <= 0)%Z ->
  (1 <= tTxCheck clk - timeLastTx g)%Q ->
  slaveTWCRoundRobin g !! idxSlaveToSendNextHeartbeat g = Some a ->
  heap g !! a = Some s ->
  (tRxCheck clk - timeLastRx s <= 26)%Q ->
  exists g',
    tick cfg clk g = (Ok tt, g')
    /\ new_events g g' = [SendMasterHeartbeat a (TWCID s)]
    /\ heap g' = heap g
    /\ slaveTWCs g' = slaveTWCs g
    /\ slaveTWCRoundRobin g' = slaveTWCRoundRobin g
    /\ idxSlaveToSendNextHeartbeat g'
       = (idxSlaveToSendNextHeartbeat g + 1) mod length (slaveTWCRoundRobin g)
    /\ timeLastTx g' = tSent clk.
Proof.
  intros Hmaster Hinit Htx Hcur Hs Hheard.
  rewrite (tick_at_cursor cfg clk g a s Hmaster Hinit Htx Hcur Hs).
  assert (Hq : Qgtb (tRxCheck clk - timeLastRx s) 26 = false).
  { unfold Qgtb. apply negb_false_iff, Qle_bool_iff, Hheard. }
  rewrite Hq. cbv zeta.
  apply lookup_lt_Some in Hcur.
  eexists. split; [reflexivity|].
  cbn [set_idx set_timeLastTx set_trace slaveTWCRoundRobin
       idxSlaveToSendNextHeartbeat].
  destruct (decide _) as [Hwrap|Hnext];
    cbn [set_idx set_timeLastTx set_trace slaveTWCRoundRobin
         idxSlaveToSendNextHeartbeat heap slaveTWCs timeLastTx].
  - split; [apply new_events_app; reflexivity|].
    repeat (split; [reflexivity|]). split; [|reflexivity].
    replace (idxSlaveToSendNextHeartbeat g + 1)
      with (length (slaveTWCRoundRobin g)) by lia.
    symmetry. apply Nat.Div0.mod_same.
  - split; [apply new_events_app; reflexivity|].
    repeat (split; [reflexivity|]). split; [|reflexivity].
    symmetry. apply Nat.mod_small. lia.
Qed.

Lemma X14_witness :
  exists g',
    tick Examples.cfg40 (Examples.at_time 20) Examples.one_slave = (Ok tt, g')
    /\ new_events Examples.one_slave g'
       = [SendMasterHeartbeat 0 Examples.idA]
    /\ heap g' = heap Examples.one_slave
    /\ slaveTWCs g' = slaveTWCs Examples.one_slave
    /\ slaveTWCRoundRobin g' = slaveTWCRoundRobin Examples.one_slave
    /\ idxSlaveToSendNextHeartbeat g'
       = (idxSlaveToSendNextHeartbeat Examples.one_slave + 1)
         mod length (slaveTWCRoundRobin Examples.one_slave)
    /\ timeLastTx g' = tSent (Examples.at_time 20).
Proof.
  refine (X14_heartbeat_round_robin Examples.cfg40 (Examples.at_time 20)
            Examples.one_slave 0
            (mkTWCSlave Examples.idA (8000 # 100) 1 5 40 1 0 0 0 [])
            _ _ _ _ _ _).
  - reflexivity.
  - vm_compute. discriminate.
  - vm_compute. discriminate.
  - vm_compute. reflexivity.
  - vm_compute. reflexivity.
  - vm_compute. discriminate.
Defined.

(** With one session per id, [del_first] removes the entry at the
    position of the session that carries the id. *)
Lemma del_first_at (h : gmap nat TWCSlave) (l : list nat) (idx a : nat)
    (s : TWCSlave) :
  NoDup l ->
  (forall x y sx sy, x ∈ l -> y ∈ l -> h !! x = Some sx -> h !! y = Some sy ->
                     TWCID sx = TWCID sy -> x = y) ->
  (forall x, x ∈ l -> is_Some (h !! x)) ->
  l !! idx = Some a -> h !! a = Some s ->
  del_first h (TWCID s) l = delete idx l.
Proof.
  revert idx. induction l as [|b l IH]; intros idx Hnd Huniq Hclosed Hl Hs;
    [discriminate|].
  destruct idx as [|idx]; cbn [del_first].
  - injection Hl as ->. rewrite Hs. rewrite decide_True by reflexivity.
    reflexivity.
  - cbn in Hl. apply NoDup_cons in Hnd as [Hb Hnd].
    assert (Ha : a ∈ l) by (eapply list_elem_of_lookup_2; exact Hl).
    destruct (Hclosed b ltac:(left)) as [sb Hsb]. rewrite Hsb.
    rewrite decide_False.
    + cbn. f_equal. apply IH; auto.
      * intros x y sx sy Hx Hy. apply Huniq; right; assumption.
      * intros x Hx. apply Hclosed. right. exact Hx.
    + intros Hid.
      assert (b = a).
      { eapply (Huniq b a sb s); eauto; [left|right; exact Ha]. }
      subst. contradiction.
Qed.

(** X15. Eviction and the cursor.  The pass that evicts the session
    at the cursor removes exactly that position from the round-robin
    list and then still advances the cursor: it moves on by one if that
    is inside the shortened list and goes back to 0 otherwise.  So
    when the list held three sessions and the evicted one was not the
    last, the session that stood behind it is not the one at the cursor
    afterwards: it is passed over in this round. *)
Theorem X15_eviction_skips_neighbour (cfg : config) (clk : clock)
    (g : globals) (a : nat) (s : TWCSlave) :
  registry_wf g ->
  fakeMaster cfg = 1%Z ->
  (numInitMsgsToSend g <= 0)%Z ->
  (1 <= tTxCheck clk - timeLastTx g)%Q ->
  slaveTWCRoundRobin g !! idxSlaveToSendNextHeartbeat g = Some a ->
  heap g !! a = Some s ->
  (26 < tRxCheck clk - timeLastRx s)%Q ->
  exists g',
    tick cfg clk g = (Ok tt, g')
    /\ slaveTWCRoundRobin g'
       = delete (idxSlaveToSendNextHeartbeat g) (slaveTWCRoundRobin g)
    /\ idxSlaveToSendNextHeartbeat g'
       = (if decide (idxSlaveToSendNextHeartbeat g + 1
                     < length (slaveTWCRoundRobin g) - 1)
          then idxSlaveToSendNextHeartbeat g + 1 else 0)
    /\ (forall b,
          3 <= length (slaveTWCRoundRobin g) ->
          slaveTWCRoundRobin g !! (idxSlaveToSendNextHeartbeat g + 1)
          = Some b ->
          slaveTWCRoundRobin g' !! idxSlaveToSendNextHeartbeat g' <> Some b).
Proof.
  intros Hwf Hmaster Hinit Htx Hcur Hs Hsilent.
  rewrite (tick_at_cursor cfg clk g a s Hmaster Hinit Htx Hcur Hs).
  apply Qgtb_true in Hsilent. rewrite Hsilent. cbv zeta.
  cbn [set_idx set_slaveTWCs set_slaveTWCRoundRobin set_trace
       slaveTWCRoundRobin idxSlaveToSendNextHeartbeat].
  set (idx := idxSlaveToSendNextHeartbeat g) in *.
  set (rr := slaveTWCRoundRobin g) in *.
  assert (Hdel : del_first (heap g) (TWCID s) rr = delete idx rr).
  { apply (del_first_at (heap g) rr idx a s); auto.
    - apply Hwf.
    - intros x y sx sy. apply (wf_unique_id g x y sx sy Hwf).
    - apply Hwf. }
  assert (Hlt : idx < length rr) by (eapply lookup_lt_Some; exact Hcur).
  assert (Hlen : length (delete idx rr) = length rr - 1).
  { rewrite length_delete by eauto. reflexivity. }
  assert (Hnd : NoDup rr) by apply Hwf.
  rewrite Hdel, Hlen.
  destruct (decide (length rr - 1 <= idx + 1)) as [Hwrap|Hnext];
    (eexists; split; [reflexivity|]);
    cbn [set_idx set_slaveTWCs set_slaveTWCRoundRobin set_trace
         slaveTWCRoundRobin idxSlaveToSendNextHeartbeat];
    change (slaveTWCRoundRobin g) with rr;
    change (idxSlaveToSendNextHeartbeat g) with idx;
    rewrite Hdel.
  - split; [reflexivity|]. split; [rewrite decide_False by lia; reflexivity|].
    intros b H3 Hb.
    assert (Hb' : idx + 1 < length rr) by (eapply lookup_lt_Some; exact Hb).
    rewrite list_lookup_delete_lt by lia.
    intros H0.
    assert (Heq : 0 = idx + 1) by (eapply (NoDup_lookup rr); eauto).
    lia.
  - split; [reflexivity|]. split; [rewrite decide_True by lia; reflexivity|].
    intros b H3 Hb.
    rewrite list_lookup_delete_ge by lia.
    intros H2.
    assert (Heq : S (idx + 1) = idx + 1) by (eapply (NoDup_lookup rr); eauto).
    lia.
Qed.

Lemma X15_witness :
  exists g',
    tick Examples.cfg40 (Examples.at_time 130) Examples.three_slaves
    = (Ok tt, g')
    /\ slaveTWCRoundRobin g' = [1; 2]
    /\ idxSlaveToSendNextHeartbeat g' = 1
    /\ slaveTWCRoundRobin g' !! idxSlaveToSendNextHeartbeat g' <> Some 1.
Proof.
  destruct (heap Examples.three_slaves !! 0) as [s|] eqn:Hs;
    [|vm_compute in Hs; discriminate].
  destruct (X15_eviction_skips_neighbour Examples.cfg40
              (Examples.at_time 130) Examples.three_slaves 0 s)
    as (g' & Hrun & Hrr & Hidx & Hskip).
  - apply three_slaves_inv.
  - reflexivity.
  - vm_compute. discriminate.
  - vm_compute. discriminate.
  - vm_compute. reflexivity.
  - exact Hs.
  - vm_compute in Hs. injection Hs as <-. vm_compute. reflexivity.
  - exists g'. split; [exact Hrun|].
    split; [rewrite Hrr; vm_compute; reflexivity|].
    split; [rewrite Hidx; vm_compute; reflexivity|].
    apply Hskip; vm_compute; [lia|reflexivity].
Defined.

Lemma filter_all {A} (P : A -> Prop) `{!forall x, Decision (P x)}
    (l : list A) :
  (forall x, x ∈ l -> P x) -> filter P l = l.
Proof.
  induction l as [|x l IH]; intros Hall; [reflexivity|].
  rewrite filter_cons_True by (apply Hall; left).
  f_equal. apply IH. intros y Hy. apply Hall. right. exact Hy.
Qed.

Lemma del_first_ids (h : gmap nat TWCSlave) (i : list Z) (l : list nat) :
  NoDup l ->
  (forall x y sx sy, x ∈ l -> y ∈ l -> h !! x = Some sx -> h !! y = Some sy ->
                     TWCID sx = TWCID sy -> x = y) ->
  omap (fun a => TWCID <$> h !! a) (del_first h i l)
  = filter (fun j => j <> i) (omap (fun a => TWCID <$> h !! a) l).
Proof.
  induction l as [|a l IH]; intros Hnd Huniq; [reflexivity|].
  apply NoDup_cons in Hnd as [Ha Hnd].
  assert (IH' : omap (fun a => TWCID <$> h !! a) (del_first h i l)
                = filter (fun j => j <> i)
                         (omap (fun a => TWCID <$> h !! a) l)).
  { apply IH; [exact Hnd|].
    intros x y sx sy Hx Hy. apply Huniq; right; assumption. }
  cbn [del_first]. destruct (h !! a) as [s|] eqn:Hs.
  - destruct (decide (TWCID s = i)) as [Hid|Hid].
    + simpl. rewrite Hs. simpl.
      rewrite filter_cons_False by (intros H; apply H; exact Hid).
      symmetry. apply filter_all.
      intros j Hj Hji. apply list_elem_of_omap in Hj as (b & Hb & Hfb).
      destruct (h !! b) as [sb|] eqn:Hsb; [|discriminate].
      simpl in Hfb. injection Hfb as Hfb.
      assert (a = b).
      { eapply (Huniq a b s sb); eauto; [left|right; exact Hb|congruence]. }
      subst. contradiction.
    + simpl. rewrite Hs. simpl.
      rewrite filter_cons_True by exact Hid.
      f_equal. exact IH'.
  - simpl. rewrite Hs. simpl. exact IH'.
Qed.

Lemma del_first_absent (h : gmap nat TWCSlave) (i : list Z) (l : list nat) :
  (forall a s, a ∈ l -> h !! a = Some s -> TWCID s <> i) ->
  del_first h i l = l.
Proof.
  induction l as [|a l IH]; intros Hno; [reflexivity|].
  cbn [del_first].
  assert (IH' : del_first h i l = l).
  { apply IH. intros b sb Hb. apply Hno. right. exact Hb. }
  destruct (h !! a) as [s|] eqn:Hs; [|rewrite IH'; reflexivity].
  rewrite decide_False by (apply (Hno a s); [left|exact Hs]).
  rewrite IH'. reflexivity.
Qed.

(** X16. [delete_slave] never raises.  It takes the session with the
    given id out of the dictionary and out of the round-robin list and
    leaves every other session where it was: the ids in round-robin
    order are the old ones without the deleted id, and every other
    id still maps to the same object.  For an id that is not registered
    it changes nothing. *)
Theorem X16_delete_slave_keeps_others (i : list Z) (g : globals) :
  registry_wf g ->
  exists g',
    delete_slave i g = (Ok tt, g')
    /\ registry_wf g'
    /\ heap g' = heap g
    /\ ids_in_order g' = filter (fun j => j <> i) (ids_in_order g)
    /\ slaveTWCs g' !! i = None
    /\ (forall j, j <> i -> slaveTWCs g' !! j = slaveTWCs g !! j)
    /\ (slaveTWCs g !! i = None ->
        slaveTWCRoundRobin g' = slaveTWCRoundRobin g
        /\ slaveTWCs g' = slaveTWCs g).
Proof.
  intros Hwf.
  destruct (delete_slave_wf i g Hwf)
    as (g' & Hrun & Hwf' & Hheap & _ & Hdict & Hrr).
  exists g'. split; [exact Hrun|]. split; [exact Hwf'|].
  split; [exact Hheap|].
  split; [|split; [|split]].
  - unfold ids_in_order. rewrite Hheap, Hrr.
    apply del_first_ids; [apply Hwf|].
    intros x y sx sy. apply (wf_unique_id g x y sx sy Hwf).
  - rewrite Hdict. apply lookup_delete_eq.
  - intros j Hj. rewrite Hdict. apply lookup_delete_ne. congruence.
  - intros Hnone. split.
    + rewrite Hrr. apply del_first_absent.
      intros a s Ha Hs Hid.
      assert (Hreg : slaveTWCs g !! i = Some a)
        by (apply (wf_same g Hwf); eauto).
      congruence.
    + rewrite Hdict. apply delete_id, Hnone.
Qed.

Lemma X16_witness :
  exists g',
    delete_slave Examples.idB Examples.three_slaves = (Ok tt, g')
    /\ ids_in_order g' = [Examples.idA; Examples.idC].
Proof.
  destruct (X16_delete_slave_keeps_others Examples.idB Examples.three_slaves
              (proj1 three_slaves_inv))
    as (g' & Hrun & _ & _ & Hids & _).
  exists g'. split; [exact Hrun|].
  rewrite Hids. vm_compute. reflexivity.
Defined.

Local Ltac drf' H :=
  match goal with
  | |- context [mbind (deref ?a) ?k ?g] =>
      match type of H with
      | heap g !! a = Some ?s =>
          rewrite (mbind_ok (deref a) k g g s (deref_ok a s g H))
      end
  end.

Local Ltac upd' H Hnew :=
  match goal with
  | |- context [mbind (update ?a ?f) ?k ?g] =>
      match type of H with
      | heap g !! a = Some ?s =>
          rewrite (mbind_ok (update a f) k g _ tt (update_ok a f s g H));
          assert (Hnew : heap (set_heap (insert a (f s)) g) !! a
                         = Some (f s)) by apply lookup_insert_eq
      end
  end.

Lemma link_session_protocol (now : Q) (clk : clock) (msg : list Z) (adv : Q)
    (a : nat) (s : TWCSlave) (g : globals) :
  heap g !! a = Some s ->
  exists g' s',
    link_session now clk msg adv a g = (Ok tt, g')
    /\ heap g' !! a = Some s'
    /\ (protocolVersion s', minAmpsTWCSupports s')
       = (if decide (protocolVersion s = 1%Z /\ minAmpsTWCSupports s = 6%Z)
          then
            if decide (length msg = 14) then (1, 5)%Z
            else if decide (length msg = 16) then (2, 6)%Z
            else (1, 6)%Z
          else (protocolVersion s, minAmpsTWCSupports s)).
Proof.
  intros Hs. unfold link_session.
  drf' Hs.
  assert (Hproto : exists s2,
             (protocolVersion s2, minAmpsTWCSupports s2)
             = (if decide (protocolVersion s = 1%Z /\ minAmpsTWCSupports s = 6%Z)
          then
            if decide (length msg = 14) then (1, 5)%Z
            else if decide (length msg = 16) then (2, 6)%Z
            else (1, 6)%Z
          else (protocolVersion s, minAmpsTWCSupports s))
             /\ forall k : unit -> M unit,
                 mbind
                   (if decide (protocolVersion s = 1%Z
                               /\ minAmpsTWCSupports s = 6%Z)
                    then
                      if decide (length msg = 14%nat)
                      then update a (set_protocol 1 5)
                      else if decide (length msg = 16%nat)
                           then update a (set_protocol 2 6)
                           else ret tt
                    else ret tt) k g
                 = k tt (set_heap (insert a s2) g)).
  { assert (Hid : set_heap (insert a s) g = g).
    { destruct g; unfold set_heap; simpl in *.
      rewrite (insert_id _ _ _ Hs). reflexivity. }
    destruct (decide (protocolVersion s = 1%Z /\ minAmpsTWCSupports s = 6%Z))
      as [[Hp Hm]|Hno].
    - destruct (decide (length msg = 14)).
      + exists (set_protocol 1 5 s). split; [reflexivity|].
        intros k. upd' Hs Hs2. reflexivity.
      + destruct (decide (length msg = 16)).
        * exists (set_protocol 2 6 s). split; [reflexivity|].
          intros k. upd' Hs Hs2. reflexivity.
        * exists s. split; [rewrite Hp, Hm; reflexivity|].
          intros k. rewrite Hid. reflexivity.
    - exists s. split; [reflexivity|]. intros k. rewrite Hid. reflexivity. }
  destruct Hproto as (s2 & Hp2 & Hrun2). rewrite Hrun2.
  set (g2 := set_heap (insert a s2) g).
  assert (Hs2 : heap g2 !! a = Some s2) by apply lookup_insert_eq.
  drf' Hs2.
  destruct (Qgtb (wiringMaxAmps s2) adv).
  - rewrite mbind_assoc.
    rewrite (mbind_ok (emit (WarnDanger adv)) _ g2 _ tt eq_refl).
    set (g3 := set_trace _ g2).
    assert (Hs3 : heap g3 !! a = Some s2) by exact Hs2.
    upd' Hs3 Hs4. upd' Hs4 Hs5. upd' Hs5 Hs6.
    unfold send_master_heartbeat. drf' Hs6.
    eexists _, _. split; [reflexivity|]. split; [exact Hs6|exact Hp2].
  - rewrite (mbind_ok (ret tt) _ g2 g2 tt eq_refl).
    upd' Hs2 Hs4. upd' Hs4 Hs5.
    unfold send_master_heartbeat. drf' Hs5.
    eexists _, _. split; [reflexivity|]. split; [exact Hs5|exact Hp2].
Qed.

(** X17. The protocol version of a session is decided once.  A slave
    link-ready from a registered id other than our own returns; if the
    session has protocol version 1 with [minAmpsTWCSupports] 6, the
    pair the handler tests for, a 14-byte message makes it version 1
    with a minimum of 5 A and a 16-byte message version 2 with a
    minimum of 6 A; a session with any other pair keeps it, whatever
    the length of the message. *)
Theorem X17_protocol_version_decided_once (cfg : config) (now : Q)
    (clk : clock) (msg senderID sign grp3 : list Z) (g : globals) (a : nat)
    (s : TWCSlave) :
  senderID <> fakeTWCID g ->
  slaveTWCs g !! senderID = Some a ->
  heap g !! a = Some s ->
  exists g' s',
    slave_linkready cfg now clk msg senderID sign grp3 g = (Ok tt, g')
    /\ slaveTWCs g' !! senderID = Some a
    /\ heap g' !! a = Some s'
    /\ (protocolVersion s = 1%Z /\ minAmpsTWCSupports s = 6%Z ->
        (length msg = 14 ->
         protocolVersion s' = 1%Z /\ minAmpsTWCSupports s' = 5%Z)
        /\ (length msg = 16 ->
            protocolVersion s' = 2%Z /\ minAmpsTWCSupports s' = 6%Z))
    /\ (~ (protocolVersion s = 1%Z /\ minAmpsTWCSupports s = 6%Z) ->
        protocolVersion s' = protocolVersion s
        /\ minAmpsTWCSupports s' = minAmpsTWCSupports s).
Proof.
  intros Hother Hreg Hs. unfold slave_linkready.
  set (adv := advertised_maxAmps grp3).
  rewrite (mbind_ok (modify (set_spike _)) _ g _ tt eq_refl).
  set (g0 := set_spike (if Qgeb adv 80 then 21 else 16)%Z g).
  rewrite (mbind_ok (gets fakeTWCID) _ g0 g0 (fakeTWCID g) eq_refl).
  rewrite decide_False by exact Hother.
  rewrite (mbind_ok _ _ g0 g0 a (new_slave_known cfg now senderID adv g0 a Hreg)).
  destruct (link_session_protocol now clk msg adv a s g0 Hs)
    as (g' & s' & Hrun & Hs' & Hp).
  destruct (link_session_wiring now clk msg adv a s g0 Hs)
    as (g'' & s'' & Hrun' & _ & Hd & _).
  assert (g'' = g') by congruence. subst g''.
  exists g', s'. split; [exact Hrun|]. split; [rewrite Hd; exact Hreg|].
  split; [exact Hs'|]. split.
  - intros Hinit. rewrite decide_True in Hp by exact Hinit. split.
    + intros H14. rewrite decide_True in Hp by exact H14.
      injection Hp as -> ->. split; reflexivity.
    + intros H16. rewrite decide_False in Hp by lia.
      rewrite decide_True in Hp by exact H16.
      injection Hp as -> ->. split; reflexivity.
  - intros Hno. rewrite decide_False in Hp by exact Hno.
    injection Hp as -> ->. split; reflexivity.
Qed.

Lemma X17_witness :
  exists g' s',
    slave_linkready Examples.cfg40 50 (Examples.at_time 50)
      (Examples.linkready_A80 ++ [0; 0]%Z) Examples.idA [0x77]%Z
      [0x1F; 0x40]%Z Examples.one_slave = (Ok tt, g')
    /\ heap g' !! 0 = Some s'
    /\ protocolVersion s' = 1%Z
    /\ minAmpsTWCSupports s' = 5%Z.
Proof.
  destruct (X17_protocol_version_decided_once Examples.cfg40 50
              (Examples.at_time 50) (Examples.linkready_A80 ++ [0; 0]%Z)
              Examples.idA [0x77]%Z [0x1F; 0x40]%Z Examples.one_slave 0
              (mkTWCSlave Examples.idA (8000 # 100) 1 5 40 1 0 0 0 []))
    as (g' & s' & Hrun & _ & Hs' & _ & Hkeep).
  - vm_compute. discriminate.
  - vm_compute. reflexivity.
  - vm_compute. reflexivity.
  - exists g', s'. split; [exact Hrun|]. split; [exact Hs'|].
    apply Hkeep. vm_compute. intros [_ H]. discriminate H.
Defined.

(** Once the start-up burst is over, a pass in master mode writes no
    frame of its own to the serial port: all it sends is a heartbeat
    through the session at the cursor. *)
Lemma tick_no_linkready (cfg : config) (clk : clock) (g : globals)
    (wire : list Z) :
  fakeMaster cfg = 1%Z ->
  (numInitMsgsToSend g <= 0)%Z ->
  SerWrite wire ∉ new_events g (snd (tick cfg clk g)).
Proof.
  intros Hmaster Hinit.
  assert (Hnone : forall g' evs,
             trace g' = trace g ++ evs ->
             (forall w, SerWrite w ∉ evs) ->
             SerWrite wire ∉ new_events g g').
  { intros g' evs Htr Hall. rewrite (new_events_app g g' evs Htr).
    apply Hall. }
  unfold tick. rewrite decide_True by exact Hmaster.
  unfold mbind at 1, gets at 1.
  rewrite decide_False by lia. rewrite decide_False by lia.
  unfold heartbeat_or_evict, send_master_heartbeat, delete_slave, deref,
    emit, mbind, gets, modify, ret, raise.
  repeat case_match; simplify_eq; simpl;
    first [ apply (Hnone _ []);
            [simpl; rewrite app_nil_r; reflexivity
            |intros w Hw; inversion Hw]
          | eapply Hnone; [simpl; reflexivity|];
            intros w Hw; apply list_elem_of_singleton in Hw; discriminate Hw ].
Qed.

(** X18. A slave link-ready that carries our own id.  The handler
    raises [TypeError] at the [print] of the conflict, before
    [numInitMsgsToSend = 10] is reached: nothing is registered, the
    counter keeps its value, and with the start-up burst over the
    next pass writes none of the link-ready frames that were to answer
    the conflict. *)
Theorem X18_id_conflict_not_answered (cfg : config) (now : Q) (clk : clock)
    (msg senderID sign grp3 : list Z) (g : globals) :
  fakeMaster cfg = 1%Z ->
  match_slave_linkready msg = Some (senderID, sign, grp3) ->
  senderID = fakeTWCID g ->
  (numInitMsgsToSend g <= 0)%Z ->
  exists h g1,
    on_frame_as_master cfg now clk msg = Some h
    /\ h g = (Raise TypeError, g1)
    /\ numInitMsgsToSend g1 = numInitMsgsToSend g
    /\ slaveTWCs g1 = slaveTWCs g
    /\ slaveTWCRoundRobin g1 = slaveTWCRoundRobin g
    /\ trace g1 = trace g
    /\ (forall clk2 wire,
          SerWrite wire ∉ new_events g1 (snd (tick cfg clk2 g1))).
Proof.
  intros Hmaster Hmatch Hown Hinit.
  unfold on_frame_as_master. rewrite Hmatch.
  eexists _, _. split; [reflexivity|].
  unfold slave_linkready.
  rewrite (mbind_ok (modify (set_spike _)) _ g _ tt eq_refl).
  set (g0 := set_spike _ g).
  rewrite (mbind_ok (gets fakeTWCID) _ g0 g0 (fakeTWCID g) eq_refl).
  rewrite decide_True by exact Hown.
  split; [reflexivity|].
  repeat (split; [reflexivity|]).
  intros clk2 wire. apply tick_no_linkready; assumption.
Qed.

Lemma X18_witness :
  exists h g1,
    on_frame_as_master Examples.cfg40 5 (Examples.at_time 5)
      (Examples.linkready_from 0x77 0x77 0x1F 0x40) = Some h
    /\ h Examples.booted = (Raise TypeError, g1)
    /\ numInitMsgsToSend g1 = numInitMsgsToSend Examples.booted
    /\ slaveTWCs g1 = slaveTWCs Examples.booted
    /\ slaveTWCRoundRobin g1 = slaveTWCRoundRobin Examples.booted
    /\ trace g1 = trace Examples.booted
    /\ (forall clk2 wire,
          SerWrite wire
          ∉ new_events g1 (snd (tick Examples.cfg40 clk2 g1))).
Proof.
  apply (X18_id_conflict_not_answered Examples.cfg40 5 (Examples.at_time 5)
           (Examples.linkready_from 0x77 0x77 0x1F 0x40)
           [0x77; 0x77]%Z [0x77]%Z [0x1F; 0x40]%Z Examples.booted).
  - reflexivity.
  - vm_compute. reflexivity.
  - vm_compute. reflexivity.
  - vm_compute. discriminate.
Defined.

(** One pass of the start-up burst. *)
Lemma tick_startup (cfg : config) (clk : clock) (g : globals)
    (lr1 lr2 : list Z) :
  fakeMaster cfg = 1%Z ->
  (0 < numInitMsgsToSend g)%Z ->
  Codec.send_msg ([0xFC; 0xE1]%Z ++ fakeTWCID g ++ masterSign g ++ zeros8)
  = Ok lr1 ->
  Codec.send_msg ([0xFB; 0xE2]%Z ++ fakeTWCID g ++ masterSign g ++ zeros8)
  = Ok lr2 ->
  tick cfg clk g
  = (Ok tt,
     set_numInitMsgsToSend (numInitMsgsToSend g - 1)
       (set_timeLastTx (tSent clk)
          (set_trace
             (fun t => t ++ [SerWrite (if decide (5 < numInitMsgsToSend g)%Z
                                       then lr1 else lr2)]) g))).
Proof.
  intros Hmaster Hinit H1 H2.
  unfold tick. rewrite decide_True by exact Hmaster.
  unfold mbind at 1, gets at 1.
  destruct (decide (5 < numInitMsgsToSend g)%Z).
  - unfold send_master_linkready1, send_msg, lift, emit, mbind, gets,
      modify, ret, id. cbv beta iota. rewrite H1. reflexivity.
  - rewrite decide_True by exact Hinit.
    unfold send_master_linkready2, send_msg, lift, emit, mbind, gets,
      modify, ret, id. cbv beta iota. rewrite H2. reflexivity.
Qed.

(** X19. The start-up burst in master mode.  With [numInitMsgsToSend]
    at [n], the next [n] passes each write one frame, whatever the
    clock readings: link-ready 1 while the counter is above 5, then
    link-ready 2; they leave the counter at 0 and do not touch the
    registry or the heartbeat cursor, and no heartbeat is sent in
    between. *)
Theorem X19_startup_burst (cfg : config) (clks : list clock) (g : globals)
    (lr1 lr2 : list Z) :
  fakeMaster cfg = 1%Z ->
  numInitMsgsToSend g = Z.of_nat (length clks) ->
  Codec.send_msg ([0xFC; 0xE1]%Z ++ fakeTWCID g ++ masterSign g ++ zeros8)
  = Ok lr1 ->
  Codec.send_msg ([0xFB; 0xE2]%Z ++ fakeTWCID g ++ masterSign g ++ zeros8)
  = Ok lr2 ->
  let g' := fold_left (fun g clk => snd (tick cfg clk g)) clks g in
  numInitMsgsToSend g' = 0%Z
  /\ trace g'
     = trace g
       ++ replicate (length clks - 5) (SerWrite lr1)
       ++ replicate (length clks `min` 5) (SerWrite lr2)
  /\ heap g' = heap g
  /\ slaveTWCs g' = slaveTWCs g
  /\ slaveTWCRoundRobin g' = slaveTWCRoundRobin g
  /\ idxSlaveToSendNextHeartbeat g' = idxSlaveToSendNextHeartbeat g.
Proof.
  intros Hmaster. revert g.
  induction clks as [|clk clks IH]; intros g Hn H1 H2; cbv zeta.
  - simpl in *. rewrite app_nil_r. repeat split; auto.
  - cbn [fold_left length] in *.
    rewrite (tick_startup cfg clk g lr1 lr2 Hmaster ltac:(lia) H1 H2).
    cbn [snd].
    set (g1 := set_numInitMsgsToSend _ _).
    specialize (IH g1 ltac:(unfold g1; cbn; lia) H1 H2). cbv zeta in IH.
    destruct IH as (Hc & Htr & Hh & Hd & Hrr & Hidx).
    split; [exact Hc|]. split; [|repeat split; assumption].
    rewrite Htr. unfold g1. cbn [trace set_numInitMsgsToSend set_timeLastTx
                                 set_trace].
    rewrite <- app_assoc. f_equal.
    destruct (decide (5 < numInitMsgsToSend g)%Z) as [Hgt|Hle].
    + replace (S (length clks) - 5) with (S (length clks - 5)) by lia.
      replace (S (length clks) `min` 5) with (length clks `min` 5) by lia.
      reflexivity.
    + replace (S (length clks) - 5) with 0 by lia.
      replace (length clks - 5) with 0 by lia.
      replace (S (length clks) `min` 5) with (S (length clks `min` 5)) by lia.
      reflexivity.
Qed.

Lemma X19_witness :
  exists lr1 lr2 : list Z,
    let clks := replicate 10 (Examples.at_time 0) in
    let g' := fold_left (fun g clk => snd (tick Examples.cfg40 clk g))
                        clks initial in
    numInitMsgsToSend g' = 0%Z
    /\ trace g'
       = trace initial
         ++ replicate (length clks - 5) (SerWrite lr1)
         ++ replicate (length clks `min` 5) (SerWrite lr2)
    /\ heap g' = heap initial
    /\ slaveTWCs g' = slaveTWCs initial
    /\ slaveTWCRoundRobin g' = slaveTWCRoundRobin initial
    /\ idxSlaveToSendNextHeartbeat g' = idxSlaveToSendNextHeartbeat initial.
Proof.
  eexists _, _.
  exact (X19_startup_burst Examples.cfg40
           (replicate 10 (Examples.at_time 0)) initial _ _
           eq_refl eq_refl (send_msg_wire _) (send_msg_wire _)).
Defined.

End BusMore.

(** ** The green-energy budget and the status reports *)

Section TelemetryFacts.

Import TWC Allocator Telemetry.
Local Open Scope Q_scope.

Lemma budget_is_green_budget (m : TWCMaster) :
  getMaxAmpsToDivideAmongSlaves m == green_budget m.
Proof.
  unfold getMaxAmpsToDivideAmongSlaves, green_budget, getGenerationOffset,
    getGeneration, getConsumption, getChargerLoad, getTotalAmpsInUse.
  cbv zeta. destruct (subtractChargerLoad m);
    rewrite !clamp_is_max, !add_up_sum.
  - reflexivity.
  - apply Qdiv_comp; [|reflexivity].
    apply Q.max_compat; [reflexivity|].
    apply Qplus_comp; [reflexivity|]. apply Qopp_comp.
    apply Q.max_compat; [reflexivity|]. ring.
Qed.

Lemma Qdiv_240_le (x y : Q) : x <= y -> x / 240 <= y / 240.
Proof.
  intros H. unfold Qdiv. apply Qmult_le_compat_r; [exact H|].
  vm_compute. discriminate.
Qed.

Lemma Qminus_nonneg_le (x y : Q) : 0 <= y -> x - y <= x.
Proof.
  intros Hy. rewrite <- (Qplus_0_r x) at 2.
  apply Qplus_le_compat; [apply Qle_refl|].
  apply (Qopp_le_compat 0 y), Hy.
Qed.

(** X20. The budget [getMaxAmpsToDivideAmongSlaves] is never negative
    and never above the generation divided by 240 V, and counting the
    chargers' own load ([subtractChargerLoad]) can only raise it: with
    the flag set, a larger [totalAmpsInUse] never gives a smaller
    budget. *)
Theorem X20_budget_bounds (m : TWCMaster) (a b : Q) :
  a <= b ->
  0 <= getMaxAmpsToDivideAmongSlaves m
  /\ getMaxAmpsToDivideAmongSlaves m <= getGeneration m / 240
  /\ (subtractChargerLoad m = true ->
      getMaxAmpsToDivideAmongSlaves (setTotalAmpsInUse a m)
      <= getMaxAmpsToDivideAmongSlaves (setTotalAmpsInUse b m))
  /\ (subtractChargerLoad m = false ->
      getMaxAmpsToDivideAmongSlaves (setTotalAmpsInUse a m)
      == getMaxAmpsToDivideAmongSlaves (setTotalAmpsInUse b m)).
Proof.
  intros Hab. split; [|split; [|split]].
  - rewrite budget_is_green_budget. unfold green_budget.
    apply Qle_shift_div_l; [reflexivity|].
    rewrite Qmult_0_l. apply Q.le_max_l.
  - rewrite budget_is_green_budget. unfold green_budget, getGeneration.
    apply Qdiv_240_le. rewrite clamp_is_max, add_up_sum.
    apply Q.max_lub.
    + apply Q.le_max_l.
    + apply Qminus_nonneg_le, Q.le_max_l.
  - intros Hflag. rewrite !budget_is_green_budget. unfold green_budget.
    cbn [setTotalAmpsInUse subtractChargerLoad generationValues
         consumptionValues totalAmpsInUse]. rewrite Hflag.
    apply Qdiv_240_le. apply Q.max_le_compat_l.
    apply Qplus_le_compat; [apply Qle_refl|]. apply Qopp_le_compat.
    apply Q.max_le_compat_l.
    apply Qplus_le_compat; [apply Qle_refl|]. apply Qopp_le_compat.
    apply Qmult_le_compat_r; [exact Hab|]. vm_compute. discriminate.
  - intros Hflag. rewrite !budget_is_green_budget. unfold green_budget.
    cbn [setTotalAmpsInUse subtractChargerLoad generationValues
         consumptionValues totalAmpsInUse]. rewrite Hflag. reflexivity.
Qed.

Lemma X20_witness :
  let m := {| consumptionValues := [("Manual"%string, 2400)];
              generationValues := [("Fronius"%string, 4800)];
              subtractChargerLoad := true;
              totalAmpsInUse := 0 |} in
  getMaxAmpsToDivideAmongSlaves (setTotalAmpsInUse 0 m)
  <= getMaxAmpsToDivideAmongSlaves (setTotalAmpsInUse 6 m).
Proof.
  cbv zeta.
  apply (X20_budget_bounds
           {| consumptionValues := [("Manual"%string, 2400)];
              generationValues := [("Fronius"%string, 4800)];
              subtractChargerLoad := true;
              totalAmpsInUse := 0 |} 0 6).
  - vm_compute. discriminate.
  - reflexivity.
Defined.




Lemma cars_charging_loop_run (h : gmap nat TWCSlave) (l : list nat)
    (c : Z) (calls : list status_call) :
  (forall a, a ∈ l -> is_Some (h !! a)) ->
  let charging :=
    List.filter (fun s => Qgeb (reportedAmpsActual s) 1)
                (omap (fun a => h !! a) l) in
  cars_charging_loop h l c calls
  = Ok ((c + Z.of_nat (length charging))%Z,
        calls ++ concat
                   (imap (fun k s =>
                            [HassStatus (TWCID s) "cars_charging"
                               (inject_Z (c + Z.of_nat (S k)));
                             MqttStatus (TWCID s) "carsCharging"
                               (inject_Z (c + Z.of_nat (S k)))])
                         charging)).
Proof.
  revert c calls. induction l as [|a l IH]; intros c calls Hclosed; cbv zeta.
  - simpl. rewrite app_nil_r, Z.add_0_r. reflexivity.
  - destruct (Hclosed a ltac:(left)) as [s Hs].
    assert (Hom : omap (fun a => h !! a) (a :: l)
                  = s :: omap (fun a => h !! a) l)
      by (simpl; rewrite Hs; reflexivity).
    rewrite Hom. cbn [cars_charging_loop List.filter]. rewrite Hs.
    assert (Hcl : forall x, x ∈ l -> is_Some (h !! x))
      by (intros x Hx; apply Hclosed; right; exact Hx).
    destruct (Qgeb (reportedAmpsActual s) 1).
    + rewrite (IH _ _ Hcl). cbv zeta. cbn [length imap concat].
      f_equal. f_equal; [lia|].
      rewrite <- app_assoc. f_equal.
      replace (c + Z.of_nat 1)%Z with (c + 1)%Z by lia.
      cbn [app]. f_equal. f_equal. f_equal.
      apply imap_ext. intros k x _. cbn.
      replace (c + 1 + Z.of_nat (S k))%Z with (c + Z.of_nat (S (S k)))%Z
        by lia.
      reflexivity.
    + rewrite (IH _ _ Hcl). reflexivity.
Qed.

(** X22. [num_cars_charging_now] returns the number of registered
    sessions whose [reportedAmpsActual] is at least 1 A.  The status
    objects are told about charging sessions only, and what the k-th of
    them in round-robin order is told is k, the count reached so far,
    not the number returned. *)
Theorem X22_num_cars_charging (g : globals) :
  registry_wf g ->
  let charging :=
    List.filter (fun s => Qgeb (reportedAmpsActual s) 1)
                (omap (fun a => heap g !! a) (slaveTWCRoundRobin g)) in
  num_cars_charging_now g
  = Ok (Z.of_nat (length charging),
        concat (imap (fun k s =>
                        [HassStatus (TWCID s) "cars_charging"
                           (inject_Z (Z.of_nat (S k)));
                         MqttStatus (TWCID s) "carsCharging"
                           (inject_Z (Z.of_nat (S k)))])
                     charging)).
Proof.
  intros Hwf. cbv zeta. unfold num_cars_charging_now.
  rewrite (cars_charging_loop_run (heap g) (slaveTWCRoundRobin g) 0 []
             (wf_closed g Hwf)).
  reflexivity.
Qed.

Lemma X22_witness :
  let charging_B :=
    set_heap (insert 1%nat (mkTWCSlave Examples.idB (8000 # 100) 1 5 40 1
                                       12 12 1 []))
             Examples.three_slaves in
  num_cars_charging_now charging_B
  = Ok (1%Z, [HassStatus Examples.idB "cars_charging" 1;
              MqttStatus Examples.idB "carsCharging" 1]).
Proof.
  cbv zeta.
  refine (eq_trans (X22_num_cars_charging _ _) _).
  - apply (registry_wf_update Examples.three_slaves _ 1
             (mkTWCSlave Examples.idB (8000 # 100) 1 5 40 1 0 0 0 [])
             (mkTWCSlave Examples.idB (8000 # 100) 1 5 40 1 12 12 1 [])).
    + apply three_slaves_inv.
    + vm_compute. reflexivity.
    + reflexivity.
    + vm_compute. reflexivity.
    + vm_compute. reflexivity.
    + vm_compute. reflexivity.
  - vm_compute. reflexivity.
Defined.

Lemma dict_shape3 (d : list (string * Q)) (k1 k2 k3 : string) :
  map fst d = [k1; k2; k3] ->
  exists v1 v2 v3, d = [(k1, v1); (k2, v2); (k3, v3)].
Proof.
  destruct d as [|[a1 v1] [|[a2 v2] [|[a3 v3] [|? ?]]]]; try discriminate.
  intros [= -> -> ->]. eauto.
Qed.

Lemma dict_shape2 (d : list (string * Q)) (k1 k2 : string) :
  map fst d = [k1; k2] -> exists v1 v2, d = [(k1, v1); (k2, v2)].
Proof.
  destruct d as [|[a1 v1] [|[a2 v2] [|? ?]]]; try discriminate.
  intros [= -> ->]. eauto.
Qed.

(** After [check_green_energy] the two dictionaries hold the current
    readings and nothing else. *)
Lemma check_green_energy_sources (r : readings) (master : TWCMaster) :
  sources_ok master ->
  let master' := snd (fst (check_green_energy r master)) in
  consumptionValues master'
  = [("Manual"%string, greenEnergyAmpsOffset r * 240);
     ("Fronius"%string, fronius_getConsumption r);
     ("HomeAssistant"%string, hass_getConsumption r)]
  /\ generationValues master'
     = [("Fronius"%string, fronius_getGeneration r);
        ("HomeAssistant"%string, hass_getGeneration r)]
  /\ subtractChargerLoad master' = subtractChargerLoad master
  /\ totalAmpsInUse master' = totalAmpsInUse master.
Proof.
  intros [Hc Hg]. cbv zeta.
  unfold check_green_energy. cbv zeta.
  cbn [fst snd setConsumption setGeneration consumptionValues
       generationValues subtractChargerLoad totalAmpsInUse].
  split; [|split; [|split; reflexivity]].
  - destruct Hc as [-> | Hc].
    + vm_compute dict_set. reflexivity.
    + apply dict_shape3 in Hc as (v1 & v2 & v3 & ->).
      cbn [dict_set].
      repeat first [rewrite decide_True by reflexivity
                   |rewrite decide_False by discriminate
                   |progress cbn [dict_set]].
      reflexivity.
  - destruct Hg as [-> | Hg].
    + vm_compute dict_set. reflexivity.
    + apply dict_shape2 in Hg as (v1 & v2 & ->).
      cbn [dict_set].
      repeat first [rewrite decide_True by reflexivity
                   |rewrite decide_False by discriminate
                   |progress cbn [dict_set]].
      reflexivity.
Qed.

(** X23. [check_green_energy] makes the budget a function of the
    current readings.  Whatever values earlier checks left in the
    master's dictionaries, afterwards they hold the five current
    readings only, and the new [maxAmpsToDivideAmongSlaves] is
    [max(0, max(0, generation) - max(0, max(0, consumption) - charger
    load)) / 240] with the generation of Fronius and HomeAssistant
    added up, the consumption of the two plus
    [greenEnergyAmpsOffset * 240], and the charger load
    [totalAmpsInUse * 240] counted when [subtractChargerLoad] is set.
    The same value is reported to both status objects. *)
Theorem X23_check_green_energy (r : readings) (master : TWCMaster) :
  sources_ok master ->
  exists maxAmps master' calls,
    check_green_energy r master = (maxAmps, master', calls)
    /\ sources_ok master'
    /\ maxAmps
       == Qmax 0 (Qmax 0 (fronius_getGeneration r + hass_getGeneration r)
                  - Qmax 0 (Qmax 0 (greenEnergyAmpsOffset r * 240
                                    + fronius_getConsumption r
                                    + hass_getConsumption r)
                            - (if subtractChargerLoad master
                               then totalAmpsInUse master * 240 else 0)))
          / 240
    /\ HassStatus (Web.bytes_of "all") "max_amps_for_slaves" maxAmps ∈ calls
    /\ MqttStatus (Web.bytes_of "all") "maxAmpsForSlaves" maxAmps ∈ calls.
Proof.
  intros Hok.
  destruct (check_green_energy_sources r master Hok) as (Hc & Hg & Hf & Ht).
  destruct (check_green_energy r master) as [[maxAmps master'] calls] eqn:Hrun.
  cbn [fst snd] in *.
  assert (Hmax : maxAmps = getMaxAmpsToDivideAmongSlaves master'
                 /\ calls
                    = [HassStatus (Web.bytes_of "config") "min_amps_per_twc"
                                  (minAmpsPerTWC r);
                       MqttStatus (Web.bytes_of "config") "minAmpsPerTWC"
                                  (minAmpsPerTWC r);
                       HassStatus (Web.bytes_of "all") "max_amps_for_slaves"
                                  maxAmps;
                       MqttStatus (Web.bytes_of "all") "maxAmpsForSlaves"
                                  maxAmps]).
  { unfold check_green_energy in Hrun. cbv zeta in Hrun.
    injection Hrun as <- <- <-. split; reflexivity. }
  destruct Hmax as [Hmax Hcalls].
  exists maxAmps, master', calls. split; [reflexivity|].
  split; [|split; [|split]].
  - split; right; [rewrite Hc|rewrite Hg]; reflexivity.
  - rewrite Hmax, budget_is_green_budget. unfold green_budget, sum_of.
    rewrite Hc, Hg, Hf, Ht. cbn [map snd foldr].
    apply Qdiv_comp; [|reflexivity].
    apply Q.max_compat; [reflexivity|].
    apply Qplus_comp; [apply Q.max_compat; [reflexivity|ring]|].
    apply Qopp_comp. apply Q.max_compat; [reflexivity|].
    apply Qplus_comp; [apply Q.max_compat; [reflexivity|ring]|reflexivity].
  - rewrite Hcalls. do 2 apply list_elem_of_further. apply list_elem_of_here.
  - rewrite Hcalls. do 3 apply list_elem_of_further. apply list_elem_of_here.
Qed.

Lemma X23_witness :
  let r := {| greenEnergyAmpsOffset := 2; minAmpsPerTWC := 6;
              fronius_getConsumption := 1200; fronius_getGeneration := 4800;
              hass_getConsumption := 0; hass_getGeneration := 0 |} in
  let stale := {| consumptionValues := [("Manual"%string, 480);
                                        ("Fronius"%string, 9000);
                                        ("HomeAssistant"%string, 100)];
                  generationValues := [("Fronius"%string, 100);
                                       ("HomeAssistant"%string, 50)];
                  subtractChargerLoad := false; totalAmpsInUse := 0 |} in
  exists maxAmps master' calls,
    check_green_energy r stale = (maxAmps, master', calls)
    /\ maxAmps == 13.
Proof.
  cbv zeta.
  destruct (X23_check_green_energy
              {| greenEnergyAmpsOffset := 2; minAmpsPerTWC := 6;
                 fronius_getConsumption := 1200;
                 fronius_getGeneration := 4800;
                 hass_getConsumption := 0; hass_getGeneration := 0 |}
              {| consumptionValues := [("Manual"%string, 480);
                                       ("Fronius"%string, 9000);
                                       ("HomeAssistant"%string, 100)];
                 generationValues := [("Fronius"%string, 100);
                                      ("HomeAssistant"%string, 50)];
                 subtractChargerLoad := false; totalAmpsInUse := 0 |})
    as (maxAmps & master' & calls & Hrun & _ & Hmax & _).
  - split; right; reflexivity.
  - exists maxAmps, master', calls. split; [exact Hrun|].
    rewrite Hmax. vm_compute. reflexivity.
Defined.

End TelemetryFacts.

(** ** More on the requests from the web interface *)

Section WebMore.

Import TWC Web Override.
Local Open Scope twc_scope.

Lemma trim_pad_length (s : list Z) (makeLen : nat) :
  length (trim_pad s makeLen) = makeLen.
Proof.
  unfold trim_pad, slice.
  destruct (decide _) as [Hlong|Hshort].
  - rewrite length_take, length_drop. lia.
  - rewrite length_app, length_replicate in *. lia.
Qed.

(** X24. [trim_pad] returns exactly [makeLen] bytes: the first bytes
    of its argument, followed by zero bytes where the argument is
    shorter. *)
Theorem X24_trim_pad_contract (s : list Z) (makeLen : nat) :
  length (trim_pad s makeLen) = makeLen
  /\ forall i, i < makeLen ->
       trim_pad s makeLen !! i = Some (default 0%Z (s !! i)).
Proof.
  unfold trim_pad.
  set (s' := s ++ replicate (makeLen - length s) 0%Z).
  assert (Hlen : length s' = length s `max` makeLen).
  { unfold s'. rewrite length_app, length_replicate. lia. }
  assert (Hlook : forall i, i < makeLen ->
                            s' !! i = Some (default 0%Z (s !! i))).
  { intros i Hi. unfold s'.
    destruct (decide (i < length s)) as [Hlt|Hge].
    - rewrite lookup_app_l by exact Hlt.
      destruct (lookup_lt_is_Some_2 s i Hlt) as [x Hx]. rewrite Hx.
      reflexivity.
    - rewrite lookup_app_r by lia.
      rewrite (lookup_ge_None_2 s i) by lia.
      rewrite lookup_replicate_2 by lia. reflexivity. }
  destruct (decide (makeLen < length s')) as [Hlong|Hshort].
  - unfold slice. rewrite drop_0, Nat.sub_0_r. split.
    + rewrite length_take. lia.
    + intros i Hi. rewrite lookup_take_lt by exact Hi. apply Hlook, Hi.
  - split; [lia|exact Hlook].
Qed.

Lemma fromhex_outcome (digits : list Z) :
  (Nat.Even (length digits) ->
   exists raw, fromhex digits = Ok raw
               /\ length raw = Nat.div2 (length digits))
  /\ (Nat.Odd (length digits) -> fromhex digits = Raise ValueError).
Proof.
  assert (H : forall n (digits : list Z), length digits < n ->
             (Nat.Even (length digits) ->
              exists raw, fromhex digits = Ok raw
                          /\ length raw = Nat.div2 (length digits))
             /\ (Nat.Odd (length digits) ->
                 fromhex digits = Raise ValueError)).
  { induction n as [|n IH]; intros ds Hn; [lia|].
    destruct ds as [|h [|l ds]].
    - split; [intros _; exists []; split; reflexivity|].
      intros [k Hk]. simpl in Hk. lia.
    - split; [|reflexivity]. intros [k Hk]. simpl in Hk. lia.
    - destruct (IH ds ltac:(simpl in Hn; lia)) as [He Ho].
      cbn [fromhex length]. split.
      + intros Hev. destruct He as (raw & -> & Hlen).
        { destruct Hev as [k Hk]. exists (k - 1). lia. }
        eexists. split; [reflexivity|]. simpl. rewrite Hlen. reflexivity.
      + intros Hodd. rewrite Ho; [reflexivity|].
        destruct Hodd as [k Hk]. exists (k - 1). lia. }
  apply (H (S (length digits))). lia.
Qed.

(** X25. A [sendTWCMsg=] request whose first run of hex digits has an
    odd number of digits raises [ValueError] in [bytearray.fromhex]:
    nothing is sent, the state is as before and no reply is put on the
    queue.  With an even number of digits the decoding returns one byte
    for every two digits. *)
Theorem X25_sendTWCMsg_digit_count (tSent : Q) (webMsgTime webMsgID : Z)
    (webMsg digits : list Z) (g : globals) :
  slice webMsg 0 11 = bytes_of "sendTWCMsg=" ->
  search_hex_run (drop 11 webMsg) = Some digits ->
  (Nat.Odd (length digits) ->
   web_request tSent webMsgTime webMsgID webMsg g
   = Some (Raise ValueError, g, []))
  /\ (Nat.Even (length digits) ->
      exists raw, fromhex digits = Ok raw
                  /\ length raw = Nat.div2 (length digits)).
Proof.
  intros Hcmd Hrun.
  destruct (fromhex_outcome digits) as [Heven Hodd].
  split; [|exact Heven].
  intros Ho. unfold web_request, web_dispatch.
  rewrite decide_True by exact Hcmd.
  unfold mbind at 1.
  rewrite (sendTWCMsg_odd_digits tSent webMsg digits g Hrun (Hodd Ho)).
  reflexivity.
Qed.

Lemma X25_witness :
  web_request 0 0 0 (bytes_of "sendTWCMsg=FBE") initial
  = Some (Raise ValueError, initial, []).
Proof.
  apply (X25_sendTWCMsg_digit_count 0 0 0 (bytes_of "sendTWCMsg=FBE")
           (bytes_of "FBE") initial).
  - vm_compute. reflexivity.
  - vm_compute. reflexivity.
  - exists 1. reflexivity.
Defined.

Lemma hex_digit_code (d : Z) :
  (0 <= d < 16)%Z ->
  is_hex (Z.of_N (N_of_ascii (hex_digit d))) = true
  /\ hex_val (Z.of_N (N_of_ascii (hex_digit d))) = d.
Proof.
  intros Hd.
  assert (Hcases : exists n, (n < 16)%nat /\ d = Z.of_nat n)
    by (exists (Z.to_nat d); lia).
  destruct Hcases as (n & Hn & ->).
  do 16 (destruct n as [|n]; [split; vm_compute; reflexivity|]).
  lia.
Qed.

Lemma format_02X_codes (b : Z) :
  (0 <= b < 256)%Z ->
  exists c1 c2,
    map (fun c => Z.of_N (N_of_ascii c)) (format_02X b) = [c1; c2]
    /\ is_hex c1 = true /\ is_hex c2 = true
    /\ (hex_val c1 * 16 + hex_val c2)%Z = b.
Proof.
  intros Hb. unfold format_02X. cbn [map]. eexists _, _.
  split; [reflexivity|].
  destruct (hex_digit_code (b / 16)) as [H1 V1].
  { split; [apply Z.div_pos; lia|apply Z.div_lt_upper_bound; lia]. }
  destruct (hex_digit_code (b mod 16)) as [H2 V2].
  { apply Z.mod_pos_bound. lia. }
  split; [exact H1|]. split; [exact H2|].
  rewrite V1, V2. pose proof (Z.div_mod b 16 ltac:(lia)). lia.
Qed.

(** X26. Hex text with spaces between the bytes, the way [hex_str]
    prints a message, is not what [sendTWCMsg=] reads: the pattern
    takes the first run of hex digits only.  For a message of two or
    more bytes written that way, in a state with a well-formed
    registry, the request returns and the frame that goes out is the
    first byte followed by zero bytes, 13 or 15 bytes in all; the test
    for the refused prefixes is made on that frame and lets it
    through. *)
Theorem X26_sendTWCMsg_spaced_hex (tSent : Q) (b : Z) (rest text : list Z)
    (g : globals) :
  registry_wf g ->
  (0 <= b < 256)%Z ->
  rest <> [] ->
  encode_ascii (hex_str (b :: rest)) = Ok text ->
  exists makeLen wire g',
    (makeLen = 15 \/ makeLen = 13)
    /\ Codec.send_msg (b :: replicate (makeLen - 1) 0%Z) = Ok wire
    /\ web_sendTWCMsg tSent (bytes_of "sendTWCMsg=" ++ text) g = (Ok tt, g')
    /\ new_events g g' = [SerWrite wire].
Proof.
  intros Hwf Hb Hrest Henc.
  destruct rest as [|r rest]; [contradiction|]. clear Hrest.
  destruct (format_02X_codes b Hb) as (c1 & c2 & Hcodes & H1 & H2 & Hval).
  assert (Htext : exists tl, text = c1 :: c2 :: 32%Z :: tl).
  { unfold encode_ascii in Henc.
    destruct (forallb _ _); [|discriminate]. injection Henc as <-.
    unfold hex_str. cbn [map join].
    unfold format_02X in Hcodes. cbn [map] in Hcodes.
    injection Hcodes as <- <-. eexists. reflexivity. }
  destruct Htext as [tl ->].
  destruct (twcMsg_length_run g Hwf) as (makeLen & Hlen & Hcases).
  pose proof (send_msg_wire (b :: replicate (makeLen - 1) 0%Z)) as Hwire.
  eexists makeLen, _, _. split; [exact Hcases|]. split; [exact Hwire|].
  assert (Hrun : search_hex_run
                   (drop 11 (bytes_of "sendTWCMsg="
                             ++ c1 :: c2 :: 32%Z :: tl))
                 = Some [c1; c2]).
  { change 11 with (length (bytes_of "sendTWCMsg=")).
    rewrite drop_app_length. cbn [search_hex_run hex_prefix].
    destruct (is_hex c1) eqn:E1.
    - rewrite H2. reflexivity.
    - discriminate. }
  unfold web_sendTWCMsg. rewrite Hrun.
  assert (Hhex : fromhex [c1; c2] = Ok [b])
    by (cbn [fromhex bind]; rewrite Hval; reflexivity).
  unfold mbind at 1, lift at 1. rewrite Hhex.
  unfold mbind at 1. rewrite Hlen.
  assert (Hpad : trim_pad [b] makeLen = b :: replicate (makeLen - 1) 0%Z)
    by (destruct Hcases as [-> | ->]; reflexivity).
  rewrite Hpad.
  assert (Hgate : could_disable (b :: replicate (makeLen - 1) 0%Z) = false
                  /\ could_crash (b :: replicate (makeLen - 1) 0%Z) = false).
  { unfold could_disable, could_crash.
    destruct Hcases as [-> | ->]; cbn [slice drop take replicate Nat.sub];
      rewrite !bool_decide_eq_false_2 by (intros [= _ H]; discriminate H);
      split; reflexivity. }
  destruct Hgate as [-> ->].
  unfold TWC.send_msg, mbind, lift, emit, modify. rewrite Hwire.
  split; [reflexivity|]. apply new_events_app. reflexivity.
Qed.

Lemma X26_witness :
  exists makeLen wire g',
    (makeLen = 15 \/ makeLen = 13)
    /\ Codec.send_msg (0xFC :: replicate (makeLen - 1) 0)%Z = Ok wire
    /\ web_sendTWCMsg 0 (bytes_of "sendTWCMsg=" ++ bytes_of "FC 19 12 34")
                      initial = (Ok tt, g')
    /\ new_events initial g' = [SerWrite wire].
Proof.
  apply (X26_sendTWCMsg_spaced_hex 0 0xFC [0x19; 0x12; 0x34]%Z
           (bytes_of "FC 19 12 34") initial).
  - apply initial_inv.
  - lia.
  - discriminate.
  - vm_compute. reflexivity.
Defined.

(** X27. [setMasterHeartbeatData=].  The pattern allows an empty run
    of hex digits, so it always matches where the text behind the [=]
    starts: when the first byte there is not a hex digit the override
    is cleared, whatever follows.  A run of hex digits is decoded
    first, which raises [ValueError] for an odd number of digits; then
    [slaveTWCRoundRobin[0]] is read without a test of the length, which
    raises [IndexError] when no slave is registered; otherwise the
    override gets 9 bytes when the first session has protocol version 2
    and 7 bytes when it has not.  The registry is left alone in every
    case. *)
Theorem X27_setMasterHeartbeatData (webMsg : list Z) (g : globals) :
  let digits := hex_prefix (drop 23 webMsg) in
  (digits = [] -> web_setMasterHeartbeatData webMsg g = (Ok [], g))
  /\ (Nat.Odd (length digits) ->
      web_setMasterHeartbeatData webMsg g = (Raise ValueError, g))
  /\ (digits <> [] -> Nat.Even (length digits) ->
      slaveTWCRoundRobin g = [] ->
      web_setMasterHeartbeatData webMsg g = (Raise IndexError, g))
  /\ (digits <> [] -> Nat.Even (length digits) ->
      forall first others s,
        slaveTWCRoundRobin g = first :: others ->
        heap g !! first = Some s ->
        exists data,
          web_setMasterHeartbeatData webMsg g = (Ok data, g)
          /\ length data
             = (if decide (protocolVersion s = 2%Z) then 9 else 7)).
Proof.
  cbv zeta. unfold web_setMasterHeartbeatData.
  set (digits := hex_prefix (drop 23 webMsg)).
  destruct (fromhex_outcome digits) as [Heven Hodd].
  split; [|split; [|split]].
  - intros ->. reflexivity.
  - intros Ho. rewrite decide_True by (destruct Ho as [k Hk]; lia).
    unfold mbind, lift. rewrite (Hodd Ho). reflexivity.
  - intros Hne Hev Hrr.
    rewrite decide_True by (destruct digits; [contradiction|simpl; lia]).
    destruct (Heven Hev) as (raw & Hraw & _).
    unfold mbind, lift, gets, raise. rewrite Hraw, Hrr. reflexivity.
  - intros Hne Hev first others s Hrr Hs.
    rewrite decide_True by (destruct digits; [contradiction|simpl; lia]).
    destruct (Heven Hev) as (raw & Hraw & _).
    unfold mbind at 1, lift at 1. rewrite Hraw.
    unfold mbind at 1, gets at 1. rewrite Hrr.
    change ((first :: others) !! 0) with (Some first). cbv beta iota.
    rewrite (mbind_ok _ _ g g s (deref_ok first s g Hs)).
    eexists. split; [reflexivity|].
    apply trim_pad_length.
Qed.

Lemma X27_witness :
  web_setMasterHeartbeatData
    (bytes_of "setMasterHeartbeatData=0500000000") initial
  = (Raise IndexError, initial)
  /\ web_setMasterHeartbeatData
       (bytes_of "setMasterHeartbeatData= 0500000000") Examples.one_slave
     = (Ok [], Examples.one_slave).
Proof.
  split.
  - apply (X27_setMasterHeartbeatData
             (bytes_of "setMasterHeartbeatData=0500000000") initial).
    + vm_compute. discriminate.
    + exists 5. vm_compute. reflexivity.
    + reflexivity.
  - apply (X27_setMasterHeartbeatData
             (bytes_of "setMasterHeartbeatData= 0500000000")
             Examples.one_slave).
    vm_compute. reflexivity.
Defined.

End WebMore.

(** ** The background task queue *)

Section TasksFacts.

Import Tasks.





End TasksFacts.

(** ** Rounds of heartbeats *)

Section RoundsFacts.

Import TWC Rounds.

Lemma passes_heartbeats (cfg : config) (g0 : globals) (c0 : nat) :
  fakeMaster cfg = 1%Z ->
  (forall a, a ∈ slaveTWCRoundRobin g0 -> is_Some (heap g0 !! a)) ->
  0 < length (slaveTWCRoundRobin g0) ->
  forall (clks : list clock) (g : globals) (o : nat),
    heap g = heap g0 ->
    slaveTWCRoundRobin g = slaveTWCRoundRobin g0 ->
    (numInitMsgsToSend g <= 0)%Z ->
    idxSlaveToSendNextHeartbeat g
    = (c0 + o) mod length (slaveTWCRoundRobin g0) ->
    paced (timeLastTx g) clks ->
    responsive g0 clks ->
    heap (passes cfg clks g) = heap g0
    /\ slaveTWCRoundRobin (passes cfg clks g) = slaveTWCRoundRobin g0
    /\ slaveTWCs (passes cfg clks g) = slaveTWCs g
    /\ idxSlaveToSendNextHeartbeat (passes cfg clks g)
       = (c0 + (o + length clks)) mod length (slaveTWCRoundRobin g0)
    /\ trace (passes cfg clks g)
       = trace g ++ omap (heartbeat_due g0 c0) (seq o (length clks)).
Proof.
  intros Hmaster Hclosed Hlen.
  induction clks as [|clk clks IH]; intros g o Hh Hrr Hinit Hidx Hpaced Hresp.
  - cbn. rewrite Nat.add_0_r, app_nil_r. auto.
  - destruct Hpaced as [Htx Hpaced].
    set (len := length (slaveTWCRoundRobin g0)) in *.
    assert (Hlt : (c0 + o) mod len < len) by (apply Nat.mod_upper_bound; lia).
    destruct (lookup_lt_is_Some_2 (slaveTWCRoundRobin g0) _ Hlt) as [a Ha].
    assert (Hin : a ∈ slaveTWCRoundRobin g0)
      by (eapply list_elem_of_lookup_2; exact Ha).
    destruct (Hclosed a Hin) as [s Hs].
    assert (Hcur : slaveTWCRoundRobin g !! idxSlaveToSendNextHeartbeat g
                   = Some a) by (rewrite Hrr, Hidx; exact Ha).
    assert (Hs' : heap g !! a = Some s) by (rewrite Hh; exact Hs).
    assert (Hq : Qgtb (tRxCheck clk - timeLastRx s) 26 = false).
    { unfold Qgtb. apply negb_false_iff, Qle_bool_iff.
      apply (Hresp clk a s); [left|exact Hin|exact Hs]. }
    unfold passes. cbn [fold_left].
    rewrite (tick_at_cursor cfg clk g a s Hmaster Hinit Htx Hcur Hs').
    rewrite Hq. cbv zeta. cbn [snd].
    set (g1 := if decide _ then _ else _).
    assert (Hg1 : heap g1 = heap g /\ slaveTWCRoundRobin g1 = slaveTWCRoundRobin g
                  /\ slaveTWCs g1 = slaveTWCs g
                  /\ numInitMsgsToSend g1 = numInitMsgsToSend g
                  /\ timeLastTx g1 = tSent clk
                  /\ trace g1 = trace g ++ [SendMasterHeartbeat a (TWCID s)]
                  /\ idxSlaveToSendNextHeartbeat g1
                     = (idxSlaveToSendNextHeartbeat g + 1) mod len).
    { unfold g1.
      cbn [set_idx set_timeLastTx set_trace slaveTWCRoundRobin
           idxSlaveToSendNextHeartbeat].
      rewrite Hrr. fold len.
      destruct (decide (len <= idxSlaveToSendNextHeartbeat g + 1))
        as [Hwrap|Hnext]; cbn.
      - repeat (split; [first [reflexivity|exact Hrr]|]).
        replace (idxSlaveToSendNextHeartbeat g + 1) with len
          by (rewrite Hidx in *; lia).
        symmetry. apply Nat.Div0.mod_same.
      - repeat (split; [first [reflexivity|exact Hrr]|]).
        symmetry. apply Nat.mod_small. lia. }
    destruct Hg1 as (Hh1 & Hrr1 & Hd1 & Hn1 & Ht1 & Htr1 & Hidx1).
    fold (passes cfg clks g1).
    destruct (IH g1 (S o)) as (Hh2 & Hrr2 & Hd2 & Hidx2 & Htr2).
    + congruence.
    + congruence.
    + lia.
    + rewrite Hidx1, Hidx. fold len.
      rewrite Nat.Div0.add_mod_idemp_l. f_equal. lia.
    + rewrite Ht1. exact Hpaced.
    + intros clk' a' s' Hclk'. apply Hresp. right. exact Hclk'.
    + split; [exact Hh2|]. split; [exact Hrr2|].
      split; [congruence|]. split.
      * rewrite Hidx2. cbn [length]. f_equal. lia.
      * rewrite Htr2, Htr1, <- app_assoc. f_equal.
        cbn [length seq]. simpl omap.
        unfold heartbeat_due at 2. fold len. rewrite Ha, Hs. reflexivity.
Qed.

(** X29. Rounds of heartbeats.  In master mode, with the start-up
    burst over, the cursor inside the list, every pass a second or more
    after the previous transmission and every session heard from within
    26 seconds, consecutive passes leave the registry as it is and send
    one heartbeat each, to the sessions in round-robin order from the
    cursor on; as many passes as there are sessions send a heartbeat to
    every registered session. *)
Theorem X29_heartbeat_rounds (cfg : config) (clks : list clock)
    (g : globals) :
  registry_wf g ->
  fakeMaster cfg = 1%Z ->
  (numInitMsgsToSend g <= 0)%Z ->
  idxSlaveToSendNextHeartbeat g < length (slaveTWCRoundRobin g) ->
  paced (timeLastTx g) clks ->
  responsive g clks ->
  heap (passes cfg clks g) = heap g
  /\ slaveTWCs (passes cfg clks g) = slaveTWCs g
  /\ slaveTWCRoundRobin (passes cfg clks g) = slaveTWCRoundRobin g
  /\ idxSlaveToSendNextHeartbeat (passes cfg clks g)
     = (idxSlaveToSendNextHeartbeat g + length clks)
       mod length (slaveTWCRoundRobin g)
  /\ new_events g (passes cfg clks g)
     = omap (heartbeat_due g (idxSlaveToSendNextHeartbeat g))
            (seq 0 (length clks))
  /\ (length (slaveTWCRoundRobin g) <= length clks ->
      forall a, a ∈ slaveTWCRoundRobin g ->
        exists i, SendMasterHeartbeat a i ∈ new_events g (passes cfg clks g)).
Proof.
  intros Hwf Hmaster Hinit Hcur Hpaced Hresp.
  set (c := idxSlaveToSendNextHeartbeat g) in *.
  set (len := length (slaveTWCRoundRobin g)) in *.
  destruct (passes_heartbeats cfg g c Hmaster (wf_closed g Hwf)
              ltac:(fold len; lia) clks g 0 eq_refl eq_refl Hinit)
    as (Hh & Hrr & Hd & Hidx & Htr).
  { fold len. rewrite Nat.add_0_r. symmetry. apply Nat.mod_small. exact Hcur. }
  { exact Hpaced. }
  { exact Hresp. }
  assert (Hev : new_events g (passes cfg clks g)
                = omap (heartbeat_due g c) (seq 0 (length clks)))
    by (apply new_events_app; exact Htr).
  split; [exact Hh|]. split; [exact Hd|]. split; [exact Hrr|].
  split; [exact Hidx|]. split; [exact Hev|].
  intros Hround a Ha.
  apply list_elem_of_lookup in Ha as [i Hi].
  assert (Hilt : i < len) by (eapply lookup_lt_Some; exact Hi).
  destruct (wf_closed g Hwf a) as [s Hs];
    [eapply list_elem_of_lookup_2; exact Hi|].
  exists (TWCID s). rewrite Hev. apply list_elem_of_omap.
  exists ((i + (len - c)) mod len). split.
  - apply elem_of_seq. split; [lia|].
    pose proof (Nat.mod_upper_bound (i + (len - c)) len ltac:(lia)). lia.
  - unfold heartbeat_due. fold len.
    rewrite Nat.Div0.add_mod_idemp_r.
    replace (c + (i + (len - c))) with (i + 1 * len) by lia.
    rewrite Nat.Div0.mod_add, Nat.mod_small by exact Hilt.
    rewrite Hi, Hs. reflexivity.
Qed.

Lemma X29_witness :
  let clks := [Examples.at_time 3; Examples.at_time 5; Examples.at_time 7] in
  let g := Examples.three_slaves in
  heap (passes Examples.cfg40 clks g) = heap g
  /\ slaveTWCs (passes Examples.cfg40 clks g) = slaveTWCs g
  /\ slaveTWCRoundRobin (passes Examples.cfg40 clks g) = slaveTWCRoundRobin g
  /\ idxSlaveToSendNextHeartbeat (passes Examples.cfg40 clks g)
     = (idxSlaveToSendNextHeartbeat g + length clks)
       mod length (slaveTWCRoundRobin g)
  /\ new_events g (passes Examples.cfg40 clks g)
     = omap (heartbeat_due g (idxSlaveToSendNextHeartbeat g))
            (seq 0 (length clks))
  /\ (length (slaveTWCRoundRobin g) <= length clks ->
      forall a, a ∈ slaveTWCRoundRobin g ->
        exists i,
          SendMasterHeartbeat a i
          ∈ new_events g (passes Examples.cfg40 clks g)).
Proof.
  cbv zeta.
  refine (X29_heartbeat_rounds Examples.cfg40
            [Examples.at_time 3; Examples.at_time 5; Examples.at_time 7]
            Examples.three_slaves _ _ _ _ _ _).
  - apply three_slaves_inv.
  - reflexivity.
  - vm_compute. discriminate.
  - vm_compute. lia.
  - vm_compute. repeat split; discriminate.
  - intros clk a s Hclk Ha Hs.
    assert (Hrr : slaveTWCRoundRobin Examples.three_slaves = [0; 1; 2])
      by (vm_compute; reflexivity).
    rewrite Hrr in Ha.
    repeat (apply elem_of_cons in Hclk as [->|Hclk]);
      try (inversion Hclk; fail);
      repeat (apply elem_of_cons in Ha as [->|Ha]);
      try (inversion Ha; fail);
      vm_compute in Hs; injection Hs as <-; vm_compute; discriminate.
Defined.

End RoundsFacts.

(** ** The reply to [getLastTWCMsgResponse] *)

Section ResponseFacts.

Import Codec Rx.
Local Open Scope Z_scope.

(** X30. The message kept for [getLastTWCMsgResponse] is not a
    verified one.  After [sendTWCMsg] has emptied
    [lastTWCResponseMsg], the frame stage keeps the next decoded
    message of an unusual type before the length gate and the checksum
    test are reached, so it is kept whatever their verdict is, and
    [getLastTWCMsgResponse] then replies with its bytes in hex. *)
Theorem X30_unverified_response_reported (st st' : rx_state)
    (g : TWC.globals) (resp' : option (list Z)) (verdict : rx_verdict)
    (m : list Z) :
  (16 <= msgLen st)%nat ->
  TWC.lastTWCResponseMsg g = Some [] ->
  rx_frame st (TWC.lastTWCResponseMsg g) = Ok (st', resp', verdict, m) ->
  m <> [] ->
  unusual_type m = true ->
  resp' = Some m
  /\ Web.web_getLastTWCMsgResponse (TWC.set_lastTWCResponseMsg resp' g)
     = (Ok (Web.hex_str m), TWC.set_lastTWCResponseMsg resp' g).
Proof.
  intros _ Hempty Hframe Hne Hun.
  unfold rx_frame in Hframe.
  destruct (unescape_msg_obj _ _ _) as [m0| |]; try discriminate.
  cbn [bind] in Hframe. injection Hframe as _ <- _ <-.
  rewrite Hempty. unfold store_response.
  rewrite bool_decide_eq_true_2 by reflexivity. rewrite Hun. cbn [andb].
  split; [reflexivity|].
  destruct m0 as [|b rest]; [contradiction|]. reflexivity.
Qed.

Lemma X30_witness :
  let corrupted := [0xc0; 0xFD; 0x1B; 0x12; 0x34; 0x77; 0x77; 0; 0; 0; 0; 0;
                    0; 0; 0; 0xFF; 0xc0] in
  let st := mkRx corrupted 17%nat [] true 0%nat in
  let g := TWC.set_lastTWCResponseMsg (Some []) Examples.one_slave in
  exists st' m,
    rx_frame st (TWC.lastTWCResponseMsg g)
    = Ok (st', Some m, RxUnexpectedLength, m)
    /\ Web.web_getLastTWCMsgResponse
         (TWC.set_lastTWCResponseMsg (Some m) g)
       = (Ok (Web.hex_str m), TWC.set_lastTWCResponseMsg (Some m) g).
Proof.
  cbv zeta. eexists _, _.
  assert (Hframe :
    rx_frame (mkRx [0xc0; 0xFD; 0x1B; 0x12; 0x34; 0x77; 0x77; 0; 0; 0; 0; 0;
                    0; 0; 0; 0xFF; 0xc0] 17%nat [] true 0%nat)
             (TWC.lastTWCResponseMsg
                (TWC.set_lastTWCResponseMsg (Some []) Examples.one_slave))
    = Ok (mkRx [0xFD; 0x1B; 0x12; 0x34; 0x77; 0x77; 0; 0; 0; 0; 0; 0; 0; 0;
                0xFF] 0%nat [] true 1%nat,
          Some [0xFD; 0x1B; 0x12; 0x34; 0x77; 0x77; 0; 0; 0; 0; 0; 0; 0; 0;
                0xFF],
          RxUnexpectedLength,
          [0xFD; 0x1B; 0x12; 0x34; 0x77; 0x77; 0; 0; 0; 0; 0; 0; 0; 0; 0xFF]))
    by (vm_compute; reflexivity).
  split; [exact Hframe|].
  apply (X30_unverified_response_reported
           (mkRx [0xc0; 0xFD; 0x1B; 0x12; 0x34; 0x77; 0x77; 0; 0; 0; 0; 0;
                  0; 0; 0; 0xFF; 0xc0] 17%nat [] true 0%nat) _
           (TWC.set_lastTWCResponseMsg (Some []) Examples.one_slave)
           _ _ _ ltac:(simpl; lia) eq_refl Hframe);
    [discriminate|vm_compute; reflexivity].
Defined.

End ResponseFacts.
